(** * Yari document builder: the [buildDocument] pipeline of [build/index.js]

    A shallow embedding of the builder module (slug validation, the cheerio
    post-processors, the table of contents, the macro-flaw policy, live
    samples, the indexing decision) together with the properties the
    specification states about it.

    JavaScript strings are sequences of UTF-16 code units; the embedding
    uses Rocq's [string], whose characters stand for the code units below
    256.  On that range the ECMAScript notions used by the builder
    (white space for [trim] and the [\s] class, [toLowerCase]) are written
    out in full. *)

From Stdlib Require Import ZArith Ascii String List Bool Lia.
From Stdlib Require Import Floats.SpecFloat.
From Stdlib Require Import QArith Qabs Qpower Lqa.
From stdpp Require Import base option list strings gmap pretty.

Close Scope Q_scope.
Local Open Scope list_scope.

(** ** ECMAScript strings *)

Module JSString.

(** [WhiteSpace] and [LineTerminator] code units below 256: TAB, LF, VT,
    FF, CR, SP and NBSP.  [String.prototype.trim] strips exactly these and
    the regular expression class [\s] matches exactly these. *)
Definition is_space (c : ascii) : bool :=
  match N_of_ascii c with
  | 9 | 10 | 11 | 12 | 13 | 32 | 160 => true
  | _ => false
  end%N.

(** [s.length === 0], the only falsy string. *)
Definition is_empty (s : string) : bool :=
  match s with
  | EmptyString => true
  | String _ _ => false
  end.

(** [s.startsWith(p)] *)
Fixpoint startsWith (s p : string) {struct p} : bool :=
  match p, s with
  | EmptyString, _ => true
  | String _ _, EmptyString => false
  | String a p', String b s' => Ascii.eqb a b && startsWith s' p'
  end.

(** [s.includes(p)] *)
Fixpoint includes (s p : string) : bool :=
  startsWith s p ||
  match s with
  | EmptyString => false
  | String _ s' => includes s' p
  end.

Fixpoint rev_onto (s acc : string) : string :=
  match s with
  | EmptyString => acc
  | String c s' => rev_onto s' (String c acc)
  end.

Definition rev (s : string) : string := rev_onto s EmptyString.

(** [s.endsWith(p)] *)
Definition endsWith (s p : string) : bool := startsWith (rev s) (rev p).

(** Strip leading white space. *)
Fixpoint trimStart (s : string) : string :=
  match s with
  | EmptyString => EmptyString
  | String c s' => if is_space c then trimStart s' else s
  end.

(** Strip trailing white space. *)
Fixpoint trimEnd (s : string) : string :=
  match s with
  | EmptyString => EmptyString
  | String c s' =>
      let r := trimEnd s' in
      if is_space c && is_empty r then EmptyString else String c r
  end.

(** [s.trim()] *)
Definition trim (s : string) : string := trimEnd (trimStart s).

(** Put a code unit in front of the first piece of a split. *)
Definition push_front (c : ascii) (pieces : list string) : list string :=
  match pieces with
  | [] => [String c EmptyString]
  | piece :: rest => String c piece :: rest
  end.

(** [s.split(sep)] for a non-empty separator string: [skip] counts the code
    units of a matched separator that are still to be passed over. *)
Fixpoint split_from (sep : string) (skip : nat) (s : string) : list string :=
  match s with
  | EmptyString => [EmptyString]
  | String c s' =>
      match skip with
      | S k => split_from sep k s'
      | O =>
          if startsWith s sep
          then EmptyString :: split_from sep (Nat.pred (String.length sep)) s'
          else push_front c (split_from sep 0 s')
      end
  end.

Definition split (s sep : string) : list string := split_from sep 0 s.

(** [s.split(/\s+/)]: the pieces between maximal runs of white space;
    [in_run] tells that the previous code unit was white space. *)
Fixpoint split_space_from (in_run : bool) (s : string) : list string :=
  match s with
  | EmptyString => [EmptyString]
  | String c s' =>
      if is_space c
      then if in_run then split_space_from true s'
           else EmptyString :: split_space_from true s'
      else push_front c (split_space_from false s')
  end.

Definition split_space (s : string) : list string := split_space_from false s.

(** [pieces.join(sep)] *)
Fixpoint join (pieces : list string) (sep : string) : string :=
  match pieces with
  | [] => EmptyString
  | [piece] => piece
  | piece :: rest => piece +:+ sep +:+ join rest sep
  end.

(** [toLowerCase] on one code unit below 256: the Latin capital letters
    A-Z and the Latin-1 capitals U+00C0-U+00DE (without the multiplication
    sign U+00D7) move up by 32. *)
Definition lower_unit (c : ascii) : ascii :=
  (let n := N_of_ascii c in
  if (65 <=? n) && (n <=? 90) then ascii_of_N (n + 32)
  else if (192 <=? n) && (n <=? 222) && negb (n =? 215) then ascii_of_N (n + 32)
  else c)%N.

(** [s.toLowerCase()] *)
Fixpoint toLowerCase (s : string) : string :=
  match s with
  | EmptyString => EmptyString
  | String c s' => String (lower_unit c) (toLowerCase s')
  end.

(** [s.substring(n)] *)
Fixpoint drop (n : nat) (s : string) : string :=
  match n, s with
  | O, _ => s
  | S _, EmptyString => EmptyString
  | S k, String _ s' => drop k s'
  end.

(** [GetSubstitution] for a string pattern (no captures): in the
    replacement text [$$] is a dollar sign, [$&] the matched text, [$`]
    what precedes the match and [$'] what follows it; any other dollar
    sign stands for itself. *)
Fixpoint getSubstitution (matched before after replacement : string) : string :=
  match replacement with
  | EmptyString => EmptyString
  | String c r =>
      match r with
      | String d r' =>
          if negb (Ascii.eqb c "$") then String c (getSubstitution matched before after r)
          else if Ascii.eqb d "$" then String "$" (getSubstitution matched before after r')
          else if Ascii.eqb d "&" then matched +:+ getSubstitution matched before after r'
          else if Ascii.eqb d "`" then before +:+ getSubstitution matched before after r'
          else if Ascii.eqb d "'" then after +:+ getSubstitution matched before after r'
          else String c (getSubstitution matched before after r)
      | EmptyString => String c EmptyString
      end
  end.

(** The first occurrence of [pat] in [s], searched from the left, with
    [before] the text already passed. *)
Fixpoint replace_from (before s pat replacement : string) : option string :=
  if startsWith s pat
  then let after := drop (String.length pat) s in
       Some (before +:+ getSubstitution pat before after replacement +:+ after)
  else match s with
       | EmptyString => None
       | String c s' => replace_from (before +:+ String c EmptyString) s' pat replacement
       end.

(** [s.replace(pat, replacement)] with a string pattern: only the first
    occurrence is replaced. *)
Definition replace (s pat replacement : string) : string :=
  default s (replace_from EmptyString s pat replacement).

End JSString.

(** ** The cheerio document tree

    [cheerio.load] gives a document whose nodes are text, comments and
    elements; an element carries its tag name, its attribute object
    ([attribs], a JavaScript object used as a map from attribute names to
    values) and its children.  [$] is the list of the children of the
    document root. *)

#[warning="-register-all"]
Inductive node : Type :=
| Text (data : string)
| Comment (data : string)
| Element (name : string) (attribs : gmap string string) (children : list node).

Abbreviation tree := (list node).

(** Children are addressed by the list of child indexes leading to them. *)
Fixpoint node_at (path : list nat) (t : tree) : option node :=
  match path with
  | [] => None
  | i :: rest =>
      match rest with
      | [] => t !! i
      | _ :: _ =>
          match t !! i with
          | Some (Element _ _ children) => node_at rest children
          | _ => None
          end
      end
  end.

(** *** Selectors

    The selectors of the builder only look at the element itself: its tag
    name and its attributes.  A selector is a comma-separated list of
    compound selectors, each a sequence of simple selectors. *)

Inductive simple_selector : Type :=
| sel_tag (name : string)                      (* [div] *)
| sel_class (value : string)                   (* [.warning] *)
| sel_attr (name : string)                     (* [[loading]] *)
| sel_attr_prefix (name value : string)        (* [[href^=http]] *)
| sel_not (inner : simple_selector).           (* [:not(...)] *)

Abbreviation compound_selector := (list simple_selector).
Abbreviation selector := (list compound_selector).

(** The class test of css-select: the attribute value matches the regular
    expression [(?:^|\s)value(?:$|\s)]; a value that contains white space
    never matches. *)
Definition word_here (s value : string) : bool :=
  JSString.startsWith s value &&
  match JSString.drop (String.length value) s with
  | EmptyString => true
  | String c _ => JSString.is_space c
  end.

Fixpoint has_word_from (at_boundary : bool) (s value : string) : bool :=
  (at_boundary && word_here s value) ||
  match s with
  | EmptyString => false
  | String c s' => has_word_from (JSString.is_space c) s' value
  end.

Fixpoint has_space (s : string) : bool :=
  match s with
  | EmptyString => false
  | String c s' => JSString.is_space c || has_space s'
  end.

Definition has_word (s value : string) : bool :=
  negb (has_space value) && has_word_from true s value.

Fixpoint matches_simple (sel : simple_selector) (name : string)
    (attribs : gmap string string) : bool :=
  match sel with
  | sel_tag n => String.eqb name n
  | sel_class value =>
      match attribs !! "class" with
      | Some cls => has_word cls value
      | None => false
      end
  | sel_attr a => bool_decide (is_Some (attribs !! a))
  | sel_attr_prefix a value =>
      match attribs !! a with
      | Some v => JSString.startsWith v value
      | None => false
      end
  | sel_not inner => negb (matches_simple inner name attribs)
  end.

Definition matches (sel : selector) (name : string)
    (attribs : gmap string string) : bool :=
  existsb (forallb (fun s => matches_simple s name attribs)) sel.

Definition selected (sel : selector) (n : node) : bool :=
  match n with
  | Element name attribs _ => matches sel name attribs
  | _ => false
  end.

(** [$(sel).each(...)] with a callback that rewrites the attributes of the
    element it is given, and the attribute methods [$(sel).attr(...)],
    [.addClass], [.removeClass], [.removeAttr], which do so for every
    selected element: the selection is taken first, so every element that
    matched is rewritten, whatever happens to the others. *)
Fixpoint update_node (sel : selector)
    (f : gmap string string -> gmap string string) (n : node) : node :=
  match n with
  | Element name attribs children =>
      Element name
        (if matches sel name attribs then f attribs else attribs)
        (map (update_node sel f) children)
  | _ => n
  end.

Definition update_matching (sel : selector)
    (f : gmap string string -> gmap string string) (t : tree) : tree :=
  map (update_node sel f) t.

(** [$(sel).remove()]: every selected element leaves its parent, with all
    that is below it. *)
Fixpoint prune_node (sel : selector) (n : node) : node :=
  match n with
  | Element name attribs children =>
      Element name attribs
        ((fix prune_list (l : list node) : list node :=
            match l with
            | [] => []
            | c :: l' =>
                if selected sel c then prune_list l'
                else prune_node sel c :: prune_list l'
            end) children)
  | _ => n
  end.

Fixpoint remove_matching (sel : selector) (t : tree) : tree :=
  match t with
  | [] => []
  | c :: t' =>
      if selected sel c then remove_matching sel t'
      else prune_node sel c :: remove_matching sel t'
  end.

(** A test on every element of the tree. *)
Fixpoint every_element (P : string -> gmap string string -> bool) (n : node)
    : bool :=
  match n with
  | Element name attribs children =>
      P name attribs && forallb (every_element P) children
  | _ => true
  end.

(** No element carries the marker the macro engine leaves on the markup a
    flaw comes from. *)
Definition unmarked (t : tree) : bool :=
  forallb
    (every_element
       (fun _ attribs => bool_decide (attribs !! "data-flaw-src" = None)))
    t.

(** *** Class and attribute methods of cheerio *)

(** [splitNames]: [names ? names.trim().split(/\s+/) : []] *)
Definition splitNames (names : option string) : list string :=
  match names with
  | Some s =>
      if JSString.is_empty s then []
      else JSString.split_space (JSString.trim s)
  | None => []
  end.

(** One round of the loop of [addClass]: append the class name unless
    [" name "] already occurs in the padded class string. *)
Definition appendClass (setClass className : string) : string :=
  let appended := className +:+ " " in
  if JSString.includes setClass (" " +:+ appended) then setClass
  else setClass +:+ appended.

(** [$el.addClass(value)] on the attributes of one element. *)
Definition addClass (value : string) (attribs : gmap string string)
    : gmap string string :=
  if JSString.is_empty value then attribs
  else
    let classNames := JSString.split_space value in
    match attribs !! "class" with
    | Some (String c cls) =>
        let setClass :=
          foldl appendClass (" " +:+ String c cls +:+ " ") classNames in
        <["class" := JSString.trim setClass]> attribs
    | _ => <["class" := JSString.trim (JSString.join classNames " ")]> attribs
    end.

(** [$el.removeClass(value)] on the attributes of one element: every
    occurrence of each of the given names is taken out, and the attribute is
    written back only when something was taken out. *)
Definition removeClass (value : string) (attribs : gmap string string)
    : gmap string string :=
  let classes := splitNames (Some value) in
  let elClasses := splitNames (attribs !! "class") in
  let kept :=
    foldl (fun l c => filter (fun x => x <> c) l) elClasses classes in
  if existsb (fun c => existsb (String.eqb c) elClasses) classes
  then <["class" := JSString.join kept " "]> attribs
  else attribs.

(** ** The post-processors of the builder *)

(** [$("pre").addClass("notranslate")] *)
Definition injectNoTranslate (t : tree) : tree :=
  update_matching [[sel_tag "pre"]] (addClass "notranslate") t.

(** [$("img:not([loading]), iframe:not([loading])").attr("loading", "lazy")] *)
Definition injectLoadingLazyAttributes (t : tree) : tree :=
  update_matching
    [[sel_tag "img"; sel_not (sel_attr "loading")];
     [sel_tag "iframe"; sel_not (sel_attr "loading")]]
    (fun attribs => <["loading" := "lazy"]> attribs) t.

(** [$a.attr("rel") || ""] *)
Definition attr_or_empty (a : string) (attribs : gmap string string) : string :=
  default EmptyString (attribs !! a).

(** The callback of [postProcessExternalLinks], on the attributes of the
    link it is given. *)
Definition externalLink (attribs : gmap string string) : gmap string string :=
  if JSString.startsWith (attr_or_empty "href" attribs)
       "https://developer.mozilla.org"
  then attribs
  else
    let attribs1 := addClass "external" attribs in
    let rel := JSString.split (attr_or_empty "rel" attribs1) " " in
    if bool_decide ("noopener" ∈ rel) then attribs1
    else <["rel" := JSString.join (rel ++ ["noopener"]) " "]> attribs1.

(** [$("a[href^=http]").each(...)] *)
Definition postProcessExternalLinks (t : tree) : tree :=
  update_matching [[sel_tag "a"; sel_attr_prefix "href" "http"]] externalLink t.

(** [$("div.in-page-callout").addClass("callout")
      .removeClass("in-page-callout webdev")] *)
Definition injectInPageCallout (t : tree) : tree :=
  update_matching [[sel_tag "div"; sel_class "in-page-callout"]]
    (fun attribs => removeClass "in-page-callout webdev" (addClass "callout" attribs)) t.

(** [$("div.warning, div.note, div.blockIndicator").addClass("notecard")
      .removeClass("blockIndicator")] *)
Definition notecard (attribs : gmap string string) : gmap string string :=
  removeClass "blockIndicator" (addClass "notecard" attribs).

Definition injectNotecardOnWarnings (t : tree) : tree :=
  update_matching
    [[sel_tag "div"; sel_class "warning"];
     [sel_tag "div"; sel_class "note"];
     [sel_tag "div"; sel_class "blockIndicator"]]
    notecard t.

(** ** JavaScript values

    The objects the builder passes around (the output document [doc], the
    flaws of the macro engine, sections, thrown errors) are plain
    JavaScript data.  An object is a map from property names to values;
    reading a property that is not there gives [undefined]. *)

#[warning="-register-all"]
Inductive value : Type :=
| VUndefined
| VNull
| VBool (b : bool)
| VNumber (x : spec_float)
| VString (s : string)
| VArray (items : list value)
| VObject (props : gmap string value).

Abbreviation object := (gmap string value).

(** Binary64: 53 bits of precision, exponents up to 1024. *)
Definition prec : Z := 53.
Definition emax : Z := 1024.

(** [ToBoolean] *)
Definition truthy (v : value) : bool :=
  match v with
  | VUndefined | VNull => false
  | VBool b => b
  | VNumber (S754_zero _) | VNumber S754_nan => false
  | VNumber _ => true
  | VString s => negb (JSString.is_empty s)
  | VArray _ | VObject _ => true
  end.

(** [new Error(message)] and the [TypeError] of the engine, as the objects a
    [catch] clause sees. *)
Definition mkError (message : string) : value :=
  VObject (<["name" := VString "Error"]> (<["message" := VString message]> ∅)).

Definition mkTypeError (message : string) : value :=
  VObject (<["name" := VString "TypeError"]> (<["message" := VString message]> ∅)).

(** ** Numbers: [Number(x.toFixed(4))] *)

(** The Number value of the decimal [n / 10^digits] with sign [s]: the
    binary64 number nearest to it, ties to even. *)
Definition ofDecimal (s : bool) (n : Z) (digits : Z) : spec_float :=
  match n with
  | Zpos m => SFdiv prec emax (S754_finite s m 0) (S754_finite false (Z.to_pos (10 ^ digits)) 0)
  | _ => S754_zero s
  end.

(** Step of [Number.prototype.toFixed]: for the magnitude [m * 2^e], the
    integer [n] for which [n / 10^digits - m * 2^e] is as close to zero as
    possible, the larger one if there are two. *)
Definition toFixedDigits (m : positive) (e : Z) (digits : Z) : Z :=
  let scaled := (Zpos m * 10 ^ digits)%Z in
  match e with
  | Zneg k => let d := (2 ^ Zpos k)%Z in ((2 * scaled + d) / (2 * d))%Z
  | _ => (scaled * 2 ^ e)%Z
  end.

(** Is [m * 2^e] at least [10^21]? *)
Definition atLeast1e21 (m : positive) (e : Z) : bool :=
  match e with
  | Zneg k => (10 ^ 21 * 2 ^ Zpos k <=? Zpos m)%Z
  | _ => (10 ^ 21 <=? Zpos m * 2 ^ e)%Z
  end.

(** [Number(x.toFixed(4))]: [toFixed] keeps the sign apart, prints numbers
    that are not finite or are [1e21] and more the way [ToString] does (so
    that [Number] gives them back), and prints the others with four
    decimals. *)
Definition roundTo4 (x : spec_float) : spec_float :=
  match x with
  | S754_finite s m e =>
      if atLeast1e21 m e then x
      else ofDecimal s (toFixedDigits m e 4) 4
  | _ => x
  end.

(** [popularity ? Number(popularity.toFixed(4)) : 0.0], where an absent
    popularity is [undefined]. *)
Definition storedPopularity (popularity : option spec_float) : spec_float :=
  match popularity with
  | Some x => if truthy (VNumber x) then roundTo4 x else S754_zero false
  | None => S754_zero false
  end.

(** ** Property reads *)

(** [v[k]]: reading a property of [undefined] or [null] throws a
    [TypeError]; a property that is not there reads as [undefined]. *)
Definition getProp (v : value) (k : string) : value + value :=
  match v with
  | VUndefined | VNull =>
      inl (mkTypeError ("Cannot read properties of undefined (reading '" +:+ k +:+ "')"))
  | VObject props => inr (default VUndefined (props !! k))
  | _ => inr VUndefined
  end.

(** Sequencing of reads that may throw. *)
Definition andThen {A B} (r : value + A) (k : A -> value + B) : value + B :=
  match r with
  | inl e => inl e
  | inr a => k a
  end.

(** [v === "literal"] *)
Definition isString (v : value) (s : string) : bool :=
  match v with
  | VString s' => String.eqb s' s
  | _ => false
  end.

(** ** The source document

    The record the content store hands to the builder; the builder only
    reads it. *)

Module Document.

Record FileInfo : Type := {
  folder : string;
  root : string;
  path : string
}.

Record Metadata : Type := {
  slug : string;
  title : string;
  locale : string;
  popularity : option spec_float;
  modified : option string;
  translation_of : option string;
  hash : string
}.

Record t : Type := {
  url : string;
  metadata : Metadata;
  fileInfo : FileInfo;
  rawHTML : string;
  isArchive : bool;
  isTranslated : bool;
  isActive : bool;
  translations : option (list value)
}.

End Document.

(** ** Effects: exceptions, the console, module state, the outside world *)

Inductive stream : Type := console_error | console_warn.

Record World (Ext : Type) : Type := {
  console : list (stream * value);
  rootToGitBranchMap : gmap string string;
  ext : Ext
}.
Arguments console {Ext} _.
Arguments rootToGitBranchMap {Ext} _.
Arguments ext {Ext} _.
Arguments Build_World {Ext} _ _ _.

Inductive result (A : Type) : Type :=
| Ok (a : A)
| Throw (e : value).
Arguments Ok {A} a.
Arguments Throw {A} e.

(** A computation takes the world and gives back the world it leaves and
    either a result or the value it throws. *)
Definition M (Ext A : Type) : Type := World Ext -> World Ext * result A.

Definition ret {Ext A} (a : A) : M Ext A := fun w => (w, Ok a).

Definition throw {Ext A} (e : value) : M Ext A := fun w => (w, Throw e).

Definition bind {Ext A B} (m : M Ext A) (k : A -> M Ext B) : M Ext B :=
  fun w =>
    match m w with
    | (w', Ok a) => k a w'
    | (w', Throw e) => (w', Throw e)
    end.

(** [try { m } catch (error) { handler(error) }] *)
Definition try_catch {Ext A} (m : M Ext A) (handler : value -> M Ext A) : M Ext A :=
  fun w =>
    match m w with
    | (w', Ok a) => (w', Ok a)
    | (w', Throw e) => handler e w'
    end.

(** A property read that may throw. *)
Definition liftR {Ext A} (r : value + A) : M Ext A :=
  match r with
  | inl e => throw e
  | inr a => ret a
  end.

Definition log {Ext} (s : stream) (v : value) : M Ext unit :=
  fun w => (Build_World (console w ++ [(s, v)]) (rootToGitBranchMap w) (ext w), Ok tt).

Declare Scope js_scope.
Delimit Scope js_scope with js.
Notation "'let!' x ':=' m 'in' k" := (bind m (fun x => k))
  (at level 10, x pattern, m at level 100, k at level 200,
   format "'[v' 'let!'  x  ':='  m  'in' '/' k ']'") : js_scope.
Notation "'run!' m 'in' k" := (bind m (fun _ => k))
  (at level 10, m at level 100, k at level 200,
   format "'[v' 'run!'  m  'in' '/' k ']'") : js_scope.
Local Open Scope js_scope.

(** ** Constants of the build

    Modelled from the spec: the flaw levels of [./constants], which the
    specification names "error", "warn" and "ignore". *)
Module FLAW_LEVELS.
Definition ERROR : string := "error".
Definition WARN : string := "warn".
Definition IGNORE : string := "ignore".
End FLAW_LEVELS.

Definition DEFAULT_BRANCH_NAME : string := "main".

(** [ToString] of a value inside a template literal; [toString] stands for
    what the engine prints for numbers and for the [toString] method of
    objects. *)
Definition ToString (toString : value -> string) (v : value) : string :=
  match v with
  | VString s => s
  | VUndefined => "undefined"
  | VNull => "null"
  | VBool true => "true"
  | VBool false => "false"
  | _ => toString v
  end.

(** [map.get(k)] on a [Map] (held as an object); anything that is not a map
    has no [get] to call. *)
Definition mapGet (v : value) (k : string) : value + value :=
  match v with
  | VObject props => inr (default VUndefined (props !! k))
  | _ => inl (mkTypeError "get is not a function")
  end.

Definition newline : string := String "010" EmptyString.

(** ** Slug validation *)

(** [validateSlug(slug)] *)
Definition validateSlug {Ext} (slug : string) : M Ext unit :=
  if JSString.is_empty slug then throw (mkError "slug is empty")
  else if JSString.startsWith slug "/"
  then throw (mkError ("Slug '" +:+ slug +:+ "' starts with a /"))
  else if JSString.endsWith slug "/"
  then throw (mkError ("Slug '" +:+ slug +:+ "' ends with a /"))
  else if JSString.includes slug "//"
  then throw (mkError ("Slug '" +:+ slug +:+ "' contains a double /"))
  else ret tt.

(** ** Table of contents *)

(** The callback of [makeTOC] on one section; [null] is [VNull]. *)
Definition tocEntry (section : value) : value + value :=
  andThen (getProp section "type") (fun type =>
  if negb (isString type "prose" || isString type "browser_compatibility")
  then inr VNull else
  andThen (getProp section "value") (fun value =>
  andThen (getProp value "id") (fun id =>
  if negb (truthy id) then inr VNull else
  andThen (getProp value "title") (fun title =>
  if negb (truthy title) then inr VNull else
  andThen (getProp value "isH3") (fun isH3 =>
  if truthy isH3 then inr VNull
  else inr (VObject (<["text" := title]> (<["id" := id]> ∅)))))))).

(** [array.map(f)] for a callback that may throw. *)
Fixpoint mapR {A B} (f : A -> value + B) (l : list A) : value + list B :=
  match l with
  | [] => inr []
  | a :: l' =>
      match f a with
      | inl e => inl e
      | inr b =>
          match mapR f l' with
          | inl e => inl e
          | inr bs => inr (b :: bs)
          end
      end
  end.

(** [makeTOC(doc)]: [doc.body.map(...).filter(Boolean)] *)
Definition makeTOC (doc : object) : value + value :=
  match default VUndefined (doc !! "body") with
  | VArray sections =>
      match mapR tocEntry sections with
      | inl e => inl e
      | inr entries => inr (VArray (filter (fun v => truthy v = true) entries))
      end
  | _ => inl (mkTypeError "doc.body.map is not a function")
  end.

(** ** Live samples *)

(** What [kumascript.getLiveSampleIDs] yields: the declared id (in the case
    the author wrote it) and whatever else the macro engine keeps with it. *)
Module SampleIdObject.
Record t : Type := {
  id : string;
  info : value
}.
End SampleIdObject.

(** What [kumascript.buildLiveSamplePage] returns: the page, or a flaw. *)
Module LiveSamplePage.
Record t : Type := {
  html : string;
  flaw : option value
}.
End LiveSamplePage.

(** An entry of the [liveSamples] array of the build result. *)
Module LiveSample.
Record t : Type := {
  id : string;
  html : string
}.
End LiveSample.

(** The result of [buildDocument]. *)
Record BuildResult : Type := {
  doc : object;
  liveSamples : list LiveSample.t;
  fileAttachments : value;
  bcdData : value
}.

(** ** The modules the builder requires

    The builder is written against the modules it imports; each is an
    interface here, and the builder is defined and verified for every
    implementation of them.  [Ext] is the state of the outside world: files,
    caches, the environment. *)

(** [../content], [../content/languages.json] and [process.env.GITHUB_REF]. *)
Class Content (Ext : Type) : Type := {
  CONTENT_ROOT : string;
  REPOSITORY_URLS : gmap string string;
  execGit : list string -> string -> M Ext string;
  urlToFolderPath : string -> string;
  findByURL : string -> M Ext (option Document.t);
  LANGUAGES_RAW : list (string * value);
  GITHUB_REF : Ext -> option string
}.

(** [../kumascript]: [render] may throw; the live-sample functions report
    through their results.  [updateFileInfo] is the method of the errors of
    the macro engine (it stamps the receiver and returns it), [toString] is
    what a template literal prints for an object or a number. *)
Class Kumascript (Ext : Type) : Type := {
  render : string -> M Ext (string * list value);
  renderCache_reset : M Ext unit;
  getLiveSampleIDs : string -> string -> list SampleIdObject.t;
  buildLiveSamplePage :
    string -> string -> string -> SampleIdObject.t -> LiveSamplePage.t;
  updateFileInfo : value -> Document.FileInfo -> value;
  toString : value -> string
}.

(** [chalk]: the three styles the builder prints with. *)
Class Chalk : Type := {
  chalk_red_bold : string -> string;
  chalk_bold_red : string -> string;
  chalk_red : string -> string
}.

(** [cheerio.load] *)
Class Cheerio : Type := {
  cheerio_load : string -> tree
}.

(** [./build-options] *)
Class BuildOptions : Type := {
  buildOptions : object
}.

(** The other modules of the build; each function may throw, and each may
    change the [doc] and the tree it is given. *)
Class BuildModules (Ext : Type) : Type := {
  extractSidebar : tree -> M Ext (value * tree);
  checkImageReferences :
    object -> tree -> object -> Document.t -> M Ext (value * object * tree);
  checkImageWidths :
    object -> tree -> object -> Document.t -> M Ext (object * tree);
  injectFlaws :
    object -> tree -> object -> Document.t -> M Ext (object * tree);
  fixFixableFlaws : object -> object -> Document.t -> M Ext object;
  syntaxHighlight : tree -> object -> M Ext (tree * object);
  extractSections : tree -> M Ext (value * list value * tree);
  injectSectionFlaws : object -> list value -> object -> M Ext object;
  extractSummary : value -> M Ext value;
  normalizeBCDURLs : object -> object -> M Ext object;
  extractBCDData : object -> M Ext (value * object);
  addBreadcrumbData : string -> object -> M Ext object;
  getPageTitle : object -> M Ext (value * object)
}.

(** Build modules that leave one field of the [doc] they are given as it
    is: what it takes for a field that [buildDocument] sets early to reach
    the document it returns. *)
Class KeepsField {Ext : Type} `{!BuildModules Ext} (key : string) : Prop := {
  checkImageReferences_keeps doc t options document w w' v doc' t' :
    checkImageReferences doc t options document w = (w', Ok (v, doc', t')) ->
    doc' !! key = doc !! key;
  checkImageWidths_keeps doc t options document w w' doc' t' :
    checkImageWidths doc t options document w = (w', Ok (doc', t')) ->
    doc' !! key = doc !! key;
  injectFlaws_keeps doc t options document w w' doc' t' :
    injectFlaws doc t options document w = (w', Ok (doc', t')) ->
    doc' !! key = doc !! key;
  fixFixableFlaws_keeps doc options document w w' doc' :
    fixFixableFlaws doc options document w = (w', Ok doc') ->
    doc' !! key = doc !! key;
  syntaxHighlight_keeps t doc w w' t' doc' :
    syntaxHighlight t doc w = (w', Ok (t', doc')) ->
    doc' !! key = doc !! key;
  injectSectionFlaws_keeps doc sectionFlaws options w w' doc' :
    injectSectionFlaws doc sectionFlaws options w = (w', Ok doc') ->
    doc' !! key = doc !! key;
  normalizeBCDURLs_keeps doc options w w' doc' :
    normalizeBCDURLs doc options w = (w', Ok doc') ->
    doc' !! key = doc !! key;
  extractBCDData_keeps doc w w' bcd doc' :
    extractBCDData doc w = (w', Ok (bcd, doc')) ->
    doc' !! key = doc !! key;
  addBreadcrumbData_keeps url doc w w' doc' :
    addBreadcrumbData url doc w = (w', Ok doc') ->
    doc' !! key = doc !! key;
  getPageTitle_keeps doc w w' title doc' :
    getPageTitle doc w = (w', Ok (title, doc')) ->
    doc' !! key = doc !! key
}.

(** [doc.flaws.macros] *)
Definition getFlawsMacros (doc : object) : option value :=
  match doc !! "flaws" with
  | Some (VObject flaws) => flaws !! "macros"
  | _ => None
  end.

(** Build modules that leave [doc.flaws.macros] as it is; they may well add
    flaws of their own kinds to [doc.flaws].  It is what it takes for the
    macro flaws that the policy stores to reach the document that
    [buildDocument] returns. *)
Class KeepsFlawsMacros {Ext : Type} `{!BuildModules Ext} : Prop := {
  checkImageReferences_keeps_macros doc t options document w w' v doc' t' :
    checkImageReferences doc t options document w = (w', Ok (v, doc', t')) ->
    getFlawsMacros doc' = getFlawsMacros doc;
  checkImageWidths_keeps_macros doc t options document w w' doc' t' :
    checkImageWidths doc t options document w = (w', Ok (doc', t')) ->
    getFlawsMacros doc' = getFlawsMacros doc;
  injectFlaws_keeps_macros doc t options document w w' doc' t' :
    injectFlaws doc t options document w = (w', Ok (doc', t')) ->
    getFlawsMacros doc' = getFlawsMacros doc;
  fixFixableFlaws_keeps_macros doc options document w w' doc' :
    fixFixableFlaws doc options document w = (w', Ok doc') ->
    getFlawsMacros doc' = getFlawsMacros doc;
  syntaxHighlight_keeps_macros t doc w w' t' doc' :
    syntaxHighlight t doc w = (w', Ok (t', doc')) ->
    getFlawsMacros doc' = getFlawsMacros doc;
  injectSectionFlaws_keeps_macros doc sectionFlaws options w w' doc' :
    injectSectionFlaws doc sectionFlaws options w = (w', Ok doc') ->
    getFlawsMacros doc' = getFlawsMacros doc;
  normalizeBCDURLs_keeps_macros doc options w w' doc' :
    normalizeBCDURLs doc options w = (w', Ok doc') ->
    getFlawsMacros doc' = getFlawsMacros doc;
  extractBCDData_keeps_macros doc w w' bcd doc' :
    extractBCDData doc w = (w', Ok (bcd, doc')) ->
    getFlawsMacros doc' = getFlawsMacros doc;
  addBreadcrumbData_keeps_macros url doc w w' doc' :
    addBreadcrumbData url doc w = (w', Ok doc') ->
    getFlawsMacros doc' = getFlawsMacros doc;
  getPageTitle_keeps_macros doc w w' title doc' :
    getPageTitle doc w = (w', Ok (title, doc')) ->
    getFlawsMacros doc' = getFlawsMacros doc
}.

(** ** The builder *)

Section Builder.

Context {Ext : Type}.
Context `{!Content Ext, !Kumascript Ext, !Chalk, !Cheerio, !BuildOptions,
          !BuildModules Ext}.

(** The [LANGUAGES] map: the entries of [languages.json] under their
    lower-cased locale; a later entry replaces an earlier one. *)
Definition LANGUAGES : gmap string value :=
  foldl (fun m entry => <[JSString.toLowerCase (fst entry) := snd entry]> m)
    ∅ LANGUAGES_RAW.

(** [LANGUAGES.get(locale).native] *)
Definition nativeName (locale : string) : M Ext value :=
  liftR (getProp (default VUndefined (LANGUAGES !! locale)) "native").

(** [getCurrentGitBranch(root)] *)
Definition getCurrentGitBranch (root : string) : M Ext string :=
  fun w =>
    match rootToGitBranchMap w !! root with
    | Some name => (w, Ok name)
    | None =>
        let '(w1, name) :=
          if String.eqb root CONTENT_ROOT then
            match GITHUB_REF (ext w) with
            | Some (String c ref) =>
                (w, JSString.join (drop 2 (JSString.split (String c ref) "/")) "/")
            | _ =>
                match execGit ["branch"; "--show-current"] root w with
                | (w', Ok output) =>
                    (w', if JSString.is_empty output then DEFAULT_BRANCH_NAME else output)
                | (w', Throw _) => (w', DEFAULT_BRANCH_NAME)
                end
            end
          else (w, DEFAULT_BRANCH_NAME) in
        (Build_World (console w1) (<[root := name]> (rootToGitBranchMap w1)) (ext w1),
         Ok name)
    end.

(** [`${REPOSITORY_URLS[root]}`] *)
Definition repositoryURL (root : string) : string :=
  default "undefined" (REPOSITORY_URLS !! root).

(** [getGitHubURL(root, folder)] *)
Definition getGitHubURL (root folder : string) : M Ext string :=
  let baseURL := "https://github.com/" +:+ repositoryURL root in
  let! branch := getCurrentGitBranch root in
  ret (baseURL +:+ "/blob/" +:+ branch +:+ "/files/" +:+ folder +:+ "/index.html").

(** [getLastCommitURL(root, hash)] *)
Definition getLastCommitURL (root hash : string) : string :=
  "https://github.com/" +:+ repositoryURL root +:+ "/commit/" +:+ hash.

(** [injectSource(doc, document, metadata)] *)
Definition injectSource (doc : object) (document : Document.t)
    (metadata : Document.Metadata) : M Ext object :=
  let folder := Document.folder (Document.fileInfo document) in
  let root := Document.root (Document.fileInfo document) in
  let! github_url := getGitHubURL root folder in
  ret (<["source" :=
          VObject (<["folder" := VString folder]>
                  (<["github_url" := VString github_url]>
                  (<["last_commit_url" :=
                       VString (getLastCommitURL root (Document.hash metadata))]> ∅)))]>
         doc).

(** *** Rendering, live samples and the macro-flaw policy *)

(** The [catch] clause around [kumascript.render]. *)
Definition renderFailed {A} (document : Document.t) (error : value) : M Ext A :=
  let! name := liftR (getProp error "name") in
  if isString name "MacroInvocationError" then
    let error := updateFileInfo error (Document.fileInfo document) in
    let! filepath := liftR (getProp error "filepath") in
    let! line := liftR (getProp error "line") in
    let! column := liftR (getProp error "column") in
    let! inner := liftR (getProp error "error") in
    let! message := liftR (getProp inner "message") in
    throw (mkError ("MacroInvocationError trying to parse "
                    +:+ ToString toString filepath
                    +:+ ", line " +:+ ToString toString line
                    +:+ " column " +:+ ToString toString column
                    +:+ " (" +:+ ToString toString message +:+ ")"))
  else throw error.

(** The body of the loop over the declared samples: [flaws] and
    [liveSamples] are the two arrays it pushes to. *)
Definition collectLiveSample (document : Document.t) (renderedHtml : string)
    (acc : list value * list LiveSample.t) (sampleIdObject : SampleIdObject.t)
    : list value * list LiveSample.t :=
  let '(flaws, liveSamples) := acc in
  let liveSamplePage :=
    buildLiveSamplePage (Document.url document)
      (Document.title (Document.metadata document)) renderedHtml sampleIdObject in
  match LiveSamplePage.flaw liveSamplePage with
  | Some f =>
      (flaws ++ [updateFileInfo f (Document.fileInfo document)], liveSamples)
  | None =>
      (flaws,
       liveSamples ++
       [{| LiveSample.id := JSString.toLowerCase (SampleIdObject.id sampleIdObject);
           LiveSample.html := LiveSamplePage.html liveSamplePage |}])
  end.

Definition collectLiveSamples (document : Document.t) (renderedHtml : string)
    (flaws : list value) : list value * list LiveSample.t :=
  foldl (collectLiveSample document renderedHtml) (flaws, [])
    (getLiveSampleIDs (Document.slug (Document.metadata document))
       (Document.rawHTML document)).

(** The loop as the specification tells it, to compare [collectLiveSamples]
    with: a sample that builds gives a live sample, one that does not gives
    a flaw stamped with the file of the document. *)
Definition builtSample (document : Document.t) (renderedHtml : string)
    (sampleIdObject : SampleIdObject.t) : option LiveSample.t :=
  let liveSamplePage :=
    buildLiveSamplePage (Document.url document)
      (Document.title (Document.metadata document)) renderedHtml sampleIdObject in
  match LiveSamplePage.flaw liveSamplePage with
  | Some _ => None
  | None =>
      Some {| LiveSample.id := JSString.toLowerCase (SampleIdObject.id sampleIdObject);
              LiveSample.html := LiveSamplePage.html liveSamplePage |}
  end.

Definition sampleFlaw (document : Document.t) (renderedHtml : string)
    (sampleIdObject : SampleIdObject.t) : option value :=
  let liveSamplePage :=
    buildLiveSamplePage (Document.url document)
      (Document.title (Document.metadata document)) renderedHtml sampleIdObject in
  match LiveSamplePage.flaw liveSamplePage with
  | Some f => Some (updateFileInfo f (Document.fileInfo document))
  | None => None
  end.

(** The two console lines the "error" policy prints for the flaw at index
    [i], to compare [reportFlaw] with. *)
Definition flawLines (i : nat) (flaw : value) : list (stream * value) :=
  let name :=
    match flaw with
    | VObject props => default VUndefined (props !! "name")
    | _ => VUndefined
    end in
  [(console_error,
    VString (chalk_bold_red (pretty (i + 1) +:+ ": " +:+ ToString toString name)));
   (console_error, VString (chalk_red (ToString toString flaw +:+ newline)))].

(** [options.flawLevels.get("macros")] *)
Definition macrosLevel (options : object) : value + value :=
  mapGet (default VUndefined (options !! "flawLevels")) "macros".

(** The callback of [flaws.forEach] under the "error" policy. *)
Definition reportFlaw (i : nat) (flaw : value) : M Ext unit :=
  let! name := liftR (getProp flaw "name") in
  run! log console_error
         (VString (chalk_bold_red (pretty (i + 1) +:+ ": " +:+ ToString toString name))) in
  log console_error (VString (chalk_red (ToString toString flaw +:+ newline))).

(** [flaws.forEach((flaw, i) => ...)], from index [i] on. *)
Fixpoint reportFlaws (i : nat) (flaws : list value) : M Ext unit :=
  match flaws with
  | [] => ret tt
  | flaw :: rest => run! reportFlaw i flaw in reportFlaws (S i) rest
  end.

(** The callback of [flaws.map] under the "warn" policy: the flaw with the
    attributes the front end needs.  [Object.assign] copies the properties
    of the flaw over the four computed ones. *)
Definition beefUp (document : Document.t) (i : nat) (flaw : value) : value + value :=
  andThen (getProp flaw "name") (fun name =>
  andThen
    (if isString name "MacroDeprecatedError" then inr (true, VString "")
     else if isString name "MacroRedirectedLinkError" then
       andThen (getProp flaw "filepath") (fun filepath =>
       if negb (truthy filepath)
          || isString filepath (Document.path (Document.fileInfo document))
       then
         andThen (getProp flaw "macroSource") (fun macroSource =>
         andThen (getProp macroSource "replace") (fun _ =>
         andThen (getProp flaw "redirectInfo") (fun redirectInfo =>
         andThen (getProp redirectInfo "current") (fun current =>
         andThen (getProp redirectInfo "suggested") (fun suggested =>
         match macroSource with
         | VString source =>
             inr (true,
                  VString (JSString.replace source (ToString toString current)
                             (ToString toString suggested)))
         | _ => inl (mkTypeError "flaw.macroSource.replace is not a function")
         end)))))
       else inr (false, VNull))
     else inr (false, VNull))
    (fun computed =>
  andThen (getProp flaw "error") (fun inner =>
  andThen (getProp inner "message") (fun explanation =>
  match flaw with
  | VObject props =>
      inr (VObject
             (props ∪
              <["id" := VString ("macro" +:+ pretty i)]>
              (<["fixable" := VBool (fst computed)]>
              (<["suggestion" := snd computed]>
              (<["explanation" := explanation]> ∅)))))
  | _ =>
      (* not reached: for anything but an object [flaw.error] is
         [undefined] and the read of [message] has thrown *)
      inl (mkTypeError "Cannot read properties of undefined (reading 'message')")
  end)))).

(** [flaws.map((flaw, i) => ...)], from index [i] on. *)
Fixpoint beefUpAll (document : Document.t) (i : nat) (flaws : list value)
    : value + list value :=
  match flaws with
  | [] => inr []
  | flaw :: rest =>
      match beefUp document i flaw with
      | inl e => inl e
      | inr b =>
          match beefUpAll document (S i) rest with
          | inl e => inl e
          | inr bs => inr (b :: bs)
          end
      end
  end.

(** [doc.flaws.macros = macros] *)
Definition setFlawsMacros (doc : object) (macros : list value) : value + object :=
  match default VUndefined (doc !! "flaws") with
  | VObject props =>
      inr (<["flaws" := VObject (<["macros" := VArray macros]> props)]> doc)
  | VUndefined | VNull =>
      inl (mkTypeError "Cannot set properties of undefined (setting 'macros')")
  | _ => inr doc
  end.

(** [if (flaws.length) { ... }] *)
Definition applyMacroFlawPolicy (options : object) (document : Document.t)
    (doc : object) (flaws : list value) : M Ext object :=
  match flaws with
  | [] => ret doc
  | _ :: _ =>
      let! level := liftR (macrosLevel options) in
      if isString level FLAW_LEVELS.ERROR then
        run! log console_error
               (VString (chalk_red_bold
                  ("Flaws (" +:+ pretty (length flaws) +:+ ") within "
                   +:+ Document.slug (Document.metadata document)
                   +:+ " while rendering macros:"))) in
        run! reportFlaws 0 flaws in
        throw (mkError "Flaw error encountered")
      else if isString level FLAW_LEVELS.WARN then
        let! macros := liftR (beefUpAll document 0 flaws) in
        liftR (setFlawsMacros doc macros)
      else ret doc
  end.

(** *** [buildDocument] *)

(** [a && b] and [a || b] give back one of their operands. *)
Definition js_and (a b : value) : value := if truthy a then b else a.
Definition js_or (a b : value) : value := if truthy a then a else b.

Definition dquote : string := String "034" EmptyString.

(** The [doc] object as [buildDocument] first makes it. *)
Definition newDoc (document : Document.t) : object :=
  <["flaws" := VObject ∅]>
    (<["isActive" := VBool (Document.isActive document)]>
    (<["isTranslated" := VBool (Document.isTranslated document)]>
    (<["isArchive" := VBool (Document.isArchive document)]> ∅))).

(** [Object.assign({}, buildOptions, documentOptions)]: the options of
    the call come last and win. *)
Definition mergeOptions (documentOptions : object) : object :=
  documentOptions ∪ buildOptions.

(** The [if (doc.isArchive) ... else ...] block: the rendered HTML, the
    live samples and the [doc] with the macro flaws the policy keeps. *)
Definition renderDocument (options : object) (document : Document.t)
    (doc : object) : M Ext (string * list LiveSample.t * object) :=
  if truthy (default VUndefined (doc !! "isArchive")) then
    ret (Document.rawHTML document, [], doc)
  else
    run! (if truthy (default VUndefined (options !! "clearKumascriptRenderCache"))
          then renderCache_reset else ret tt) in
    let! rendered :=
      try_catch (render (Document.url document)) (renderFailed document) in
    let '(flaws, liveSamples) :=
      collectLiveSamples document (fst rendered) (snd rendered) in
    let! doc := applyMacroFlawPolicy options document doc flaws in
    ret (fst rendered, liveSamples, doc).

(** Everything [buildDocument] does before it loads the tree: the folder
    check, rendering with the flaw policy, and the slug validation. *)
Definition beforeTree (document : Document.t) (documentOptions : object)
    : M Ext (object * string * list LiveSample.t * object) :=
  let options := mergeOptions documentOptions in
  let metadata := Document.metadata document in
  if negb (String.eqb (urlToFolderPath (Document.url document))
             (Document.folder (Document.fileInfo document)))
  then
    throw (mkError ("The document's slug (" +:+ Document.slug metadata
                    +:+ ") doesn't match its disk folder name ("
                    +:+ Document.folder (Document.fileInfo document) +:+ ")"))
  else
    let! rendered := renderDocument options document (newDoc document) in
    let '(renderedHtml, liveSamples, doc) := rendered in
    run! validateSlug (Document.slug metadata) in
    ret (options, renderedHtml, liveSamples, doc).

(** [$("[data-flaw-src]").removeAttr("data-flaw-src")] *)
Definition removeFlawMarkers (t : tree) : tree :=
  update_matching [[sel_attr "data-flaw-src"]]
    (fun attribs => delete "data-flaw-src" attribs) t.

(** Loading the tree: [cheerio.load], the removal of the flaw markers when
    macro flaws are ignored, and the removal of the "view all" links. *)
Definition loadTree (options : object) (renderedHtml : string) : M Ext tree :=
  let t :=
    cheerio_load ("<div id=" +:+ dquote +:+ "_body" +:+ dquote +:+ ">"
                  +:+ renderedHtml +:+ "</div>") in
  let! level := liftR (macrosLevel options) in
  let t := if isString level FLAW_LEVELS.IGNORE then removeFlawMarkers t else t in
  ret (remove_matching [[sel_tag "span"; sel_class "alllinks"]] t).

(** The callback of [$("a[href]").each(...)]. *)
Definition hideSiteCompatLink (attribs : gmap string string) : gmap string string :=
  let href := attr_or_empty "href" attribs in
  if JSString.startsWith href "http" && JSString.includes href "fxsitecompat.com"
  then <["href" := "https://github.com/mdn/kuma/issues/7647"]> attribs
  else attribs.

Definition hideSiteCompatLinks (t : tree) : tree :=
  update_matching [[sel_tag "a"; sel_attr "href"]] hideSiteCompatLink t.

(** The five post-processors, in the order [buildDocument] runs them. *)
Definition postProcess (t : tree) : tree :=
  injectNotecardOnWarnings
    (injectInPageCallout
       (postProcessExternalLinks
          (injectLoadingLazyAttributes (injectNoTranslate t)))).

(** [document.translations || []], completed from [translation_of]. *)
Definition otherTranslationsOf (document : Document.t) : M Ext (list value) :=
  let metadata := Document.metadata document in
  let otherTranslations := default [] (Document.translations document) in
  match otherTranslations, Document.translation_of metadata with
  | [], Some (String c rest) =>
      let! translationOf := findByURL ("/en-US/docs/" +:+ String c rest) in
      match translationOf with
      | Some source =>
          let! native := nativeName "en-us" in
          ret (otherTranslations ++
               [VObject (<["locale" := VString "en-US"]>
                        (<["title" := VString (Document.title (Document.metadata source))]>
                        (<["native" := native]> ∅)))])
      | None => ret otherTranslations
      end
  | _, _ => ret otherTranslations
  end.

(** The indexing decision. *)
Definition noIndexing (doc : object) (slug : string) : value :=
  js_or (js_or (js_or
    (js_and (default VUndefined (doc !! "isArchive"))
            (VBool (negb (truthy (default VUndefined (doc !! "isTranslated"))))))
    (VBool (String.eqb slug "MDN/Kitchensink")))
    (VBool (JSString.startsWith slug "orphaned/")))
    (VBool (JSString.startsWith slug "conflicting/")).

(** From loading the tree to the post-processors: what happens to [$]
    before the sections are taken out of it. *)
Definition prepareTree (options : object) (document : Document.t)
    (doc : object) (renderedHtml : string) : M Ext (object * tree * value) :=
  let metadata := Document.metadata document in
  let! t := loadTree options renderedHtml in
  let doc := <["title" := VString (Document.title metadata)]> doc in
  let doc := <["mdn_url" := VString (Document.url document)]> doc in
  let doc := <["locale" := VString (Document.locale metadata)]> doc in
  let! native := nativeName (JSString.toLowerCase (Document.locale metadata)) in
  let doc := <["native" := native]> doc in
  let! sidebar := extractSidebar t in
  let '(sidebarHTML, t) := sidebar in
  let doc := <["sidebarHTML" := sidebarHTML]> doc in
  let! checked := checkImageReferences doc t options document in
  let '(fileAttachments, doc, t) := checked in
  let! checked := checkImageWidths doc t options document in
  let '(doc, t) := checked in
  let! injected :=
    try_catch (injectFlaws doc t options document)
      (fun error =>
         run! log console_warn
                (VString ("Injecting flaws into "
                          +:+ Document.path (Document.fileInfo document)
                          +:+ " (" +:+ Document.url document +:+ ") failed.")) in
         throw error) in
  let '(doc, t) := injected in
  let t := hideSiteCompatLinks t in
  let! doc :=
    try_catch (fixFixableFlaws doc options document)
      (fun error => run! log console_error error in throw error) in
  let t := remove_matching [[sel_tag "div"; sel_class "hidden"]] t in
  let! highlighted := syntaxHighlight t doc in
  let '(t, doc) := highlighted in
  ret (doc, postProcess t, fileAttachments).

(** From the sections to the page title: the fields derived from the
    prepared tree and from the metadata. *)
Definition describe (options : object) (document : Document.t)
    (doc : object) (t : tree) : M Ext (object * value) :=
  let metadata := Document.metadata document in
  let! extracted := extractSections t in
  let '(sections, sectionFlaws, _) := extracted in
  let doc := <["body" := sections]> doc in
  let! doc :=
    match sectionFlaws with
    | [] => ret doc
    | _ :: _ => injectSectionFlaws doc sectionFlaws options
    end in
  let! toc := liftR (makeTOC doc) in
  let doc := <["toc" := toc]> doc in
  let! summary := extractSummary (default VUndefined (doc !! "body")) in
  let doc := <["summary" := summary]> doc in
  let! doc := normalizeBCDURLs doc options in
  let! extracted := extractBCDData doc in
  let '(bcdData, doc) := extracted in
  let doc :=
    <["popularity" := VNumber (storedPopularity (Document.popularity metadata))]> doc in
  let doc :=
    <["modified" :=
        match Document.modified metadata with
        | Some (String c rest) => VString (String c rest)
        | _ => VNull
        end]> doc in
  let! otherTranslations := otherTranslationsOf document in
  let doc :=
    match otherTranslations with
    | [] => doc
    | _ :: _ => <["other_translations" := VArray otherTranslations]> doc
    end in
  let! doc := injectSource doc document metadata in
  let! doc := addBreadcrumbData (Document.url document) doc in
  let! titled := getPageTitle doc in
  let '(pageTitle, doc) := titled in
  ret (<["pageTitle" := pageTitle]> doc, bcdData).

(** [buildDocument(document, documentOptions)] *)
Definition buildDocument (document : Document.t) (documentOptions : object)
    : M Ext BuildResult :=
  let! before := beforeTree document documentOptions in
  let '(options, renderedHtml, liveSamples, doc) := before in
  let! prepared := prepareTree options document doc renderedHtml in
  let '(doc, t, fileAttachments) := prepared in
  let! described := describe options document doc t in
  let '(doc, bcdData) := described in
  let slug := Document.slug (Document.metadata document) in
  ret {| doc := <["noIndexing" := noIndexing doc slug]> doc;
         liveSamples := liveSamples;
         fileAttachments := fileAttachments;
         bcdData := bcdData |}.

(** *** [buildLiveSamplePageFromURL] *)

(** The loop over the declared samples: the first one whose lower-cased id
    is the requested id is built and returned. *)
Fixpoint findLiveSample (document : Document.t) (documentURL : string)
    (sampleID : option string) (samples : list SampleIdObject.t) : M Ext string :=
  match samples with
  | [] =>
      throw (mkError ("No live-sample " +:+ dquote
                      +:+ default "undefined" sampleID +:+ dquote
                      +:+ " found within " +:+ documentURL))
  | sampleIDObject :: rest =>
      if bool_decide (Some (JSString.toLowerCase (SampleIdObject.id sampleIDObject)) = sampleID) then
        let! rendered := render (Document.url document) in
        let liveSamplePage :=
          buildLiveSamplePage (Document.url document)
            (Document.title (Document.metadata document)) (fst rendered)
            sampleIDObject in
        match LiveSamplePage.flaw liveSamplePage with
        | Some f => throw (mkError (toString f))
        | None => ret (LiveSamplePage.html liveSamplePage)
        end
      else findLiveSample document documentURL sampleID rest
  end.

(** [buildLiveSamplePageFromURL(url)] *)
Definition buildLiveSamplePageFromURL (url : string) : M Ext string :=
  let pieces := JSString.split url "/_samples_/" in
  let documentURL := default EmptyString (pieces !! 0) in
  let sampleID := pieces !! 1 in
  let! found := findByURL documentURL in
  match found with
  | None => throw (mkError ("No document found for " +:+ documentURL))
  | Some document =>
      findLiveSample document documentURL sampleID
        (getLiveSampleIDs (Document.slug (Document.metadata document))
           (Document.rawHTML document))
  end.

End Builder.

(** [renderContributorsTxt(wikiContributorNames, githubURL)] *)
Definition renderContributorsTxt (wikiContributorNames : option (list string))
    (githubURL : option string) : string :=
  let txt :=
    match githubURL with
    | Some (String c rest) =>
        "# Contributors by commit history" +:+ newline +:+ String c rest
        +:+ newline +:+ newline
    | _ => EmptyString
    end in
  match wikiContributorNames with
  | Some names =>
      txt +:+ "# Original Wiki contributors" +:+ newline
      +:+ JSString.join names newline +:+ newline
  | None => txt
  end.

(** ** A small content tree

    One implementation of the required modules, small enough to run the
    builder on: a content root with one page, a macro engine that reports
    one deprecated macro and knows two live samples (the second refers to a
    code block that is not there), and build modules that leave the tree
    alone. *)

Module Sample.

Definition attrs (l : list (string * string)) : gmap string string :=
  list_to_map l.

Definition obj (l : list (string * value)) : object := list_to_map l.

Definition fileInfo : Document.FileInfo :=
  {| Document.folder := "en-us/web/css";
     Document.root := "/content/files";
     Document.path := "/content/files/en-us/web/css/index.html" |}.

Definition metadata (slug : string) : Document.Metadata :=
  {| Document.slug := slug;
     Document.title := "CSS";
     Document.locale := "en-US";
     Document.popularity := Some (ofDecimal false 123456789 9);
     Document.modified := Some "2021-01-01T00:00:00.000Z";
     Document.translation_of := None;
     Document.hash := "abc123" |}.

(** The page, under a given slug and with given flags. *)
Definition page (slug : string) (isArchive isTranslated : bool) : Document.t :=
  {| Document.url := "/en-US/Web/CSS";
     Document.metadata := metadata slug;
     Document.fileInfo := fileInfo;
     Document.rawHTML := "<p>{{Deprecated}}{{EmbedLiveSample('Good_Sample')}}</p>";
     Document.isArchive := isArchive;
     Document.isTranslated := isTranslated;
     Document.isActive := true;
     Document.translations := None |}.

Definition document : Document.t := page "Web/CSS" false false.

#[export] Instance content : Content unit :=
  {| CONTENT_ROOT := "/content/files";
     REPOSITORY_URLS := {[ "/content/files" := "mdn/content" ]};
     execGit := fun _ _ => ret "main";
     urlToFolderPath := fun url => JSString.toLowerCase (JSString.drop 1 url);
     findByURL := fun url =>
       ret (if String.eqb url "/en-US/Web/CSS" then Some document else None);
     LANGUAGES_RAW :=
       [("en-US", VObject (obj [("English", VString "English (US)");
                                ("native", VString "English (US)")]))];
     GITHUB_REF := fun _ => None |}.

Definition deprecated : value :=
  VObject (obj [("name", VString "MacroDeprecatedError");
                ("error", VObject (obj [("message", VString "deprecated")]));
                ("macroSource", VString "{{Deprecated}}")]).

Definition brokenSample : value :=
  VObject (obj [("name", VString "MacroLiveSampleError");
                ("error", VObject (obj [("message", VString "no such code block")]));
                ("macroSource", VString "{{EmbedLiveSample('Broken')}}")]).

Definition goodId : SampleIdObject.t :=
  {| SampleIdObject.id := "Good_Sample"; SampleIdObject.info := VNull |}.

Definition brokenId : SampleIdObject.t :=
  {| SampleIdObject.id := "Broken"; SampleIdObject.info := VNull |}.

Definition lateId : SampleIdObject.t :=
  {| SampleIdObject.id := "Late"; SampleIdObject.info := VNull |}.

#[export] Instance kumascript : Kumascript unit :=
  {| render := fun _ =>
       ret ("<p data-flaw-src=" +:+ String "034" "x" +:+ String "034" "></p>",
            [deprecated]);
     renderCache_reset := ret tt;
     getLiveSampleIDs := fun _ _ => [goodId; brokenId; lateId];
     buildLiveSamplePage := fun _ _ _ sampleIdObject =>
       if String.eqb (SampleIdObject.id sampleIdObject) "Broken"
       then {| LiveSamplePage.html := ""; LiveSamplePage.flaw := Some brokenSample |}
       else {| LiveSamplePage.html :=
                 "<html>" +:+ SampleIdObject.id sampleIdObject +:+ "</html>";
               LiveSamplePage.flaw := None |};
     updateFileInfo := fun flaw info =>
       match flaw with
       | VObject props => VObject (<["filepath" := VString (Document.path info)]> props)
       | _ => flaw
       end;
     toString := fun v =>
       match v with
       | VObject props =>
           match props !! "name" with
           | Some (VString name) => name
           | _ => "[object Object]"
           end
       | _ => "NaN"
       end |}.

#[export] Instance chalk : Chalk :=
  {| chalk_red_bold := fun s => s;
     chalk_bold_red := fun s => s;
     chalk_red := fun s => s |}.

(** The tree the parser would give for the page. *)
Definition body : tree :=
  [Element "p" (attrs [("data-flaw-src", "x")])
     [Text "Styles ";
      Element "a" (attrs [("href", "https://example.com/css")]) [Text "elsewhere"];
      Element "a" (attrs [("href", "https://developer.mozilla.org/en-US/docs/Web")])
        [Text "here"]];
   Element "div" (attrs [("class", "warning")]) [Text "Careful."]].

#[export] Instance cheerio : Cheerio :=
  {| cheerio_load := fun _ =>
       [Element "html" ∅
          [Element "head" ∅ [];
           Element "body" ∅ [Element "div" (attrs [("id", "_body")]) body]]] |}.

(** The options of the build, with a given level for macro flaws. *)
Definition options (level : string) : object :=
  obj [("flawLevels", VObject (obj [("macros", VString level)]))].

#[export] Instance buildOptions : BuildOptions :=
  {| buildOptions := options FLAW_LEVELS.WARN |}.

#[export] Instance buildModules : BuildModules unit :=
  {| extractSidebar := fun t => ret (VString "", t);
     checkImageReferences := fun doc t _ _ => ret (VArray [], doc, t);
     checkImageWidths := fun doc t _ _ => ret (doc, t);
     injectFlaws := fun doc t _ _ => ret (doc, t);
     fixFixableFlaws := fun doc _ _ => ret doc;
     syntaxHighlight := fun t doc => ret (t, doc);
     extractSections := fun t =>
       ret (VArray [VObject (obj [("type", VString "prose");
                                  ("value", VObject (obj [("id", VString "summary");
                                                          ("title", VString "Summary");
                                                          ("isH3", VBool false)]))])],
            [], []);
     injectSectionFlaws := fun doc _ _ => ret doc;
     extractSummary := fun _ => ret (VString "Styles");
     normalizeBCDURLs := fun doc _ => ret doc;
     extractBCDData := fun doc => ret (VNull, doc);
     addBreadcrumbData := fun _ doc => ret doc;
     getPageTitle := fun doc => ret (VString "CSS | MDN", doc) |}.

Definition world : World unit :=
  {| console := []; rootToGitBranchMap := ∅; ext := tt |}.

End Sample.

(** ** The fields of the output document

    What [buildDocument] assigns to [doc] once the document is rendered, in
    the order of the assignments, given what the other modules returned: to
    compare the document that [buildDocument] returns with. *)

Section Assigned.

Context {Ext : Type} `{!Content Ext}.

Definition assignedFields (document : Document.t)
    (native sidebarHTML sections toc summary : value)
    (otherTranslations : list value) (github_url : string)
    (pageTitle indexing : value) (doc : object) : object :=
  let metadata := Document.metadata document in
  let folder := Document.folder (Document.fileInfo document) in
  let root := Document.root (Document.fileInfo document) in
  let doc := <["title" := VString (Document.title metadata)]> doc in
  let doc := <["mdn_url" := VString (Document.url document)]> doc in
  let doc := <["locale" := VString (Document.locale metadata)]> doc in
  let doc := <["native" := native]> doc in
  let doc := <["sidebarHTML" := sidebarHTML]> doc in
  let doc := <["body" := sections]> doc in
  let doc := <["toc" := toc]> doc in
  let doc := <["summary" := summary]> doc in
  let doc :=
    <["popularity" := VNumber (storedPopularity (Document.popularity metadata))]> doc in
  let doc :=
    <["modified" :=
        match Document.modified metadata with
        | Some (String c rest) => VString (String c rest)
        | _ => VNull
        end]> doc in
  let doc :=
    match otherTranslations with
    | [] => doc
    | _ :: _ => <["other_translations" := VArray otherTranslations]> doc
    end in
  let doc :=
    <["source" :=
        VObject (<["folder" := VString folder]>
                (<["github_url" := VString github_url]>
                (<["last_commit_url" :=
                     VString (getLastCommitURL root (Document.hash metadata))]> ∅)))]>
      doc in
  let doc := <["pageTitle" := pageTitle]> doc in
  <["noIndexing" := indexing]> doc.

End Assigned.

(** ** Other content trees

    More implementations of the required modules, for what the small
    content tree does not reach. *)

Module Cases.

(** A checkout inside a GitHub workflow: the state of the outside world is
    the value of [GITHUB_REF], and there is no [git] to run. *)
Definition workflow : Content (option string) :=
  {| CONTENT_ROOT := "/content/files";
     REPOSITORY_URLS := {[ "/content/files" := "mdn/content" ]};
     execGit := fun _ _ => throw (mkError "spawn git ENOENT");
     urlToFolderPath := fun url => JSString.toLowerCase (JSString.drop 1 url);
     findByURL := fun _ => ret None;
     LANGUAGES_RAW := [];
     GITHUB_REF := fun ref => ref |}.

Definition workflowWorld (ref : option string) : World (option string) :=
  {| console := []; rootToGitBranchMap := ∅; ext := ref |}.

(** A page body with one of everything the passes over the tree look for. *)
Definition article : tree :=
  [Element "pre" (Sample.attrs [("class", "brush: js")]) [Text "let x;"];
   Element "p" ∅
     [Element "img" (Sample.attrs [("src", "a.png")]) [];
      Element "img" (Sample.attrs [("src", "b.png"); ("loading", "eager")]) [];
      Element "a" (Sample.attrs [("href", "https://www.fxsitecompat.com/en-CA/docs/1")])
        [Text "site compatibility"];
      Element "span" (Sample.attrs [("class", "alllinks")])
        [Element "a" (Sample.attrs [("href", "/en-US/docs/tag/Web")]) [Text "View All..."]]];
   Element "div" (Sample.attrs [("class", "in-page-callout webdev")]) [Text "Learn"];
   Element "div" (Sample.attrs [("class", "blockIndicator note")]) [Text "Note"];
   Element "div" (Sample.attrs [("class", "hidden")])
     [Element "pre" ∅ [Text "sample code"]];
   Element "iframe" (Sample.attrs [("src", "/samples/1")]) []].

(** A parser that gives this body for every page. *)
Definition parser : Cheerio := {| cheerio_load := fun _ => article |}.

(** The page of the small content tree under a URL that is not the one of
    its folder. *)
Definition misplaced : Document.t :=
  {| Document.url := "/en-US/Web/HTML";
     Document.metadata := Sample.metadata "Web/HTML";
     Document.fileInfo := Sample.fileInfo;
     Document.rawHTML := "<p>HTML</p>";
     Document.isArchive := false;
     Document.isTranslated := false;
     Document.isActive := true;
     Document.translations := None |}.

(** A page in a language that [languages.json] does not list. *)
Definition klingon : Document.t :=
  {| Document.url := "/tlh/Web/CSS";
     Document.metadata :=
       {| Document.slug := "Web/CSS";
          Document.title := "CSS";
          Document.locale := "tlh";
          Document.popularity := None;
          Document.modified := None;
          Document.translation_of := Some "Web/CSS";
          Document.hash := "def456" |};
     Document.fileInfo :=
       {| Document.folder := "tlh/web/css";
          Document.root := "/translated-content/files";
          Document.path := "/translated-content/files/tlh/web/css/index.html" |};
     Document.rawHTML := "<p>CSS</p>";
     Document.isArchive := true;
     Document.isTranslated := true;
     Document.isActive := false;
     Document.translations := Some [] |}.

(** A content store that finds the page of the small content tree under
    the URL of its English document. *)
Definition store : Content unit :=
  {| CONTENT_ROOT := "/content/files";
     REPOSITORY_URLS := {[ "/content/files" := "mdn/content" ]};
     execGit := fun _ _ => ret "main";
     urlToFolderPath := fun url => JSString.toLowerCase (JSString.drop 1 url);
     findByURL := fun url =>
       ret (if String.eqb url "/en-US/docs/Web/CSS" then Some Sample.document else None);
     LANGUAGES_RAW :=
       [("en-US", VObject (Sample.obj [("English", VString "English (US)");
                                       ("native", VString "English (US)")]));
        ("de", VObject (Sample.obj [("English", VString "German");
                                    ("native", VString "Deutsch")]))];
     GITHUB_REF := fun _ => None |}.

(** Small whole numbers print in decimal; the rest prints as in the small
    content tree. *)
Definition print (v : value) : string :=
  match v with
  | VNumber (S754_finite false m 0) => pretty (Npos m)
  | other => @toString unit Sample.kumascript other
  end.

(** A macro engine whose [render] throws. *)
Definition failing (error : value) : Kumascript unit :=
  {| render := fun _ => throw error;
     renderCache_reset := ret tt;
     getLiveSampleIDs := fun _ _ => [];
     buildLiveSamplePage := @buildLiveSamplePage unit Sample.kumascript;
     updateFileInfo := @updateFileInfo unit Sample.kumascript;
     toString := print |}.

(** What the macro engine throws when it cannot parse the source. *)
Definition parseError : value :=
  VObject (Sample.obj
    [("name", VString "MacroInvocationError");
     ("line", VNumber (S754_finite false 3 0));
     ("column", VNumber (S754_finite false 14 0));
     ("error", VObject (Sample.obj [("message", VString "Expected a macro name")]))]).

(** The flaw of a macro whose link is redirected. *)
Definition redirected : value :=
  VObject (Sample.obj
    [("name", VString "MacroRedirectedLinkError");
     ("macroSource", VString "{{CSSxRef('flex-flow')}} and {{CSSxRef('flex-flow')}}");
     ("redirectInfo", VObject (Sample.obj [("current", VString "flex-flow");
                                           ("suggested", VString "flex_flow")]));
     ("error", VObject (Sample.obj [("message", VString "redirected")]))]).

(** Build modules whose flaw checks throw: [injecting] is what
    [injectFlaws] throws and [fixing] what [fixFixableFlaws] throws, if
    anything. *)
Definition flawed (injecting fixing : option value) : BuildModules unit :=
  {| extractSidebar := @extractSidebar unit Sample.buildModules;
     checkImageReferences := @checkImageReferences unit Sample.buildModules;
     checkImageWidths := @checkImageWidths unit Sample.buildModules;
     injectFlaws := fun doc t _ _ =>
       match injecting with Some error => throw error | None => ret (doc, t) end;
     fixFixableFlaws := fun doc _ _ =>
       match fixing with Some error => throw error | None => ret doc end;
     syntaxHighlight := @syntaxHighlight unit Sample.buildModules;
     extractSections := @extractSections unit Sample.buildModules;
     injectSectionFlaws := @injectSectionFlaws unit Sample.buildModules;
     extractSummary := @extractSummary unit Sample.buildModules;
     normalizeBCDURLs := @normalizeBCDURLs unit Sample.buildModules;
     extractBCDData := @extractBCDData unit Sample.buildModules;
     addBreadcrumbData := @addBreadcrumbData unit Sample.buildModules;
     getPageTitle := @getPageTitle unit Sample.buildModules |}.

End Cases.

(** * Properties *)

Import (hints) Sample.

(** ** Sequencing *)

Section Sequencing.

Context {Ext A B : Type}.
Implicit Types (m : M Ext A) (k : A -> M Ext B) (w : World Ext).

Lemma bind_ok m k w w1 a :
  m w = (w1, Ok a) -> bind m k w = k a w1.
Proof. intros Hm. unfold bind. by rewrite Hm. Qed.

Lemma bind_throw m k w w1 e :
  m w = (w1, Throw e) -> bind m k w = (w1, Throw e).
Proof. intros Hm. unfold bind. by rewrite Hm. Qed.

Lemma bind_inv_ok m k w w2 b :
  bind m k w = (w2, Ok b) ->
  exists w1 a, m w = (w1, Ok a) /\ k a w1 = (w2, Ok b).
Proof.
  unfold bind. destruct (m w) as [w1 [a|e]]; intros Hk; [|discriminate].
  by exists w1, a.
Qed.

End Sequencing.

(** ** Slug validation *)

Lemma validateSlug_throws {Ext} (slug : string) (w : World Ext) :
  slug = "" \/ JSString.startsWith slug "/" = true \/
  JSString.endsWith slug "/" = true \/ JSString.includes slug "//" = true ->
  exists e, validateSlug slug w = (w, Throw e).
Proof.
  intros Hbad. unfold validateSlug.
  destruct (JSString.is_empty slug) eqn:Hempty; [by eexists|].
  destruct (JSString.startsWith slug "/") eqn:Hstart; [by eexists|].
  destruct (JSString.endsWith slug "/") eqn:Hend; [by eexists|].
  destruct (JSString.includes slug "//") eqn:Hdouble; [by eexists|].
  destruct Hbad as [-> | [? | [? | ?]]]; discriminate.
Qed.

Lemma validateSlug_accepts {Ext} (slug : string) (w : World Ext) :
  slug <> "" -> JSString.startsWith slug "/" = false ->
  JSString.endsWith slug "/" = false -> JSString.includes slug "//" = false ->
  validateSlug slug w = (w, Ok tt).
Proof.
  intros Hne Hstart Hend Hdouble. unfold validateSlug.
  rewrite Hstart, Hend, Hdouble. by destruct slug.
Qed.

(** The three slugs the specification names. *)
Example validateSlug_examples :
  forall w : World unit,
    validateSlug "a//b" w = (w, Throw (mkError "Slug 'a//b' contains a double /")) /\
    validateSlug "/a/b" w = (w, Throw (mkError "Slug '/a/b' starts with a /")) /\
    validateSlug "a/b/" w = (w, Throw (mkError "Slug 'a/b/' ends with a /")) /\
    validateSlug "" w = (w, Throw (mkError "slug is empty")) /\
    validateSlug "a/b" w = (w, Ok tt).
Proof. intros w. repeat split. Qed.

(** ** The indexing decision *)

Lemma noIndexing_bool (doc : object) (slug : string) :
  noIndexing doc slug =
  VBool (truthy (default VUndefined (doc !! "isArchive"))
         && negb (truthy (default VUndefined (doc !! "isTranslated")))
         || String.eqb slug "MDN/Kitchensink"
         || JSString.startsWith slug "orphaned/"
         || JSString.startsWith slug "conflicting/").
Proof.
  unfold noIndexing, js_or, js_and.
  destruct (truthy (default VUndefined (doc !! "isArchive"))) eqn:Harchive;
    cbn [andb orb truthy].
  - destruct (truthy (default VUndefined (doc !! "isTranslated")));
      cbn [negb orb truthy]; [|done].
    destruct (String.eqb slug "MDN/Kitchensink"); cbn [orb truthy]; [done|].
    by destruct (JSString.startsWith slug "orphaned/").
  - rewrite Harchive.
    destruct (String.eqb slug "MDN/Kitchensink"); cbn [orb truthy]; [done|].
    by destruct (JSString.startsWith slug "orphaned/").
Qed.

(** ** Popularity *)

Lemma Qmake_10000 (n : Z) : (n # 10000 == inject_Z n * (1 # 10000))%Q.
Proof. unfold Qeq, inject_Z. cbn. lia. Qed.

(** The integer [toFixed(4)] prints is within half a unit of the last
    decimal of the number it prints. *)
Lemma toFixedDigits_nearest (m : positive) (e : Z) :
  (Qabs ((toFixedDigits m e 4 # 10000) - inject_Z (Zpos m) * 2 ^ e) <= 1 # 20000)%Q.
Proof.
  apply Qabs_Qle_condition. rewrite Qmake_10000.
  destruct e as [|p|k]; unfold toFixedDigits; change (10 ^ 4)%Z with 10000%Z.
  - change (2 ^ 0)%Q with 1%Q.
    rewrite Z.pow_0_r, Z.mul_1_r, inject_Z_mult.
    change (inject_Z 10000) with 10000%Q.
    generalize (inject_Z (Z.pos m)). intros x.
    split; lra.
  - rewrite !inject_Z_mult.
    rewrite (Zpower_Qpower 2 (Z.pos p)) by lia.
    change (inject_Z 10000) with 10000%Q. change (inject_Z 2) with 2%Q.
    generalize (2 ^ Z.pos p)%Q (inject_Z (Z.pos m)). intros x y.
    split; lra.
  - set (d := (2 ^ Z.pos k)%Z).
    assert (0 < d)%Z as Hd by (apply Z.pow_pos_nonneg; lia).
    set (N := (Z.pos m * 10000)%Z).
    set (n := ((2 * N + d) / (2 * d))%Z).
    assert (2 * d * n <= 2 * N + d < 2 * d * n + 2 * d)%Z as [Hlo Hhi].
    { pose proof (Z.mul_div_le (2 * N + d) (2 * d)) as Hle.
      pose proof (Z.mul_succ_div_gt (2 * N + d) (2 * d)) as Hgt.
      fold n in Hle, Hgt. lia. }
    change (2 ^ Z.neg k)%Q with (/ (2 ^ Z.pos k))%Q.
    rewrite <- (Zpower_Qpower 2 (Z.pos k)) by lia. fold d.
    assert (0 < inject_Z d)%Q as HD by (rewrite <- (Zlt_Qlt 0); exact Hd).
    revert Hlo Hhi. unfold N. generalize (Z.pos m). intros M Hlo Hhi.
    set (q := (inject_Z M * / inject_Z d)%Q).
    assert (q * inject_Z d == inject_Z M)%Q as Hq.
    { unfold q. field. lra. }
    rewrite Zle_Qle in Hlo. rewrite Zlt_Qlt in Hhi.
    repeat (rewrite inject_Z_plus in Hlo || rewrite inject_Z_mult in Hlo).
    repeat (rewrite inject_Z_plus in Hhi || rewrite inject_Z_mult in Hhi).
    change (inject_Z 10000) with 10000%Q in *. change (inject_Z 2) with 2%Q in *.
    revert Hlo Hhi HD Hq.
    generalize (inject_Z d) (inject_Z n) (inject_Z M) q. clear.
    intros D z x q Hlo Hhi HD Hq.
    assert (2 * z <= 20000 * q + 1)%Q.
    { apply (Qmult_le_l _ _ D HD). lra. }
    assert (20000 * q + 1 <= 2 * z + 2)%Q.
    { apply (Qmult_le_l _ _ D HD). lra. }
    split; lra.
Qed.

(** One step of a computation that returned: the first action returned
    too, and the rest returned from the world it left. *)
Tactic Notation "step_ok" hyp(H) "as" simple_intropattern(a) ident(Ha) :=
  apply bind_inv_ok in H as (? & a & Ha & H).

Lemma ret_inv {Ext A} (a b : A) (w w' : World Ext) :
  ret a w = (w', Ok b) -> w' = w /\ b = a.
Proof. unfold ret. intros [= -> ->]. done. Qed.

Lemma injectSource_keeps {Ext} `{!Content Ext}
    (doc doc' : object) (document : Document.t) (metadata : Document.Metadata)
    (w w' : World Ext) (key : string) :
  injectSource doc document metadata w = (w', Ok doc') ->
  key <> "source" -> doc' !! key = doc !! key.
Proof.
  unfold injectSource. intros Hinject Hkey.
  step_ok Hinject as url Hurl. apply ret_inv in Hinject as [_ ->].
  by rewrite lookup_insert_ne.
Qed.

(** What [describe] stores under [popularity] is still there when it
    returns, if the two modules that see [doc] afterwards leave it there. *)
Lemma describe_popularity {Ext} `{!Content Ext, !BuildModules Ext}
    (options : object) (document : Document.t) (doc doc' : object) (t : tree)
    (bcd : value) (w w' : World Ext) :
  (forall url d d' w1 w2, addBreadcrumbData url d w1 = (w2, Ok d') ->
     d' !! "popularity" = d !! "popularity") ->
  (forall d d' title w1 w2, getPageTitle d w1 = (w2, Ok (title, d')) ->
     d' !! "popularity" = d !! "popularity") ->
  describe options document doc t w = (w', Ok (doc', bcd)) ->
  doc' !! "popularity" =
    Some (VNumber (storedPopularity (Document.popularity (Document.metadata document)))).
Proof.
  intros Hcrumbs Htitle Hdescribe. unfold describe in Hdescribe.
  step_ok Hdescribe as [[sections sectionFlaws] t'] Hsections.
  step_ok Hdescribe as doc1 Hflaws.
  step_ok Hdescribe as toc Htoc.
  step_ok Hdescribe as summary Hsummary.
  step_ok Hdescribe as doc2 Hbcdurls.
  step_ok Hdescribe as [bcd' doc3] Hbcd.
  step_ok Hdescribe as translations Htranslations.
  step_ok Hdescribe as doc4 Hsource.
  step_ok Hdescribe as doc5 Hparents.
  step_ok Hdescribe as [pageTitle doc6] Hpage.
  apply ret_inv in Hdescribe as [_ [= -> ->]].
  rewrite lookup_insert_ne by done.
  rewrite (Htitle _ _ _ _ _ Hpage), (Hcrumbs _ _ _ _ _ Hparents).
  rewrite (injectSource_keeps _ _ _ _ _ _ "popularity" Hsource) by done.
  destruct translations;
    rewrite ?(lookup_insert_ne _ "other_translations" "popularity") by done;
    rewrite (lookup_insert_ne _ "modified" "popularity") by done;
    by rewrite lookup_insert_eq.
Qed.



(** ** Facts about strings *)

Section StringFacts.

Import JSString.
Implicit Types (s t p c : string) (x y : ascii).

#[local] Arguments startsWith : simpl never.
#[local] Arguments includes : simpl never.

Lemma append_cons x s t : String x s +:+ t = String x (s +:+ t).
Proof. reflexivity. Qed.

Lemma append_nil_l s : "" +:+ s = s.
Proof. reflexivity. Qed.

Lemma append_nil_r s : s +:+ "" = s.
Proof. induction s as [|x s IH]; [done|]. by rewrite append_cons, IH. Qed.

Lemma append_assoc s t p : (s +:+ t) +:+ p = s +:+ t +:+ p.
Proof. induction s as [|x s IH]; [done|]. by rewrite !append_cons, IH. Qed.

Lemma startsWith_nil s : startsWith s "" = true.
Proof. reflexivity. Qed.

Lemma startsWith_nil_l x p : startsWith "" (String x p) = false.
Proof. reflexivity. Qed.

Lemma startsWith_cons_eq x y s p :
  startsWith (String y s) (String x p) = Ascii.eqb x y && startsWith s p.
Proof. reflexivity. Qed.

Lemma startsWith_cons x y s p :
  startsWith (String y s) (String x p) = true <-> x = y /\ startsWith s p = true.
Proof. by rewrite startsWith_cons_eq, andb_true_iff, Ascii.eqb_eq. Qed.

Lemma startsWith_refl_app p s : startsWith (p +:+ s) p = true.
Proof.
  induction p as [|x p IH]; [done|].
  rewrite append_cons. by apply startsWith_cons.
Qed.

Lemma startsWith_refl p : startsWith p p = true.
Proof. rewrite <- (append_nil_r p) at 1. apply startsWith_refl_app. Qed.

Lemma includes_eq s p :
  includes s p =
  startsWith s p ||
  match s with EmptyString => false | String _ s' => includes s' p end.
Proof. by destruct s. Qed.

Lemma includes_here s p : startsWith s p = true -> includes s p = true.
Proof. intros Hp. by rewrite includes_eq, Hp. Qed.

Lemma includes_cons x s p : includes s p = true -> includes (String x s) p = true.
Proof. intros Hp. rewrite includes_eq, Hp. apply orb_true_r. Qed.

Lemma includes_app_r t s p : includes s p = true -> includes (t +:+ s) p = true.
Proof.
  intros Hp. induction t as [|x t IH]; [done|].
  rewrite append_cons. by apply includes_cons.
Qed.

Lemma includes_cons_inv x s p :
  includes (String x s) p = true ->
  startsWith (String x s) p = true \/ includes s p = true.
Proof. rewrite includes_eq. intros Hp. by apply orb_true_iff in Hp. Qed.

Lemma includes_nil_inv p : includes "" p = true -> p = "".
Proof. rewrite includes_eq, orb_false_r. by destruct p. Qed.

(** *** Trimming *)

Lemma trimEnd_cons x t :
  trimEnd (String x t) =
  if is_space x && is_empty (trimEnd t) then "" else String x (trimEnd t).
Proof. reflexivity. Qed.

Lemma trimStart_cons x s :
  trimStart (String x s) = if is_space x then trimStart s else String x s.
Proof. reflexivity. Qed.

Lemma trimEnd_snoc_space t x :
  is_space x = true -> trimEnd (t +:+ String x "") = trimEnd t.
Proof.
  intros Hx. induction t as [|y t IH].
  - rewrite append_nil_l, trimEnd_cons. by rewrite Hx.
  - by rewrite append_cons, !trimEnd_cons, IH.
Qed.

Lemma trimStart_snoc_space s x :
  is_space x = true ->
  trimEnd (trimStart (s +:+ String x "")) = trimEnd (trimStart s).
Proof.
  intros Hx. induction s as [|y s IH].
  - rewrite append_nil_l, trimStart_cons. by rewrite Hx.
  - rewrite append_cons, !trimStart_cons. destruct (is_space y) eqn:Hy; [done|].
    rewrite <- append_cons. by apply trimEnd_snoc_space.
Qed.

Lemma trim_pad s : trim (" " +:+ s +:+ " ") = trim s.
Proof.
  unfold trim. rewrite append_cons, append_nil_l, trimStart_cons.
  change (is_space " ") with true. cbv iota.
  by apply trimStart_snoc_space.
Qed.

Lemma trimEnd_idemp t : trimEnd (trimEnd t) = trimEnd t.
Proof.
  induction t as [|x t IH]; [done|]. rewrite trimEnd_cons.
  destruct (is_space x && is_empty (trimEnd t)) eqn:Hx; [done|].
  by rewrite trimEnd_cons, IH, Hx.
Qed.

Lemma trimStart_stable s :
  match s with String x _ => is_space x = false | EmptyString => True end ->
  trimStart s = s.
Proof. destruct s as [|x s]; [done|]. rewrite trimStart_cons. by intros ->. Qed.

Lemma trimStart_head s :
  match trimStart s with String x _ => is_space x = false | EmptyString => True end.
Proof.
  induction s as [|x s IH]; [done|]. rewrite trimStart_cons.
  by destruct (is_space x) eqn:Hx.
Qed.

Lemma trimEnd_head t :
  match t with String x _ => is_space x = false | EmptyString => True end ->
  match trimEnd t with String x _ => is_space x = false | EmptyString => True end.
Proof.
  destruct t as [|x t]; [done|]. rewrite trimEnd_cons. intros Hx. by rewrite Hx.
Qed.

Lemma trim_idemp s : trim (trim s) = trim s.
Proof.
  unfold trim. rewrite trimStart_stable.
  - apply trimEnd_idemp.
  - apply trimEnd_head, trimStart_head.
Qed.

Lemma trim_pad_trim s : trim (" " +:+ trim s +:+ " ") = trim s.
Proof. by rewrite trim_pad, trim_idemp. Qed.

(** *** A class name between spaces

    [addClass] looks for [" name "] in the class string padded with a space
    on either side. *)

Lemma has_space_cons x c :
  has_space (String x c) = false <-> is_space x = false /\ has_space c = false.
Proof. apply orb_false_iff. Qed.

Lemma startsWith_trimEnd c t :
  has_space c = false ->
  startsWith t (c +:+ " ") = true ->
  startsWith (trimEnd t +:+ " ") (c +:+ " ") = true /\ (c <> "" -> trimEnd t <> "").
Proof.
  revert t. induction c as [|x c IH]; intros t Hc Ht.
  - split; [|done]. rewrite append_nil_l in *.
    destruct t as [|y t]; [done|]. apply startsWith_cons in Ht as [<- _].
    rewrite trimEnd_cons. change (is_space " ") with true.
    by destruct (is_empty (trimEnd t)).
  - apply has_space_cons in Hc as [Hx Hc]. rewrite append_cons in *.
    destruct t as [|y t]; [done|]. apply startsWith_cons in Ht as [<- Ht].
    destruct (IH t Hc Ht) as [IH1 _].
    rewrite trimEnd_cons, Hx, andb_false_l. split; [|done].
    rewrite append_cons. by apply startsWith_cons.
Qed.

Lemma includes_space_only c : c <> "" -> includes " " (" " +:+ c +:+ " ") = false.
Proof. by destruct c. Qed.

Lemma includes_trimEnd c t :
  c <> "" -> has_space c = false ->
  includes t (" " +:+ c +:+ " ") = true ->
  includes (trimEnd t +:+ " ") (" " +:+ c +:+ " ") = true.
Proof.
  intros Hne Hc. induction t as [|y t IH]; intros Ht; [done|].
  rewrite trimEnd_cons.
  apply includes_cons_inv in Ht as [Ht|Ht].
  - rewrite append_cons, append_nil_l in Ht.
    apply startsWith_cons in Ht as [<- Ht].
    destruct (startsWith_trimEnd c t Hc Ht) as [Hstart Hnonempty].
    destruct (trimEnd t) as [|z t'] eqn:Htrim; [by destruct Hnonempty|].
    rewrite andb_false_r. apply includes_here.
    rewrite !append_cons, append_nil_l. apply startsWith_cons. split; [done|].
    by rewrite <- append_cons.
  - specialize (IH Ht).
    destruct (trimEnd t) as [|z t'] eqn:Htrim.
    + rewrite append_nil_l in IH. by rewrite includes_space_only in IH.
    + rewrite andb_false_r, append_cons. by apply includes_cons.
Qed.

Lemma includes_trimStart c s :
  c <> "" -> has_space c = false ->
  includes s (" " +:+ c +:+ " ") = true ->
  includes (" " +:+ trimStart s) (" " +:+ c +:+ " ") = true.
Proof.
  intros Hne Hc. induction s as [|y s IH]; intros Hs; [done|].
  rewrite trimStart_cons. destruct (is_space y) eqn:Hy.
  - apply includes_cons_inv in Hs as [Hs|Hs]; [|by apply IH].
    rewrite append_cons, append_nil_l in Hs.
    apply startsWith_cons in Hs as [<- Hs].
    rewrite trimStart_stable.
    + apply includes_here. rewrite !append_cons, !append_nil_l.
      by apply startsWith_cons.
    + destruct c as [|x c]; [done|]. apply has_space_cons in Hc as [Hx _].
      destruct s as [|z s]; [done|].
      rewrite append_cons in Hs. by apply startsWith_cons in Hs as [<- _].
  - rewrite append_cons, append_nil_l. by apply includes_cons.
Qed.

(** Trimming keeps a class name that stands between spaces, once the
    padding is put back. *)
Lemma includes_trim c s :
  c <> "" -> has_space c = false ->
  includes s (" " +:+ c +:+ " ") = true ->
  includes (" " +:+ trim s +:+ " ") (" " +:+ c +:+ " ") = true.
Proof.
  intros Hne Hc Hs. unfold trim.
  pose proof (includes_trimEnd c _ Hne Hc (includes_trimStart c s Hne Hc Hs)) as Ht.
  rewrite (append_cons " "), append_nil_l, trimEnd_cons in Ht.
  destruct (trimEnd (trimStart s)) as [|z t] eqn:Htrim.
  - rewrite append_nil_l in Ht. by rewrite includes_space_only in Ht.
  - by rewrite andb_false_r in Ht.
Qed.

(** *** Class names as words *)

Lemma startsWith_word_here c s :
  has_space c = false ->
  startsWith (s +:+ " ") (c +:+ " ") = true -> word_here s c = true.
Proof.
  revert s. induction c as [|x c IH]; intros s Hc Hs.
  - destruct s as [|y s]; [done|].
    rewrite append_nil_l, append_cons in Hs. by apply startsWith_cons in Hs as [<- _].
  - apply has_space_cons in Hc as [Hx Hc]. rewrite append_cons in Hs.
    destruct s as [|y s].
    + rewrite append_nil_l in Hs. apply startsWith_cons in Hs as [-> _]. done.
    + rewrite append_cons in Hs. apply startsWith_cons in Hs as [<- Hs].
      specialize (IH s Hc Hs). unfold word_here in *.
      apply andb_true_iff in IH as [IH1 IH2].
      rewrite startsWith_cons_eq, Ascii.eqb_refl, IH1. exact IH2.
Qed.

Lemma includes_has_word_from c s b :
  has_space c = false ->
  includes (s +:+ " ") (" " +:+ c +:+ " ") = true ->
  has_word_from b s c = true.
Proof.
  intros Hc. revert b. induction s as [|y s IH]; intros b Hs.
  - destruct c; discriminate.
  - rewrite append_cons in Hs. simpl.
    apply orb_true_iff. right.
    apply includes_cons_inv in Hs as [Hs|Hs]; [|by apply IH].
    rewrite append_cons, append_nil_l in Hs.
    apply startsWith_cons in Hs as [<- Hs].
    destruct s as [|z s]; simpl.
    + by rewrite (startsWith_word_here c "" Hc Hs).
    + by rewrite (startsWith_word_here c _ Hc Hs).
Qed.

(** What [addClass] looks for is what the class selector matches. *)
Lemma includes_has_word c s :
  has_space c = false ->
  includes (" " +:+ s +:+ " ") (" " +:+ c +:+ " ") = true ->
  has_word s c = true.
Proof.
  intros Hc Hs. unfold has_word. rewrite Hc. simpl.
  rewrite (append_cons " "), append_nil_l in Hs.
  apply includes_cons_inv in Hs as [Hs|Hs].
  - rewrite append_cons, append_nil_l in Hs.
    apply startsWith_cons in Hs as [_ Hs].
    pose proof (startsWith_word_here c _ Hc Hs) as Hhere.
    destruct s; simpl; by rewrite Hhere.
  - by apply includes_has_word_from.
Qed.

(** *** Splitting on white space *)

Lemma split_space_from_cons r x s :
  split_space_from r (String x s) =
  if is_space x
  then if r then split_space_from true s else "" :: split_space_from true s
  else push_front x (split_space_from false s).
Proof. reflexivity. Qed.

Lemma tail_push_front x (l : list string) : tail (push_front x l) = tail l.
Proof. by destruct l. Qed.

Lemma split_space_token c r :
  has_space c = false -> c <> "" \/ r = false -> split_space_from r c = [c].
Proof.
  intros Hc Hr. destruct c as [|x c]; [by destruct Hr as [?| ->]|]. clear Hr.
  revert x r Hc. induction c as [|y c IH]; intros x r Hc.
  - apply has_space_cons in Hc as [Hx _]. by rewrite split_space_from_cons, Hx.
  - apply has_space_cons in Hc as [Hx Hc].
    by rewrite split_space_from_cons, Hx, (IH y false Hc).
Qed.

(** A word at the start of the string is the first piece. *)
Lemma split_space_head c s r :
  has_space c = false -> c <> "" \/ r = false ->
  startsWith (s +:+ " ") (c +:+ " ") = true ->
  exists l, split_space_from r s = c :: l.
Proof.
  revert s r. induction c as [|x c IH]; intros s r Hc Hr Hs.
  - destruct Hr as [?| ->]; [done|].
    destruct s as [|y s]; [by eexists|].
    rewrite append_nil_l, append_cons in Hs. apply startsWith_cons in Hs as [<- _].
    by eexists.
  - apply has_space_cons in Hc as [Hx Hc]. rewrite append_cons in Hs.
    destruct s as [|y s].
    + rewrite append_nil_l in Hs. by apply startsWith_cons in Hs as [-> _].
    + rewrite append_cons in Hs. apply startsWith_cons in Hs as [<- Hs].
      destruct (IH s false Hc (or_intror eq_refl) Hs) as [l Hl].
      rewrite split_space_from_cons, Hx, Hl. by eexists.
Qed.

(** A word after a space is one of the later pieces. *)
Lemma split_space_later c s :
  c <> "" -> has_space c = false ->
  includes (s +:+ " ") (" " +:+ c +:+ " ") = true ->
  c ∈ tail (split_space_from false s) /\ c ∈ split_space_from true s.
Proof.
  intros Hne Hc. induction s as [|y s IH]; intros Hs.
  - by rewrite append_nil_l, includes_space_only in Hs.
  - rewrite append_cons in Hs. rewrite !split_space_from_cons.
    apply includes_cons_inv in Hs as [Hs|Hs].
    + rewrite append_cons, append_nil_l in Hs.
      apply startsWith_cons in Hs as [<- Hs].
      destruct (split_space_head c s true Hc (or_introl Hne) Hs) as [l ->].
      change (is_space " ") with true. cbv iota. cbn [tail].
      split; apply list_elem_of_here.
    + destruct (IH Hs) as [IH1 IH2]. destruct (is_space y); [done|].
      rewrite tail_push_front. split; [done|].
      destruct (split_space_from false s) as [|h l]; simpl in *.
      * by apply elem_of_nil in IH1.
      * by apply list_elem_of_further.
Qed.

(** What [addClass] finds, [removeClass] splits off. *)
Lemma includes_split_space c s :
  c <> "" -> has_space c = false ->
  includes (" " +:+ s +:+ " ") (" " +:+ c +:+ " ") = true ->
  c ∈ split_space s.
Proof.
  intros Hne Hc Hs. unfold split_space.
  rewrite (append_cons " "), append_nil_l in Hs.
  apply includes_cons_inv in Hs as [Hs|Hs].
  - rewrite append_cons, append_nil_l in Hs.
    apply startsWith_cons in Hs as [_ Hs].
    destruct (split_space_head c s false Hc (or_introl Hne) Hs) as [l ->].
    apply list_elem_of_here.
  - destruct (split_space_later c s Hne Hc Hs) as [Hin _].
    destruct (split_space_from false s) as [|h l]; simpl in *.
    + by apply elem_of_nil in Hin.
    + by apply list_elem_of_further.
Qed.

Lemma split_space_no_space s r :
  Forall (fun c => has_space c = false) (split_space_from r s).
Proof.
  revert r. induction s as [|x s IH]; intros r; [by repeat constructor|].
  rewrite split_space_from_cons. destruct (is_space x) eqn:Hx.
  - destruct r; [done|]. by constructor.
  - specialize (IH false). destruct (split_space_from false s) as [|c l]; simpl.
    + repeat constructor. simpl. by rewrite Hx.
    + inversion IH; subst. constructor; [|done]. simpl. by rewrite Hx.
Qed.

Lemma split_space_nonempty s :
  s <> "" -> trimEnd s = s ->
  forall r,
    Forall (fun c => c <> "") (tail (split_space_from r s)) /\
    (r = true \/ match s with String x _ => is_space x = false | _ => True end ->
     Forall (fun c => c <> "") (split_space_from r s)).
Proof.
  induction s as [|x s IH]; intros Hne Hs r; [done|].
  rewrite trimEnd_cons in Hs. rewrite split_space_from_cons.
  destruct (is_space x) eqn:Hx.
  - destruct (is_empty (trimEnd s)) eqn:Hempty; [done|].
    rewrite andb_false_r in Hs. injection Hs as Hs.
    assert (s <> "") as Hs' by (intros ->; discriminate).
    destruct (IH Hs' Hs true) as [_ IH2]. specialize (IH2 (or_introl eq_refl)).
    destruct r; cbn [tail]; split; try done.
    + destruct (split_space_from true s); [done|]. by inversion IH2.
    + intros [?|?]; done.
  - rewrite andb_false_l in Hs. injection Hs as Hs.
    destruct s as [|z s]; [by repeat constructor|].
    destruct (IH ltac:(done) Hs false) as [IH1 _].
    rewrite tail_push_front. split; [done|]. intros _.
    destruct (split_space_from false (String z s)) as [|c l]; simpl.
    + by repeat constructor.
    + constructor; [done|]. exact IH1.
Qed.

(** The pieces of a trimmed, non-empty string are words. *)
Lemma split_space_trim s :
  trim s <> "" ->
  Forall (fun c => c <> "" /\ has_space c = false) (split_space (trim s)).
Proof.
  intros Hne. unfold split_space.
  assert (trimEnd (trim s) = trim s) as Hend by apply trimEnd_idemp.
  pose proof (trimEnd_head _ (trimStart_head s)) as Hhead. fold (trim s) in Hhead.
  destruct (split_space_nonempty (trim s) Hne Hend false) as [_ Hwords].
  specialize (Hwords (or_intror Hhead)).
  pose proof (split_space_no_space (trim s) false) as Hspace.
  rewrite Forall_forall in *. naive_solver.
Qed.

(** *** Joining words with a space *)

Lemma join_cons_cons a b (l : list string) (sep : string) :
  join (a :: b :: l) sep = a +:+ sep +:+ join (b :: l) sep.
Proof. reflexivity. Qed.

Lemma trimEnd_token c : has_space c = false -> trimEnd c = c.
Proof.
  induction c as [|x c IH]; [done|]. intros [Hx Hc]%has_space_cons.
  by rewrite trimEnd_cons, Hx, andb_false_l, IH.
Qed.

Lemma trimEnd_app_stable a b : b <> "" -> trimEnd b = b -> trimEnd (a +:+ b) = a +:+ b.
Proof.
  intros Hne Hb. induction a as [|x a IH]; [done|].
  rewrite append_cons, trimEnd_cons, IH.
  destruct (a +:+ b) eqn:Hab; [|by rewrite andb_false_r].
  destruct a; [by subst|discriminate].
Qed.

Lemma join_words_stable (l : list string) :
  Forall (fun c => c <> "" /\ has_space c = false) l -> l <> [] ->
  join l " " <> "" /\
  match join l " " with String x _ => is_space x = false | _ => True end /\
  trimEnd (join l " ") = join l " ".
Proof.
  induction 1 as [|a l [Hne Ha] Hl IH]; [done|]. intros _.
  destruct l as [|b l].
  - simpl. split; [done|]. split; [|by apply trimEnd_token].
    destruct a as [|x a]; [done|]. by apply has_space_cons in Ha as [? _].
  - destruct (IH ltac:(done)) as (IHne & _ & IHend).
    rewrite join_cons_cons. destruct a as [|x a]; [done|].
    split; [done|]. split; [by apply has_space_cons in Ha as [? _]|].
    apply trimEnd_app_stable; [done|].
    rewrite append_cons, append_nil_l, trimEnd_cons, IHend.
    destruct (join (b :: l) " "); [done|]. by rewrite andb_false_r.
Qed.

Lemma trim_join_words (l : list string) :
  Forall (fun c => c <> "" /\ has_space c = false) l -> l <> [] ->
  trim (join l " ") = join l " ".
Proof.
  intros Hl Hne. destruct (join_words_stable l Hl Hne) as (_ & Hhead & Hend).
  unfold trim. by rewrite trimStart_stable.
Qed.

Lemma split_space_word_app c t r :
  c <> "" -> has_space c = false ->
  split_space_from r (c +:+ " " +:+ t) = c :: split_space_from true t.
Proof.
  intros Hne Hc. destruct c as [|x c]; [done|]. clear Hne.
  revert x r Hc. induction c as [|y c IH]; intros x r [Hx Hc]%has_space_cons.
  - by rewrite !append_cons, !append_nil_l, split_space_from_cons, Hx.
  - rewrite append_cons, split_space_from_cons, Hx.
    by rewrite (IH y false Hc).
Qed.

Lemma split_space_join_words (l : list string) r :
  Forall (fun c => c <> "" /\ has_space c = false) l -> l <> [] ->
  split_space_from r (join l " ") = l.
Proof.
  intros Hl. revert r. induction Hl as [|a l [Hne Ha] Hl IH]; [done|]. intros r _.
  destruct l as [|b l].
  - by apply split_space_token; [|left].
  - rewrite join_cons_cons, split_space_word_app by done.
    by rewrite IH.
Qed.

Lemma includes_join_words c (l : list string) :
  c ∈ l ->
  includes (" " +:+ join l " " +:+ " ") (" " +:+ c +:+ " ") = true.
Proof.
  induction l as [|a l IH]; [by intros ?%elem_of_nil|].
  intros [->|Hin]%elem_of_cons.
  - apply includes_here. rewrite !(append_cons " "), !append_nil_l.
    apply startsWith_cons. split; [done|].
    destruct l as [|b l].
    + apply startsWith_refl.
    + rewrite join_cons_cons, !append_assoc, <- (append_assoc a " ").
      apply startsWith_refl_app.
  - destruct l as [|b l]; [by apply elem_of_nil in Hin|].
    rewrite join_cons_cons, !append_assoc.
    rewrite <- (append_assoc " " a). apply includes_app_r. by apply IH.
Qed.

(** *** Splitting on a space: [rel.split(" ")] *)

Lemma split_space_char_cons x s :
  split (String x s) " " =
  if Ascii.eqb " " x then "" :: split s " " else push_front x (split s " ").
Proof. unfold split. simpl. by rewrite startsWith_cons_eq, andb_true_r. Qed.

Lemma split_nonempty s : split s " " <> [].
Proof.
  destruct s as [|x s]; [done|]. rewrite split_space_char_cons.
  destruct (Ascii.eqb " " x); [done|]. by destruct (split s " ").
Qed.

Lemma join_push_front x (l : list string) (sep : string) :
  l <> [] -> join (push_front x l) sep = String x (join l sep).
Proof. destruct l as [|a [|b l]]; done. Qed.

Lemma join_split s : join (split s " ") " " = s.
Proof.
  induction s as [|x s IH]; [done|]. rewrite split_space_char_cons.
  destruct (Ascii.eqb " " x) eqn:Hx.
  - apply Ascii.eqb_eq in Hx as <-.
    pose proof (split_nonempty s) as Hne.
    destruct (split s " ") as [|b l] eqn:Hsplit; [done|].
    by rewrite join_cons_cons, IH.
  - by rewrite join_push_front, IH by apply split_nonempty.
Qed.

Lemma split_app s t : split (s +:+ " " +:+ t) " " = split s " " ++ split t " ".
Proof.
  induction s as [|x s IH].
  - by rewrite append_nil_l, append_cons, append_nil_l, split_space_char_cons.
  - rewrite append_cons, !split_space_char_cons, IH.
    destruct (Ascii.eqb " " x); [done|].
    pose proof (split_nonempty s). by destruct (split s " ").
Qed.

Lemma join_snoc (l : list string) c (sep : string) :
  l <> [] -> join (l ++ [c]) sep = join l sep +:+ sep +:+ c.
Proof.
  induction l as [|a l IH]; [done|]. intros _.
  destruct l as [|b l]; [done|].
  change ((a :: b :: l) ++ [c]) with (a :: b :: (l ++ [c])).
  rewrite !join_cons_cons.
  change (b :: (l ++ [c])) with ((b :: l) ++ [c]).
  by rewrite IH, !append_assoc.
Qed.

End StringFacts.

(** ** Facts about trees *)

(** Induction on a node with the property known for its children. *)
Lemma node_induction (P : node -> Prop) :
  (forall data, P (Text data)) ->
  (forall data, P (Comment data)) ->
  (forall name attribs children,
     Forall P children -> P (Element name attribs children)) ->
  forall n, P n.
Proof.
  intros Htext Hcomment Helement.
  fix IH 1. intros [data|data|name attribs children].
  - apply Htext.
  - apply Hcomment.
  - apply Helement. induction children as [|c children IHchildren].
    + constructor.
    + constructor; [apply IH | apply IHchildren].
Qed.

Lemma lookup_map {A B} (f : A -> B) (l : list A) (i : nat) :
  map f l !! i = f <$> l !! i.
Proof.
  revert i. induction l as [|a l IH]; intros [|i]; try done. apply IH.
Qed.

(** The node at a path of the rewritten tree is the rewritten node at that
    path of the tree. *)
Lemma node_at_update (sel : selector) f (path : list nat) (t : tree) :
  node_at path (update_matching sel f t) = update_node sel f <$> node_at path t.
Proof.
  revert t. induction path as [|i path IH]; intros t; [done|].
  destruct path as [|j path].
  - simpl. unfold update_matching. apply lookup_map.
  - change (node_at (i :: j :: path) (update_matching sel f t))
      with (match update_matching sel f t !! i with
            | Some (Element _ _ children) => node_at (j :: path) children
            | _ => None
            end).
    change (node_at (i :: j :: path) t)
      with (match t !! i with
            | Some (Element _ _ children) => node_at (j :: path) children
            | _ => None
            end).
    unfold update_matching at 1. rewrite lookup_map.
    destruct (t !! i) as [[data|data|name attribs children]|]; try done.
    apply IH.
Qed.

(** A rewriting that settles every element after one round settles every
    tree after one round. *)
Lemma update_matching_idemp (sel : selector) f :
  (forall name attribs,
     let once := if matches sel name attribs then f attribs else attribs in
     (if matches sel name once then f once else once) = once) ->
  forall t, update_matching sel f (update_matching sel f t) = update_matching sel f t.
Proof.
  intros Hstep.
  assert (forall n, update_node sel f (update_node sel f n) = update_node sel f n)
    as Hnode.
  { induction n as [data|data|name attribs children IH] using node_induction;
      [done..|].
    simpl. rewrite (Hstep name attribs). f_equal.
    rewrite map_map. apply map_ext_Forall. exact IH. }
  intros t. unfold update_matching. rewrite map_map.
  apply map_ext. exact Hnode.
Qed.

(** ** Facts about the class methods *)

Section ClassFacts.

Implicit Types (c s : string) (attribs : gmap string string).

Lemma trim_token c : has_space c = false -> JSString.trim c = c.
Proof.
  intros Hc. unfold JSString.trim. rewrite trimStart_stable.
  - by apply trimEnd_token.
  - destruct c as [|x c]; [done|]. by apply has_space_cons in Hc as [? _].
Qed.

(** [addClass] with one class name leaves a trimmed class string in which
    the name stands between spaces. *)
Lemma addClass_word c attribs :
  c <> "" -> has_space c = false ->
  exists s,
    addClass c attribs = <["class" := s]> attribs /\
    JSString.includes (" " +:+ s +:+ " ") (" " +:+ c +:+ " ") = true /\
    JSString.trim s = s.
Proof.
  intros Hne Hc. unfold addClass.
  replace (JSString.is_empty c) with false by by destruct c.
  unfold JSString.split_space.
  rewrite (split_space_token c false Hc (or_introl Hne)).
  assert (exists s,
            <["class" := JSString.trim (JSString.join [c] " ")]> attribs
              = <["class" := s]> attribs /\
            JSString.includes (" " +:+ s +:+ " ") (" " +:+ c +:+ " ") = true /\
            JSString.trim s = s) as Hfresh.
  { exists c. change (JSString.join [c] " ") with c.
    rewrite (trim_token c Hc). split; [done|]. split; [|done].
    apply includes_here, startsWith_refl. }
  destruct (attribs !! "class") as [[|y cls]|]; [done| |done].
  cbn [foldl]. unfold appendClass.
  destruct (JSString.includes (" " +:+ String y cls +:+ " ") (" " +:+ c +:+ " "))
    eqn:Hthere.
  - eexists. split; [done|]. split; [by apply includes_trim|apply trim_idemp].
  - eexists. split; [done|]. split; [|apply trim_idemp].
    apply includes_trim; [done..|].
    rewrite !append_assoc, <- (append_assoc " " (String y cls)).
    apply includes_app_r, includes_here, startsWith_refl.
Qed.

(** Once the name stands there, [addClass] changes nothing. *)
Lemma addClass_settled c s attribs :
  c <> "" -> has_space c = false ->
  attribs !! "class" = Some s ->
  JSString.includes (" " +:+ s +:+ " ") (" " +:+ c +:+ " ") = true ->
  JSString.trim s = s ->
  addClass c attribs = attribs.
Proof.
  intros Hne Hc Hclass Hthere Htrim. unfold addClass.
  replace (JSString.is_empty c) with false by by destruct c.
  unfold JSString.split_space.
  rewrite (split_space_token c false Hc (or_introl Hne)), Hclass.
  destruct s as [|y s].
  { apply includes_has_word in Hthere; [|done].
    destruct c as [|x c]; [done|]. unfold has_word in Hthere.
    cbn [has_word_from word_here JSString.startsWith andb orb] in Hthere.
    by rewrite andb_false_r in Hthere. }
  cbn [foldl]. unfold appendClass. rewrite Hthere, trim_pad, Htrim.
  by apply insert_id.
Qed.

Lemma addClass_idemp c attribs :
  c <> "" -> has_space c = false ->
  addClass c (addClass c attribs) = addClass c attribs.
Proof.
  intros Hne Hc. destruct (addClass_word c attribs Hne Hc) as (s & -> & Hthere & Htrim).
  apply (addClass_settled c s); try done. apply lookup_insert_eq.
Qed.

End ClassFacts.

(** ** External links *)

Lemma externalLink_canonical (attribs : gmap string string) :
  JSString.startsWith (attr_or_empty "href" attribs)
    "https://developer.mozilla.org" = true ->
  externalLink attribs = attribs.
Proof. intros Hmdn. unfold externalLink. by rewrite Hmdn. Qed.

Lemma externalLink_external (attribs : gmap string string) :
  JSString.startsWith (attr_or_empty "href" attribs)
    "https://developer.mozilla.org" = false ->
  let rel := attr_or_empty "rel" attribs in
  let attribs' := externalLink attribs in
  matches [[sel_class "external"]] "a" attribs' = true /\
  (exists rel', attribs' !! "rel" = Some rel' /\
                "noopener" ∈ JSString.split rel' " ") /\
  ("noopener" ∈ JSString.split rel " " -> attribs' !! "rel" = attribs !! "rel") /\
  ("noopener" ∉ JSString.split rel " " ->
   attribs' !! "rel" = Some (rel +:+ " noopener")) /\
  (forall k, k <> "class" -> k <> "rel" -> attribs' !! k = attribs !! k).
Proof.
  intros Hmdn rel attribs'. subst attribs'. unfold externalLink. rewrite Hmdn.
  destruct (addClass_word "external" attribs) as (s & -> & Hthere & _); [done..|].
  assert (attr_or_empty "rel" (<["class" := s]> attribs) = rel) as ->.
  { unfold rel, attr_or_empty. by rewrite lookup_insert_ne. }
  assert (matches [[sel_class "external"]] "a" (<["class" := s]> attribs) = true)
    as Hclass.
  { unfold matches. cbn [existsb forallb matches_simple].
    rewrite lookup_insert_eq, (includes_has_word "external" s); done. }
  case_bool_decide as Hrel.
  - split; [done|]. rewrite lookup_insert_ne by done.
    split; [|split; [done|split; [done|]]].
    + unfold rel, attr_or_empty in *. destruct (attribs !! "rel") as [r|]; [by exists r|].
      cbn in Hrel. by apply list_elem_of_singleton in Hrel.
    + intros k Hk _. by rewrite lookup_insert_ne.
  - assert (JSString.join (JSString.split rel " " ++ ["noopener"]) " "
            = rel +:+ " noopener") as ->.
    { rewrite join_snoc by apply split_nonempty. by rewrite join_split. }
    split.
    { unfold matches in *. cbn [existsb forallb matches_simple] in *.
      by rewrite lookup_insert_ne, lookup_insert_eq in * by done. }
    rewrite lookup_insert_eq.
    split; [|split; [done|split; [done|]]].
    + eexists. split; [done|].
      change (rel +:+ " noopener") with (rel +:+ " " +:+ "noopener").
      rewrite split_app. apply elem_of_app. right. by apply list_elem_of_here.
    + intros k Hclassk Hrelk. by rewrite !lookup_insert_ne.
Qed.

(** C8.  An [a] element whose [href] starts with "http" stays in its place
    in the tree, with its children passed through the same pass; if the
    [href] starts with "https://developer.mozilla.org" its attributes are
    unchanged; otherwise the element then matches [.external], its [rel]
    holds "noopener" among the pieces between spaces, a [rel] that held it
    already is unchanged, a [rel] that did not has " noopener" appended, and
    no attribute but [class] and [rel] changes. *)
Theorem external_links_annotated (t : tree) (path : list nat)
    (attribs : gmap string string) (children : tree) (href : string) :
  node_at path t = Some (Element "a" attribs children) ->
  attribs !! "href" = Some href ->
  JSString.startsWith href "http" = true ->
  exists attribs',
    node_at path (postProcessExternalLinks t)
      = Some (Element "a" attribs' (postProcessExternalLinks children)) /\
    (JSString.startsWith href "https://developer.mozilla.org" = true ->
     attribs' = attribs) /\
    (JSString.startsWith href "https://developer.mozilla.org" = false ->
     let rel := attr_or_empty "rel" attribs in
     matches [[sel_class "external"]] "a" attribs' = true /\
     (exists rel', attribs' !! "rel" = Some rel' /\
                   "noopener" ∈ JSString.split rel' " ") /\
     ("noopener" ∈ JSString.split rel " " -> attribs' !! "rel" = attribs !! "rel") /\
     ("noopener" ∉ JSString.split rel " " ->
      attribs' !! "rel" = Some (rel +:+ " noopener")) /\
     (forall k, k <> "class" -> k <> "rel" -> attribs' !! k = attribs !! k)).
Proof.
  intros Hnode Hhref Hhttp. exists (externalLink attribs).
  assert (attr_or_empty "href" attribs = href) as Hattr
    by (unfold attr_or_empty; by rewrite Hhref).
  split; [|split].
  - unfold postProcessExternalLinks. rewrite node_at_update, Hnode.
    cbn [fmap option_fmap option_map update_node]. do 2 f_equal.
    unfold matches. cbn [existsb forallb matches_simple].
    by rewrite Hhref, Hhttp.
  - intros Hmdn. apply externalLink_canonical. by rewrite Hattr.
  - intros Hmdn. apply externalLink_external. by rewrite Hattr.
Qed.

Lemma external_links_annotated_witness :
  node_at [0; 1] Sample.body
    = Some (Element "a" (Sample.attrs [("href", "https://example.com/css")])
              [Text "elsewhere"]) /\
  exists attribs',
    node_at [0; 1] (postProcessExternalLinks Sample.body)
      = Some (Element "a" attribs' [Text "elsewhere"]) /\
    matches [[sel_class "external"]] "a" attribs' = true /\
    attribs' !! "rel" = Some " noopener".
Proof.
  split; [reflexivity|].
  destruct (external_links_annotated Sample.body [0; 1]
              (Sample.attrs [("href", "https://example.com/css")])
              [Text "elsewhere"] "https://example.com/css")
    as (attribs' & Hnode & _ & Hexternal); [reflexivity..|].
  exists attribs'. split; [exact Hnode|].
  destruct (Hexternal eq_refl) as (Hclass & _ & _ & Hrel & _).
  split; [exact Hclass|]. apply Hrel. vm_compute. intros Hin.
  apply list_elem_of_singleton in Hin. discriminate.
Defined.

(** The two links of the specification. *)
Example external_links_examples :
  postProcessExternalLinks
    [Element "a" {[ "href" := "https://developer.mozilla.org/en-US/docs/Web" ]} [];
     Element "a" {[ "href" := "https://example.com" ]} []]
  = [Element "a" {[ "href" := "https://developer.mozilla.org/en-US/docs/Web" ]} [];
     Element "a" (<["class" := "external"]>
                  (<["rel" := " noopener"]> {[ "href" := "https://example.com" ]})) []].
Proof. by vm_compute. Qed.

(** ** Notecards *)

Section Notecards.

Implicit Types (c s : string) (attribs : gmap string string).

Lemma existsb_eqb c (l : list string) :
  existsb (String.eqb c) l = true <-> c ∈ l.
Proof.
  rewrite existsb_exists. split.
  - intros (x & Hin & ->%String.eqb_eq). by apply list_elem_of_In.
  - intros Hin. exists c. split; [by apply list_elem_of_In|apply String.eqb_refl].
Qed.

Lemma splitNames_trimmed s :
  s <> "" -> JSString.trim s = s -> splitNames (Some s) = JSString.split_space s.
Proof. intros Hne Htrim. unfold splitNames. rewrite Htrim. by destruct s. Qed.

(** [removeClass] with one class name. *)
Lemma removeClass_word c attribs :
  c <> "" -> has_space c = false ->
  removeClass c attribs =
  let elClasses := splitNames (attribs !! "class") in
  if existsb (String.eqb c) elClasses
  then <["class" := JSString.join (filter (fun x => x <> c) elClasses) " "]> attribs
  else attribs.
Proof.
  intros Hne Hc. unfold removeClass.
  rewrite (splitNames_trimmed c Hne (trim_token c Hc)).
  unfold JSString.split_space.
  rewrite (split_space_token c false Hc (or_introl Hne)).
  cbn [foldl existsb]. by rewrite orb_false_r.
Qed.

(** After [addClass("notecard").removeClass("blockIndicator")] neither
    method has anything left to do. *)
Lemma notecard_settled attribs :
  addClass "notecard" (notecard attribs) = notecard attribs /\
  removeClass "blockIndicator" (notecard attribs) = notecard attribs.
Proof.
  unfold notecard.
  destruct (addClass_word "notecard" attribs) as (s & -> & Hthere & Htrim); [done..|].
  assert (s <> "") as Hne.
  { intros ->. apply includes_has_word in Hthere; [|done]. discriminate. }
  rewrite !(removeClass_word "blockIndicator") by done.
  rewrite lookup_insert_eq, (splitNames_trimmed s Hne Htrim). cbv zeta.
  destruct (existsb (String.eqb "blockIndicator") (JSString.split_space s))
    eqn:Hblock.
  - set (kept := filter (fun x => x <> "blockIndicator") (JSString.split_space s)).
    assert (Forall (fun c => c <> "" /\ has_space c = false) kept) as Hwords.
    { assert (Forall (fun c => c <> "" /\ has_space c = false) (JSString.split_space s))
        as Hall by (rewrite <- Htrim; apply split_space_trim; by rewrite Htrim).
      rewrite Forall_forall in *. intros c [_ Hc]%list_elem_of_filter. by apply Hall. }
    assert ("notecard" ∈ kept) as Hin.
    { apply list_elem_of_filter. split; [done|].
      by apply includes_split_space. }
    assert (kept <> []) as Hkept by (intros Hnil; rewrite Hnil in Hin; by apply elem_of_nil in Hin).
    destruct (join_words_stable kept Hwords Hkept) as (Hjoin & _ & _).
    split.
    + apply (addClass_settled "notecard" (JSString.join kept " ")); try done.
      * apply lookup_insert_eq.
      * by apply includes_join_words.
      * by apply trim_join_words.
    + rewrite lookup_insert_eq.
      rewrite (splitNames_trimmed _ Hjoin (trim_join_words kept Hwords Hkept)).
      unfold JSString.split_space. rewrite (split_space_join_words kept false Hwords Hkept).
      destruct (existsb (String.eqb "blockIndicator") kept) eqn:Hstill; [|done].
      apply existsb_eqb, list_elem_of_filter in Hstill as [Hstill _]. done.
  - split.
    + apply (addClass_settled "notecard" s); try done. apply lookup_insert_eq.
    + by rewrite lookup_insert_eq, (splitNames_trimmed s Hne Htrim), Hblock.
Qed.

Lemma notecard_idemp attribs : notecard (notecard attribs) = notecard attribs.
Proof.
  destruct (notecard_settled attribs) as [Hadd Hremove].
  unfold notecard at 1. by rewrite Hadd.
Qed.

End Notecards.

(** C10.  A [div] whose class is "warning" comes out of the notecard
    normalizer with the class "warning notecard", wherever it stands in the
    tree; and running the normalizer on its own result changes nothing, for
    every tree. *)
Theorem notecard_added_once (t : tree) :
  (forall path attribs children,
     node_at path t = Some (Element "div" attribs children) ->
     attribs !! "class" = Some "warning" ->
     node_at path (injectNotecardOnWarnings t)
       = Some (Element "div" (<["class" := "warning notecard"]> attribs)
                 (injectNotecardOnWarnings children))) /\
  injectNotecardOnWarnings (injectNotecardOnWarnings t) = injectNotecardOnWarnings t.
Proof.
  split.
  - intros path attribs children Hnode Hclass.
    unfold injectNotecardOnWarnings. rewrite node_at_update, Hnode.
    cbn [fmap option_fmap option_map update_node]. do 2 f_equal.
    unfold matches. cbn [existsb forallb matches_simple]. rewrite Hclass.
    change (has_word "warning" "warning") with true.
    change ("div" =? "div")%string with true. cbn [andb orb].
    unfold notecard.
    assert (addClass "notecard" attribs = <["class" := "warning notecard"]> attribs)
      as ->.
    { unfold addClass. rewrite Hclass. reflexivity. }
    rewrite (removeClass_word "blockIndicator") by done.
    by rewrite lookup_insert_eq.
  - apply update_matching_idemp. intros name attribs once. subst once.
    destruct (matches _ name attribs) eqn:Hmatch.
    + rewrite notecard_idemp. by destruct (matches _ name (notecard attribs)).
    + by rewrite Hmatch.
Qed.

Lemma notecard_added_once_witness :
  node_at [1] (injectNotecardOnWarnings Sample.body)
    = Some (Element "div" {[ "class" := "warning notecard" ]} [Text "Careful."]) /\
  injectNotecardOnWarnings (injectNotecardOnWarnings Sample.body)
    = injectNotecardOnWarnings Sample.body.
Proof.
  destruct (notecard_added_once Sample.body) as [Hfirst Htwice].
  split; [|exact Htwice].
  exact (Hfirst [1] (Sample.attrs [("class", "warning")]) [Text "Careful."]
           eq_refl eq_refl).
Defined.

(** ** Flaw markers *)

Lemma prune_node_element (sel : selector) name attribs children :
  prune_node sel (Element name attribs children)
  = Element name attribs (remove_matching sel children).
Proof.
  simpl. f_equal. induction children as [|c children IH]; [done|].
  simpl. by rewrite IH.
Qed.

Lemma every_element_update P (sel : selector) f :
  (forall name attribs,
     P name attribs = true ->
     P name (if matches sel name attribs then f attribs else attribs) = true) ->
  forall n, every_element P n = true ->
            every_element P (update_node sel f n) = true.
Proof.
  intros Hf.
  induction n as [data|data|name attribs children IH] using node_induction;
    [done..|].
  simpl. intros [Hhere Hbelow]%andb_true_iff. apply andb_true_iff.
  split; [by apply Hf|].
  rewrite forallb_forall in *. intros n' [n [<- Hin]]%in_map_iff.
  rewrite Forall_forall in IH. apply IH; [by apply list_elem_of_In|by apply Hbelow].
Qed.

Lemma every_element_rewritten P (sel : selector) f :
  (forall name attribs,
     P name (if matches sel name attribs then f attribs else attribs) = true) ->
  forall n, every_element P (update_node sel f n) = true.
Proof.
  intros Hf.
  induction n as [data|data|name attribs children IH] using node_induction;
    [done..|].
  simpl. apply andb_true_iff. split; [by apply Hf|].
  rewrite forallb_forall. intros n' [n [<- Hin]]%in_map_iff.
  rewrite Forall_forall in IH. apply IH. by apply list_elem_of_In.
Qed.

Lemma every_element_remove P (sel : selector) (t : tree) :
  forallb (every_element P) t = true ->
  forallb (every_element P) (remove_matching sel t) = true.
Proof.
  revert t.
  assert (forall n, every_element P n = true ->
                    every_element P (prune_node sel n) = true) as Hnode.
  { induction n as [data|data|name attribs children IH] using node_induction;
      [done..|].
    rewrite prune_node_element. simpl.
    intros [Hhere Hbelow]%andb_true_iff. apply andb_true_iff. split; [done|].
    clear Hhere. induction children as [|c children IHchildren]; [done|].
    simpl in *. apply andb_true_iff in Hbelow as [Hc Hbelow].
    inversion IH as [|? ? IHc IHrest]; subst.
    destruct (selected sel c); [by apply IHchildren|].
    simpl. apply andb_true_iff. split; [by apply IHc|by apply IHchildren]. }
  induction t as [|c t IH]; [done|]. simpl.
  intros [Hc Ht]%andb_true_iff.
  destruct (selected sel c); [by apply IH|].
  simpl. apply andb_true_iff. split; [by apply Hnode|by apply IH].
Qed.

Lemma every_element_node_at P (t : tree) (path : list nat) name attribs children :
  forallb (every_element P) t = true ->
  node_at path t = Some (Element name attribs children) ->
  P name attribs = true.
Proof.
  revert t. induction path as [|i path IH]; intros t Hall Hnode; [done|].
  rewrite forallb_forall in Hall.
  destruct path as [|j path].
  - simpl in Hnode. apply list_elem_of_lookup_2, list_elem_of_In, Hall in Hnode.
    simpl in Hnode. by apply andb_true_iff in Hnode as [? _].
  - change (node_at (i :: j :: path) t)
      with (match t !! i with
            | Some (Element _ _ children) => node_at (j :: path) children
            | _ => None
            end) in Hnode.
    destruct (t !! i) as [[data|data|name' attribs' children']|] eqn:Hi; try done.
    apply list_elem_of_lookup_2, list_elem_of_In, Hall in Hi.
    simpl in Hi. apply andb_true_iff in Hi as [_ Hi]. by apply (IH children').
Qed.

Lemma removeFlawMarkers_unmarked (t : tree) : unmarked (removeFlawMarkers t) = true.
Proof.
  unfold unmarked, removeFlawMarkers, update_matching.
  rewrite forallb_forall. intros n' [n [<- _]]%in_map_iff.
  apply every_element_rewritten. intros name attribs.
  apply bool_decide_eq_true.
  unfold matches. cbn [existsb forallb matches_simple].
  rewrite andb_true_r, orb_false_r. case_bool_decide as Hmarked.
  - apply lookup_delete_eq.
  - by apply eq_None_not_Some.
Qed.

Lemma update_matching_unmarked (sel : selector) f (t : tree) :
  (forall attribs, attribs !! "data-flaw-src" = None ->
                   f attribs !! "data-flaw-src" = None) ->
  unmarked t = true -> unmarked (update_matching sel f t) = true.
Proof.
  intros Hf. unfold unmarked, update_matching. rewrite !forallb_forall.
  intros Hall n' [n [<- Hin]]%in_map_iff.
  apply every_element_update; [|by apply Hall].
  intros name attribs Hnone%bool_decide_eq_true. apply bool_decide_eq_true.
  destruct (matches sel name attribs); [by apply Hf|done].
Qed.

Lemma remove_matching_unmarked (sel : selector) (t : tree) :
  unmarked t = true -> unmarked (remove_matching sel t) = true.
Proof. apply every_element_remove. Qed.

Lemma removeFlawMarkers_node_at (t : tree) (path : list nat) :
  match node_at path t with
  | Some (Element name attribs children) =>
      node_at path (removeFlawMarkers t)
      = Some (Element name (delete "data-flaw-src" attribs)
                (removeFlawMarkers children))
  | other => node_at path (removeFlawMarkers t) = other
  end.
Proof.
  assert (node_at path (removeFlawMarkers t)
          = update_node [[sel_attr "data-flaw-src"]]
              (fun attribs => delete "data-flaw-src" attribs) <$> node_at path t)
    as Hnode by apply node_at_update.
  destruct (node_at path t) as [[data|data|name attribs children]|];
    rewrite Hnode; try done.
  cbn [fmap option_fmap option_map update_node]. do 2 f_equal.
  unfold matches. cbn [existsb forallb matches_simple].
  rewrite andb_true_r, orb_false_r. case_bool_decide as Hmarked; [done|].
  symmetry. by apply delete_id, eq_None_not_Some.
Qed.

Lemma addClass_other (value : string) (attribs : gmap string string) (k : string) :
  k <> "class" -> addClass value attribs !! k = attribs !! k.
Proof.
  intros Hk. unfold addClass. destruct (JSString.is_empty value); [done|].
  destruct (attribs !! "class") as [[|y cls]|]; by rewrite lookup_insert_ne.
Qed.

Lemma removeClass_other (value : string) (attribs : gmap string string) (k : string) :
  k <> "class" -> removeClass value attribs !! k = attribs !! k.
Proof.
  intros Hk. unfold removeClass. destruct (existsb _ _); [|done].
  by rewrite lookup_insert_ne.
Qed.

Lemma externalLink_other (attribs : gmap string string) (k : string) :
  k <> "class" -> k <> "rel" -> externalLink attribs !! k = attribs !! k.
Proof.
  intros Hclass Hrel. unfold externalLink.
  destruct (JSString.startsWith _ _); [done|]. case_bool_decide.
  - by apply addClass_other.
  - rewrite lookup_insert_ne by done. by apply addClass_other.
Qed.

(** The passes of the builder itself put no marker back. *)
Lemma postProcess_unmarked (t : tree) :
  unmarked t = true -> unmarked (postProcess t) = true.
Proof.
  intros Ht. unfold postProcess, injectNotecardOnWarnings, injectInPageCallout,
    postProcessExternalLinks, injectLoadingLazyAttributes, injectNoTranslate.
  apply update_matching_unmarked.
  { intros attribs Hnone. unfold notecard.
    by rewrite removeClass_other, addClass_other. }
  apply update_matching_unmarked.
  { intros attribs Hnone. by rewrite removeClass_other, addClass_other. }
  apply update_matching_unmarked.
  { intros attribs Hnone. by rewrite externalLink_other. }
  apply update_matching_unmarked.
  { intros attribs Hnone. by rewrite lookup_insert_ne. }
  apply update_matching_unmarked; [|done].
  intros attribs Hnone. by rewrite addClass_other.
Qed.

Lemma hideSiteCompatLinks_unmarked (t : tree) :
  unmarked t = true -> unmarked (hideSiteCompatLinks t) = true.
Proof.
  apply update_matching_unmarked. intros attribs Hnone.
  unfold hideSiteCompatLink. destruct (_ && _); [|done].
  by rewrite lookup_insert_ne.
Qed.

Lemma try_catch_rethrow_ok {Ext A} (m : M Ext A) (before : value -> M Ext unit)
    (w w' : World Ext) (a : A) :
  try_catch m (fun error => run! before error in throw error) w = (w', Ok a) ->
  m w = (w', Ok a).
Proof.
  unfold try_catch. destruct (m w) as [w1 [a1|e]]; [done|].
  unfold bind. destruct (before e w1) as [w2 [[]|e2]]; discriminate.
Qed.

Lemma loadTree_ignore {Ext} `{!Cheerio} (options : object) (renderedHtml : string)
    (w : World Ext) :
  macrosLevel options = inr (VString FLAW_LEVELS.IGNORE) ->
  loadTree options renderedHtml w =
  (w, Ok (remove_matching [[sel_tag "span"; sel_class "alllinks"]]
            (removeFlawMarkers
               (cheerio_load ("<div id=" +:+ dquote +:+ "_body" +:+ dquote +:+ ">"
                              +:+ renderedHtml +:+ "</div>"))))).
Proof. intros Hlevel. unfold loadTree. by rewrite Hlevel. Qed.



(** ** Live samples and the macro-flaw policy *)

Section Policy.

Context {Ext : Type}.
Context `{!Content Ext, !Kumascript Ext, !Chalk, !BuildOptions}.
Implicit Types (document : Document.t) (options doc : object) (w : World Ext)
  (flaws : list value).

(** The loop does what the specification tells. *)
Lemma collectLiveSamples_spec document (renderedHtml : string) flaws :
  let ids := getLiveSampleIDs (Document.slug (Document.metadata document))
               (Document.rawHTML document) in
  collectLiveSamples document renderedHtml flaws
  = (flaws ++ omap (sampleFlaw document renderedHtml) ids,
     omap (builtSample document renderedHtml) ids).
Proof.
  intros ids. unfold collectLiveSamples. fold ids.
  change (omap (builtSample document renderedHtml) ids)
    with ([] ++ omap (builtSample document renderedHtml) ids).
  generalize (@nil LiveSample.t) as samples. revert flaws.
  induction ids as [|sample ids IH]; intros flaws samples.
  - by rewrite !app_nil_r.
  - cbn [foldl omap list_omap]. unfold collectLiveSample at 2, sampleFlaw at 1, builtSample at 1.
    destruct (LiveSamplePage.flaw _) as [f|].
    + rewrite IH. by rewrite <- app_assoc.
    + rewrite IH. by rewrite <- app_assoc.
Qed.

Lemma newDoc_isArchive document :
  default VUndefined (newDoc document !! "isArchive")
  = VBool (Document.isArchive document).
Proof.
  unfold newDoc.
  rewrite !(lookup_insert_ne _ _ "isArchive") by done. by rewrite lookup_insert_eq.
Qed.

(** [renderDocument] on a document that is not archived, once the cache
    step and [render] have returned. *)
Lemma renderDocument_rendered options document w w0 w1
    (renderedHtml : string) flaws :
  Document.isArchive document = false ->
  (if truthy (default VUndefined (options !! "clearKumascriptRenderCache"))
   then renderCache_reset else ret tt) w = (w0, Ok tt) ->
  render (Document.url document) w0 = (w1, Ok (renderedHtml, flaws)) ->
  renderDocument options document (newDoc document) w
  = bind (applyMacroFlawPolicy options document (newDoc document)
            (fst (collectLiveSamples document renderedHtml flaws)))
         (fun doc => ret (renderedHtml,
                          snd (collectLiveSamples document renderedHtml flaws), doc))
         w1.
Proof.
  intros Harchive Hreset Hrender. unfold renderDocument.
  rewrite newDoc_isArchive, Harchive. cbn [truthy].
  rewrite (bind_ok _ _ _ _ _ Hreset).
  assert (try_catch (render (Document.url document)) (renderFailed document) w0
          = (w1, Ok (renderedHtml, flaws))) as Htry
    by (unfold try_catch; by rewrite Hrender).
  rewrite (bind_ok _ _ _ _ _ Htry). cbn [fst snd].
  by destruct (collectLiveSamples document renderedHtml flaws).
Qed.

Lemma beforeTree_policy_throws (documentOptions : object) document w w0 w1 w2
    (renderedHtml : string) flaws (e : value) :
  urlToFolderPath (Document.url document)
    = Document.folder (Document.fileInfo document) ->
  Document.isArchive document = false ->
  (if truthy (default VUndefined
                (mergeOptions documentOptions !! "clearKumascriptRenderCache"))
   then renderCache_reset else ret tt) w = (w0, Ok tt) ->
  render (Document.url document) w0 = (w1, Ok (renderedHtml, flaws)) ->
  applyMacroFlawPolicy (mergeOptions documentOptions) document (newDoc document)
    (fst (collectLiveSamples document renderedHtml flaws)) w1 = (w2, Throw e) ->
  beforeTree document documentOptions w = (w2, Throw e).
Proof.
  intros Hfolder Harchive Hreset Hrender Hpolicy. unfold beforeTree.
  rewrite Hfolder, String.eqb_refl. cbn [negb].
  apply bind_throw.
  rewrite (renderDocument_rendered _ _ _ _ _ _ _ Harchive Hreset Hrender).
  by apply bind_throw.
Qed.

Lemma world_eta w :
  Build_World (console w) (rootToGitBranchMap w) (ext w) = w.
Proof. by destruct w. Qed.

(** Under the "error" policy every flaw is printed, in order. *)
Lemma reportFlaws_printed (i : nat) flaws w :
  Forall (fun flaw => flaw <> VUndefined /\ flaw <> VNull) flaws ->
  reportFlaws i flaws w
  = (Build_World (console w ++ mjoin (imap (fun j => flawLines (i + j)) flaws))
       (rootToGitBranchMap w) (ext w),
     Ok tt).
Proof.
  intros Hflaws. revert i w.
  induction Hflaws as [|flaw flaws [Hundefined Hnull] _ IH]; intros i w.
  - cbn. by rewrite app_nil_r, world_eta.
  - cbn [reportFlaws]. rewrite imap_cons. cbn [mjoin list_join].
    assert (reportFlaw i flaw w
            = (Build_World (console w ++ flawLines i flaw)
                 (rootToGitBranchMap w) (ext w), Ok tt)) as Hone.
    { unfold reportFlaw, flawLines, bind, liftR, log, ret.
      destruct flaw; try done; cbn; by rewrite <- app_assoc. }
    rewrite (bind_ok _ _ _ _ _ Hone), IH. cbn [console rootToGitBranchMap ext].
    rewrite Nat.add_0_r, <- !app_assoc. do 5 f_equal.
    apply imap_ext. intros j flaw' _. cbn. by rewrite Nat.add_succ_r.
Qed.

Lemma applyMacroFlawPolicy_error options document doc flaws w :
  flaws <> [] ->
  macrosLevel options = inr (VString FLAW_LEVELS.ERROR) ->
  Forall (fun flaw => flaw <> VUndefined /\ flaw <> VNull) flaws ->
  applyMacroFlawPolicy options document doc flaws w
  = (Build_World
       (console w ++
        (console_error,
         VString (chalk_red_bold
                    ("Flaws (" +:+ pretty (length flaws) +:+ ") within "
                     +:+ Document.slug (Document.metadata document)
                     +:+ " while rendering macros:")))
        :: mjoin (imap flawLines flaws))
       (rootToGitBranchMap w) (ext w),
     Throw (mkError "Flaw error encountered")).
Proof.
  intros Hne Hlevel Hflaws. unfold applyMacroFlawPolicy.
  destruct flaws as [|flaw flaws]; [done|]. rewrite Hlevel.
  cbn [liftR]. unfold bind at 1, ret at 1.
  change (isString (VString FLAW_LEVELS.ERROR) FLAW_LEVELS.ERROR) with true.
  cbv iota. unfold bind at 1, log at 1.
  rewrite (bind_ok _ _ _ _ _ (reportFlaws_printed 0 _ _ Hflaws)).
  unfold throw. cbn [console rootToGitBranchMap ext].
  by rewrite <- app_assoc.
Qed.

Lemma applyMacroFlawPolicy_error_throws options document doc flaws w :
  flaws <> [] ->
  macrosLevel options = inr (VString FLAW_LEVELS.ERROR) ->
  exists w' e, applyMacroFlawPolicy options document doc flaws w = (w', Throw e).
Proof.
  intros Hne Hlevel. unfold applyMacroFlawPolicy.
  destruct flaws as [|flaw flaws]; [done|]. rewrite Hlevel.
  cbn [liftR]. unfold bind at 1, ret at 1.
  change (isString (VString FLAW_LEVELS.ERROR) FLAW_LEVELS.ERROR) with true.
  cbv iota. unfold bind at 1, log at 1. unfold bind.
  destruct (reportFlaws 0 (flaw :: flaws) _) as [w' [[]|e]]; by eexists _, _.
Qed.

Lemma applyMacroFlawPolicy_warn options document flaws w :
  flaws <> [] ->
  macrosLevel options = inr (VString FLAW_LEVELS.WARN) ->
  applyMacroFlawPolicy options document (newDoc document) flaws w
  = match beefUpAll document 0 flaws with
    | inr macros =>
        (w, Ok (<["flaws" := VObject {[ "macros" := VArray macros ]}]>
                  (newDoc document)))
    | inl e => (w, Throw e)
    end.
Proof.
  intros Hne Hlevel. unfold applyMacroFlawPolicy.
  destruct flaws as [|flaw flaws]; [done|]. rewrite Hlevel.
  cbn [liftR]. unfold bind at 1, ret at 1.
  change (isString (VString FLAW_LEVELS.WARN) FLAW_LEVELS.ERROR) with false.
  change (isString (VString FLAW_LEVELS.WARN) FLAW_LEVELS.WARN) with true.
  cbv iota. unfold bind.
  destruct (beefUpAll document 0 (flaw :: flaws)) as [e|macros]; [done|].
  cbn [liftR]. unfold ret, setFlawsMacros, newDoc.
  rewrite lookup_insert_eq. cbn [default]. by rewrite insert_empty.
Qed.

Lemma applyMacroFlawPolicy_ignore options document doc flaws w :
  macrosLevel options = inr (VString FLAW_LEVELS.IGNORE) ->
  applyMacroFlawPolicy options document doc flaws w = (w, Ok doc).
Proof.
  intros Hlevel. unfold applyMacroFlawPolicy.
  destruct flaws as [|flaw flaws]; [done|]. by rewrite Hlevel.
Qed.

(** What the "warn" policy stores: one entry per flaw, in order, each with
    the properties of the flaw it comes from. *)
Lemma beefUp_keeps document (i : nat) (flaw beefed : value) :
  beefUp document i flaw = inr beefed ->
  exists props props',
    flaw = VObject props /\ beefed = VObject props' /\ props ⊆ props'.
Proof.
  unfold beefUp, andThen. intros Hbeef.
  destruct (getProp flaw "name") as [e|name]; [done|].
  match type of Hbeef with
  | match ?c with _ => _ end = _ => destruct c as [e|computed]
  end; [done|].
  destruct (getProp flaw "error") as [e|inner]; [done|].
  destruct (getProp inner "message") as [e|explanation]; [done|].
  destruct flaw as [| | | | | |props]; try done.
  injection Hbeef as <-. eexists _, _. split; [done|]. split; [done|].
  apply map_union_subseteq_l.
Qed.

Lemma beefUpAll_lookup document (i : nat) flaws (macros : list value) :
  beefUpAll document i flaws = inr macros ->
  length macros = length flaws /\
  forall j flaw, flaws !! j = Some flaw ->
    exists beefed, macros !! j = Some beefed /\
                   beefUp document (i + j) flaw = inr beefed.
Proof.
  revert i macros. induction flaws as [|flaw flaws IH]; intros i macros Hall.
  - injection Hall as <-. split; [done|]. intros j flaw' Hj. done.
  - cbn [beefUpAll] in Hall.
    destruct (beefUp document i flaw) as [e|beefed] eqn:Hone; [done|].
    destruct (beefUpAll document (S i) flaws) as [e|rest] eqn:Hrest; [done|].
    injection Hall as <-. destruct (IH _ _ Hrest) as [Hlength Hlookup].
    split; [cbn; by rewrite Hlength|].
    intros [|j] flaw' Hj.
    + injection Hj as <-. exists beefed. by rewrite Nat.add_0_r.
    + destruct (Hlookup j flaw' Hj) as (beefed' & Hat & Hbeef).
      exists beefed'. split; [done|]. by rewrite Nat.add_succ_r.
Qed.

Lemma renderFailed_throws {A} document (error : value) w :
  exists w' e, @renderFailed Ext _ A document error w = (w', Throw e).
Proof.
  unfold renderFailed, bind, liftR.
  destruct (getProp error "name") as [e|name]; [by eexists _, _|]. cbn.
  destruct (isString name "MacroInvocationError"); [|by eexists _, _].
  repeat match goal with
         | |- context [getProp ?v ?k] =>
             destruct (getProp v k) as [?|?]; cbn; [by eexists _, _|]
         end.
  by eexists _, _.
Qed.

Lemma renderDocument_inv options document w w' (renderedHtml : string)
    (samples : list LiveSample.t) doc :
  Document.isArchive document = false ->
  renderDocument options document (newDoc document) w
    = (w', Ok (renderedHtml, samples, doc)) ->
  exists w0 w1 flaws,
    render (Document.url document) w0 = (w1, Ok (renderedHtml, flaws)) /\
    samples = snd (collectLiveSamples document renderedHtml flaws) /\
    applyMacroFlawPolicy options document (newDoc document)
      (fst (collectLiveSamples document renderedHtml flaws)) w1 = (w', Ok doc).
Proof.
  intros Harchive Hrender. unfold renderDocument in Hrender.
  rewrite newDoc_isArchive, Harchive in Hrender. cbn [truthy] in Hrender.
  step_ok Hrender as [] Hreset.
  step_ok Hrender as [html flaws] Htry.
  unfold try_catch in Htry.
  destruct (render (Document.url document) _) as [w1 [[html' flaws']|e]] eqn:Hcall.
  - injection Htry as -> -> ->. cbn [fst snd] in Hrender.
    destruct (collectLiveSamples document html flaws) as [allFlaws built] eqn:Hloop.
    step_ok Hrender as doc1 Hpolicy.
    apply ret_inv in Hrender as [-> [= -> -> ->]].
    eexists _, _, flaws. rewrite Hloop. split; [exact Hcall|]. by split.
  - destruct (renderFailed_throws (A := string * list value) document e w1)
      as (w2 & e2 & Hfailed).
    rewrite Hfailed in Htry. discriminate.
Qed.

Lemma beforeTree_inv (documentOptions : object) document w w'
    options (renderedHtml : string) (samples : list LiveSample.t) doc :
  beforeTree document documentOptions w = (w', Ok (options, renderedHtml, samples, doc)) ->
  options = mergeOptions documentOptions /\
  renderDocument (mergeOptions documentOptions) document (newDoc document) w
    = (w', Ok (renderedHtml, samples, doc)).
Proof.
  unfold beforeTree. destruct (negb _); [done|]. intros Hbefore.
  step_ok Hbefore as [[html built] doc1] Hrender.
  step_ok Hbefore as [] Hslug.
  apply ret_inv in Hbefore as [-> [= -> -> -> ->]].
  split; [done|]. rewrite Hrender. f_equal.
  unfold validateSlug in Hslug.
  repeat match type of Hslug with
         | (if ?b then _ else _) _ = _ => destruct b; [discriminate|]
         end.
  by apply ret_inv in Hslug as [-> _].
Qed.

End Policy.

Lemma buildDocument_inv {Ext}
    `{!Content Ext, !Kumascript Ext, !Chalk, !Cheerio, !BuildOptions,
      !BuildModules Ext}
    (document : Document.t) (documentOptions : object) (w w' : World Ext)
    (out : BuildResult) :
  buildDocument document documentOptions w = (w', Ok out) ->
  exists w1 (renderedHtml : string) doc1,
    renderDocument (mergeOptions documentOptions) document (newDoc document) w
      = (w1, Ok (renderedHtml, liveSamples out, doc1)).
Proof.
  intros Hbuild. unfold buildDocument in Hbuild.
  step_ok Hbuild as [[[options renderedHtml] samples] doc0] Hbefore.
  step_ok Hbuild as [[doc1 t] attachments] Hprepare.
  step_ok Hbuild as [doc2 bcd] Hdescribe.
  apply ret_inv in Hbuild as [_ ->]. cbn [liveSamples].
  apply beforeTree_inv in Hbefore as [_ Hrender]. by eexists _, _, _.
Qed.

Lemma buildDocument_policy_throws {Ext}
    `{!Content Ext, !Kumascript Ext, !Chalk, !Cheerio, !BuildOptions,
      !BuildModules Ext}
    (document : Document.t) (documentOptions : object) (w w0 w1 w2 : World Ext)
    (renderedHtml : string) (flaws : list value) (e : value) :
  urlToFolderPath (Document.url document)
    = Document.folder (Document.fileInfo document) ->
  Document.isArchive document = false ->
  (if truthy (default VUndefined
                (mergeOptions documentOptions !! "clearKumascriptRenderCache"))
   then renderCache_reset else ret tt) w = (w0, Ok tt) ->
  render (Document.url document) w0 = (w1, Ok (renderedHtml, flaws)) ->
  applyMacroFlawPolicy (mergeOptions documentOptions) document (newDoc document)
    (fst (collectLiveSamples document renderedHtml flaws)) w1 = (w2, Throw e) ->
  buildDocument document documentOptions w = (w2, Throw e).
Proof.
  intros Hfolder Harchive Hreset Hrender Hpolicy. unfold buildDocument.
  apply bind_throw.
  by apply (beforeTree_policy_throws _ _ _ _ _ _ _ _ _ Hfolder Harchive Hreset Hrender).
Qed.

(** C4.  For a document that is not archived, whose folder matches its URL
    and that the macro engine renders with at least one flaw: when the
    level for macro flaws is "error", [buildDocument] throws
    [Error("Flaw error encountered")] and returns no result; before that it
    prints a heading and then two lines for every flaw found, in order: the
    flaws of the macro engine first, the flaws of the live samples after
    them. *)
Theorem macro_flaws_fatal {Ext}
    `{!Content Ext, !Kumascript Ext, !Chalk, !Cheerio, !BuildOptions,
      !BuildModules Ext}
    (document : Document.t) (documentOptions : object) (w w0 w1 : World Ext)
    (renderedHtml : string) (flaws : list value) :
  let allFlaws :=
    flaws ++ omap (sampleFlaw document renderedHtml)
               (getLiveSampleIDs (Document.slug (Document.metadata document))
                  (Document.rawHTML document)) in
  urlToFolderPath (Document.url document)
    = Document.folder (Document.fileInfo document) ->
  Document.isArchive document = false ->
  (if truthy (default VUndefined
                (mergeOptions documentOptions !! "clearKumascriptRenderCache"))
   then renderCache_reset else ret tt) w = (w0, Ok tt) ->
  render (Document.url document) w0 = (w1, Ok (renderedHtml, flaws)) ->
  macrosLevel (mergeOptions documentOptions) = inr (VString FLAW_LEVELS.ERROR) ->
  flaws <> [] ->
  Forall (fun flaw => flaw <> VUndefined /\ flaw <> VNull) allFlaws ->
  buildDocument document documentOptions w
  = (Build_World
       (console w1 ++
        (console_error,
         VString (chalk_red_bold
                    ("Flaws (" +:+ pretty (length allFlaws) +:+ ") within "
                     +:+ Document.slug (Document.metadata document)
                     +:+ " while rendering macros:")))
        :: mjoin (imap flawLines allFlaws))
       (rootToGitBranchMap w1) (ext w1),
     Throw (mkError "Flaw error encountered")).
Proof.
  intros allFlaws Hfolder Harchive Hreset Hrender Hlevel Hne Hobjects.
  apply (buildDocument_policy_throws _ _ _ _ _ _ _ _ _
           Hfolder Harchive Hreset Hrender).
  rewrite collectLiveSamples_spec. cbn [fst]. fold allFlaws.
  apply applyMacroFlawPolicy_error; [|done..].
  unfold allFlaws. by destruct flaws.
Qed.

Lemma macro_flaws_fatal_witness :
  buildDocument Sample.document (Sample.options "error") Sample.world
  = (Build_World
       [(console_error, VString "Flaws (2) within Web/CSS while rendering macros:");
        (console_error, VString "1: MacroDeprecatedError");
        (console_error, VString ("MacroDeprecatedError" +:+ newline));
        (console_error, VString "2: MacroLiveSampleError");
        (console_error, VString ("MacroLiveSampleError" +:+ newline))]
       ∅ tt,
     Throw (mkError "Flaw error encountered")).
Proof.
  refine (eq_trans
            (macro_flaws_fatal Sample.document (Sample.options "error")
               Sample.world Sample.world Sample.world
               ("<p data-flaw-src=" +:+ String "034" "x" +:+ String "034" "></p>")
               [Sample.deprecated] _ _ _ _ _ _ _) _).
  - reflexivity.
  - reflexivity.
  - reflexivity.
  - reflexivity.
  - reflexivity.
  - discriminate.
  - vm_compute. repeat constructor; discriminate.
  - vm_compute. reflexivity.
Defined.

(** ** Macro flaws that reach the returned document *)

Section FlawsMacros.

Context {Ext : Type}.
Context `{!Content Ext, !Kumascript Ext, !Chalk, !Cheerio, !BuildOptions,
          !BuildModules Ext, !KeepsFlawsMacros}.

Lemma getFlawsMacros_insert_ne (doc : object) (key : string) (v : value) :
  key <> "flaws" -> getFlawsMacros (<[key := v]> doc) = getFlawsMacros doc.
Proof. intros Hkey. unfold getFlawsMacros. by rewrite lookup_insert_ne. Qed.

Lemma injectSource_keeps_macros (doc doc' : object) (document : Document.t)
    (metadata : Document.Metadata) (w w' : World Ext) :
  injectSource doc document metadata w = (w', Ok doc') ->
  getFlawsMacros doc' = getFlawsMacros doc.
Proof.
  intros Hinject. unfold getFlawsMacros.
  by rewrite (injectSource_keeps _ _ _ _ _ _ "flaws" Hinject).
Qed.

Lemma prepareTree_keeps_macros (options : object) (document : Document.t)
    (doc doc' : object) (renderedHtml : string) (t' : tree) (attachments : value)
    (w w' : World Ext) :
  prepareTree options document doc renderedHtml w = (w', Ok (doc', t', attachments)) ->
  getFlawsMacros doc' = getFlawsMacros doc.
Proof.
  intros Hprepare. unfold prepareTree in Hprepare.
  step_ok Hprepare as t0 Hload.
  step_ok Hprepare as native Hnativename.
  step_ok Hprepare as [sidebarHTML t1] Hstep1.
  step_ok Hprepare as [[fileAttachments doc2] t2] Hstep2.
  step_ok Hprepare as [doc3 t3] Hstep3.
  step_ok Hprepare as [doc4 t4] Hstep4.
  step_ok Hprepare as doc5 Hstep5.
  step_ok Hprepare as [t6 doc6] Hstep6.
  apply ret_inv in Hprepare as [_ [= -> -> ->]].
  apply try_catch_rethrow_ok in Hstep4.
  apply (try_catch_rethrow_ok _ (log console_error)) in Hstep5.
  rewrite (syntaxHighlight_keeps_macros _ _ _ _ _ _ Hstep6).
  rewrite (fixFixableFlaws_keeps_macros _ _ _ _ _ _ Hstep5).
  rewrite (injectFlaws_keeps_macros _ _ _ _ _ _ _ _ Hstep4).
  rewrite (checkImageWidths_keeps_macros _ _ _ _ _ _ _ _ Hstep3).
  rewrite (checkImageReferences_keeps_macros _ _ _ _ _ _ _ _ _ Hstep2).
  by rewrite !getFlawsMacros_insert_ne.
Qed.

Lemma describe_keeps_macros (options : object) (document : Document.t)
    (doc doc' : object) (t : tree) (bcd : value) (w w' : World Ext) :
  describe options document doc t w = (w', Ok (doc', bcd)) ->
  getFlawsMacros doc' = getFlawsMacros doc.
Proof.
  intros Hdescribe. unfold describe in Hdescribe.
  step_ok Hdescribe as [[sections sectionFlaws] t'] Hsections.
  step_ok Hdescribe as doc1 Hflaws.
  step_ok Hdescribe as toc Htocs.
  step_ok Hdescribe as summary Hsummaries.
  step_ok Hdescribe as doc2 Hbcdurls.
  step_ok Hdescribe as [bcd' doc3] Hbcd.
  step_ok Hdescribe as translations Htranslations.
  step_ok Hdescribe as doc4 Hsources.
  step_ok Hdescribe as doc5 Hparents.
  step_ok Hdescribe as [pageTitle doc6] Hpages.
  apply ret_inv in Hdescribe as [_ [= -> ->]].
  rewrite getFlawsMacros_insert_ne by done.
  rewrite (getPageTitle_keeps_macros _ _ _ _ _ Hpages).
  rewrite (addBreadcrumbData_keeps_macros _ _ _ _ _ Hparents).
  rewrite (injectSource_keeps_macros _ _ _ _ _ _ Hsources).
  assert (getFlawsMacros doc3 = getFlawsMacros doc) as Hdoc3.
  { rewrite (extractBCDData_keeps_macros _ _ _ _ _ Hbcd).
    rewrite (normalizeBCDURLs_keeps_macros _ _ _ _ _ Hbcdurls).
    rewrite !getFlawsMacros_insert_ne by done.
    destruct sectionFlaws as [|sectionFlaw sectionFlaws].
    - apply ret_inv in Hflaws as [_ ->]. by rewrite getFlawsMacros_insert_ne.
    - rewrite (injectSectionFlaws_keeps_macros _ _ _ _ _ _ Hflaws).
      by rewrite getFlawsMacros_insert_ne. }
  destruct translations; by rewrite !getFlawsMacros_insert_ne.
Qed.

(** [doc.flaws.macros] of the returned document is what the macro-flaw
    policy left. *)
Lemma buildDocument_keeps_macros (document : Document.t) (documentOptions : object)
    (w w' : World Ext) (out : BuildResult) :
  buildDocument document documentOptions w = (w', Ok out) ->
  exists w1 (renderedHtml : string) doc1,
    renderDocument (mergeOptions documentOptions) document (newDoc document) w
      = (w1, Ok (renderedHtml, liveSamples out, doc1)) /\
    getFlawsMacros (doc out) = getFlawsMacros doc1.
Proof.
  intros Hbuild. unfold buildDocument in Hbuild.
  step_ok Hbuild as [[[options renderedHtml] samples] doc0] Hbefore.
  step_ok Hbuild as [[doc1 t] attachments] Hprepare.
  step_ok Hbuild as [doc2 bcd] Hdescribe.
  apply ret_inv in Hbuild as [_ ->]. cbn [doc liveSamples].
  apply beforeTree_inv in Hbefore as [-> Hrender].
  eexists _, renderedHtml, doc0. split; [done|].
  rewrite getFlawsMacros_insert_ne by done.
  rewrite (describe_keeps_macros _ _ _ _ _ _ _ _ Hdescribe).
  by rewrite (prepareTree_keeps_macros _ _ _ _ _ _ _ _ _ Hprepare).
Qed.

End FlawsMacros.

(** The build modules of the sample leave [doc] alone. *)
Lemma sample_keeps_macros : KeepsFlawsMacros (Ext := unit).
Proof. split; cbn; unfold ret; intros; by simplify_eq. Qed.






(** ** Looking a live sample up *)

Section Lookup.

Context {Ext : Type}.
Context `{!Content Ext, !Kumascript Ext}.

Lemma findLiveSample_found (document : Document.t) (documentURL sampleID : string)
    (ids : list SampleIdObject.t) (i : nat) (sample : SampleIdObject.t)
    (w w1 : World Ext) (renderedHtml : string) (flaws : list value) :
  let page :=
    buildLiveSamplePage (Document.url document)
      (Document.title (Document.metadata document)) renderedHtml sample in
  ids !! i = Some sample ->
  JSString.toLowerCase (SampleIdObject.id sample) = sampleID ->
  (forall j earlier, j < i -> ids !! j = Some earlier ->
     JSString.toLowerCase (SampleIdObject.id earlier) <> sampleID) ->
  render (Document.url document) w = (w1, Ok (renderedHtml, flaws)) ->
  LiveSamplePage.flaw page = None ->
  findLiveSample document documentURL (Some sampleID) ids w
  = (w1, Ok (LiveSamplePage.html page)).
Proof.
  intros page Hi Hid Hfirst Hrender Hflaw. revert i Hi Hfirst.
  induction ids as [|head ids IH]; intros i Hi Hfirst; [done|].
  cbn [findLiveSample]. destruct i as [|i].
  - injection Hi as ->. rewrite bool_decide_eq_true_2 by by rewrite Hid.
    rewrite (bind_ok _ _ _ _ _ Hrender). cbn [fst]. fold page. by rewrite Hflaw.
  - rewrite bool_decide_eq_false_2.
    + apply (IH i); [done|]. intros j earlier Hj Hearlier.
      apply (Hfirst (S j)); [lia|done].
    + intros [= Hhead]. by apply (Hfirst 0 head); [lia| |].
Qed.

Lemma findLiveSample_missing (document : Document.t) (documentURL : string)
    (sampleID : option string) (ids : list SampleIdObject.t) (w : World Ext) :
  (forall sample, sample ∈ ids ->
     Some (JSString.toLowerCase (SampleIdObject.id sample)) <> sampleID) ->
  findLiveSample document documentURL sampleID ids w
  = (w, Throw (mkError ("No live-sample " +:+ dquote
                        +:+ default "undefined" sampleID +:+ dquote
                        +:+ " found within " +:+ documentURL))).
Proof.
  induction ids as [|head ids IH]; intros Hmissing; [done|].
  cbn [findLiveSample]. rewrite bool_decide_eq_false_2.
  - apply IH. intros sample Hin. apply Hmissing. by apply list_elem_of_further.
  - apply Hmissing, list_elem_of_here.
Qed.

End Lookup.

(** C1, as the code has it.  What [buildDocument] stores for a declared
    sample that builds is the lower-cased id, and every stored id is the
    lower-cased id of such a sample.  [buildLiveSamplePageFromURL] compares
    the id of the URL with the lower-cased declared ids: an id that is the
    lower-cased id of a declared sample resolves to the first such sample,
    and an id that is the lower-cased id of none fails with the not-found
    error. *)
Theorem live_sample_ids_lower_cased {Ext}
    `{!Content Ext, !Kumascript Ext, !Chalk, !Cheerio, !BuildOptions,
      !BuildModules Ext}
    (document : Document.t) (documentOptions : object) (w w' w1 : World Ext)
    (out : BuildResult) (url documentURL sampleID : string) :
  let ids := getLiveSampleIDs (Document.slug (Document.metadata document))
               (Document.rawHTML document) in
  let page renderedHtml sample :=
    buildLiveSamplePage (Document.url document)
      (Document.title (Document.metadata document)) renderedHtml sample in
  (buildDocument document documentOptions w = (w', Ok out) ->
   Document.isArchive document = false ->
   exists w0 w2 renderedHtml flaws,
     render (Document.url document) w0 = (w2, Ok (renderedHtml, flaws)) /\
     (forall sample,
        sample ∈ ids ->
        LiveSamplePage.flaw (page renderedHtml sample) = None ->
        {| LiveSample.id := JSString.toLowerCase (SampleIdObject.id sample);
           LiveSample.html := LiveSamplePage.html (page renderedHtml sample) |}
          ∈ liveSamples out) /\
     (forall built,
        built ∈ liveSamples out ->
        exists sample,
          sample ∈ ids /\
          LiveSamplePage.flaw (page renderedHtml sample) = None /\
          LiveSample.id built = JSString.toLowerCase (SampleIdObject.id sample))) /\
  (JSString.split url "/_samples_/" !! 0 = Some documentURL ->
   JSString.split url "/_samples_/" !! 1 = Some sampleID ->
   findByURL documentURL w = (w1, Ok (Some document)) ->
   (forall i sample w2 renderedHtml flaws,
      ids !! i = Some sample ->
      JSString.toLowerCase (SampleIdObject.id sample) = sampleID ->
      (forall j earlier, j < i -> ids !! j = Some earlier ->
         JSString.toLowerCase (SampleIdObject.id earlier) <> sampleID) ->
      render (Document.url document) w1 = (w2, Ok (renderedHtml, flaws)) ->
      LiveSamplePage.flaw (page renderedHtml sample) = None ->
      buildLiveSamplePageFromURL url w
      = (w2, Ok (LiveSamplePage.html (page renderedHtml sample)))) /\
   ((forall sample, sample ∈ ids ->
       JSString.toLowerCase (SampleIdObject.id sample) <> sampleID) ->
    buildLiveSamplePageFromURL url w
    = (w1, Throw (mkError ("No live-sample " +:+ dquote +:+ sampleID +:+ dquote
                           +:+ " found within " +:+ documentURL))))).
Proof.
  intros ids page. split.
  - intros Hbuild Harchive.
    apply buildDocument_inv in Hbuild as (w2 & renderedHtml & doc1 & Hrender).
    apply renderDocument_inv in Hrender as (w3 & w4 & flaws & Hcall & Hsamples & _);
      [|done].
    rewrite collectLiveSamples_spec in Hsamples. cbn [snd] in Hsamples.
    exists w3, w4, renderedHtml, flaws. split; [done|]. rewrite Hsamples. split.
    + intros sample Hin Hflaw. apply list_elem_of_omap. exists sample.
      split; [done|]. unfold builtSample. fold (page renderedHtml sample).
      by rewrite Hflaw.
    + intros built (sample & Hin & Hbuilt)%list_elem_of_omap.
      exists sample. split; [done|]. unfold builtSample in Hbuilt.
      fold (page renderedHtml sample) in Hbuilt.
      destruct (LiveSamplePage.flaw (page renderedHtml sample)); [done|].
      by injection Hbuilt as <-.
  - intros Hurl Hid Hfound.
    assert (forall k : option Document.t -> M Ext string,
              bind (findByURL documentURL) k w = k (Some document) w1) as Hbind
      by (intros k; by apply bind_ok).
    split.
    + intros i sample w2 renderedHtml flaws Hi Hlower Hfirst Hrender Hflaw.
      unfold buildLiveSamplePageFromURL. rewrite Hurl, Hid. cbn [default].
      rewrite Hbind.
      by apply (findLiveSample_found document documentURL sampleID ids i sample
                  w1 w2 renderedHtml flaws).
    + intros Hmissing.
      unfold buildLiveSamplePageFromURL. rewrite Hurl, Hid. cbn [default].
      rewrite Hbind.
      rewrite (findLiveSample_missing document documentURL (Some sampleID) ids w1);
        [done|].
      intros sample Hin [= Heq]. by apply (Hmissing sample).
Qed.

Lemma live_sample_ids_lower_cased_witness :
  buildLiveSamplePageFromURL "/en-US/Web/CSS/_samples_/good_sample" Sample.world
    = (Sample.world, Ok "<html>Good_Sample</html>") /\
  buildLiveSamplePageFromURL "/en-US/Web/CSS/_samples_/missing" Sample.world
    = (Sample.world,
       Throw (mkError ("No live-sample " +:+ dquote +:+ "missing" +:+ dquote
                       +:+ " found within /en-US/Web/CSS"))) /\
  exists w' out,
    buildDocument Sample.document ∅ Sample.world = (w', Ok out) /\
    {| LiveSample.id := "good_sample"; LiveSample.html := "<html>Good_Sample</html>" |}
      ∈ liveSamples out.
Proof.
  split; [|split].
  - destruct (live_sample_ids_lower_cased Sample.document ∅ Sample.world
                Sample.world Sample.world
                {| doc := ∅; liveSamples := []; fileAttachments := VNull;
                   bcdData := VNull |}
                "/en-US/Web/CSS/_samples_/good_sample" "/en-US/Web/CSS"
                "good_sample") as [_ Hlookup].
    destruct (Hlookup eq_refl eq_refl eq_refl) as [Hfound _].
    apply (Hfound 0 Sample.goodId Sample.world
             ("<p data-flaw-src=" +:+ String "034" "x" +:+ String "034" "></p>")
             [Sample.deprecated]); try reflexivity.
    intros j earlier Hj. lia.
  - destruct (live_sample_ids_lower_cased Sample.document ∅ Sample.world
                Sample.world Sample.world
                {| doc := ∅; liveSamples := []; fileAttachments := VNull;
                   bcdData := VNull |}
                "/en-US/Web/CSS/_samples_/missing" "/en-US/Web/CSS"
                "missing") as [_ Hlookup].
    destruct (Hlookup eq_refl eq_refl eq_refl) as [_ Hmissing].
    apply Hmissing. intros sample Hin. vm_compute in Hin.
    repeat (apply elem_of_cons in Hin as [-> | Hin]; [discriminate|]).
    by apply elem_of_nil in Hin.
  - destruct (buildDocument Sample.document ∅ Sample.world)
      as [w' [out|e]] eqn:Hbuild; [|vm_compute in Hbuild; discriminate].
    exists w', out. split; [reflexivity|].
    destruct (live_sample_ids_lower_cased Sample.document ∅ Sample.world w'
                Sample.world out "" "" "") as [Hstored _].
    destruct (Hstored Hbuild eq_refl)
      as (w0 & w2 & renderedHtml & flaws & Hrender & Hbuilt & _).
    injection Hrender as _ <- _.
    apply (Hbuilt Sample.goodId); [left | reflexivity].
Defined.

(** C1, as the specification has it, fails: the sample declared as
    "Good_Sample" builds, yet no live sample that [buildDocument] returns
    has that id (it is stored as "good_sample"); and looking up
    "GOOD_SAMPLE", which differs from the declared id in case only, fails
    with the not-found error. *)
Lemma live_sample_case_not_preserved :
  (exists w' out,
     buildDocument Sample.document ∅ Sample.world = (w', Ok out) /\
     Sample.goodId ∈ getLiveSampleIDs "Web/CSS" (Document.rawHTML Sample.document) /\
     LiveSamplePage.flaw
       (buildLiveSamplePage "/en-US/Web/CSS" "CSS"
          ("<p data-flaw-src=" +:+ String "034" "x" +:+ String "034" "></p>")
          Sample.goodId) = None /\
     forall built, built ∈ liveSamples out ->
                   LiveSample.id built <> SampleIdObject.id Sample.goodId) /\
  JSString.toLowerCase "GOOD_SAMPLE"
    = JSString.toLowerCase (SampleIdObject.id Sample.goodId) /\
  buildLiveSamplePageFromURL "/en-US/Web/CSS/_samples_/GOOD_SAMPLE" Sample.world
    = (Sample.world,
       Throw (mkError ("No live-sample " +:+ dquote +:+ "GOOD_SAMPLE" +:+ dquote
                       +:+ " found within /en-US/Web/CSS"))).
Proof.
  split; [|split; [reflexivity|by vm_compute]].
  eexists _, _. split; [vm_compute; reflexivity|].
  split; [left|]. split; [reflexivity|].
  intros built Hin. cbn [liveSamples] in Hin.
  repeat (apply elem_of_cons in Hin as [-> | Hin]; [discriminate|]).
  by apply elem_of_nil in Hin.
Qed.

(** ** Fields that reach the returned document *)

Section Fields.

Context {Ext : Type}.
Context `{!Content Ext, !Kumascript Ext, !Chalk, !Cheerio, !BuildOptions,
          !BuildModules Ext}.
Variable key : string.
Context `{!KeepsField key}.

Lemma applyMacroFlawPolicy_keeps (options : object) (document : Document.t)
    (doc doc' : object) (flaws : list value) (w w' : World Ext) :
  key <> "flaws" ->
  applyMacroFlawPolicy options document doc flaws w = (w', Ok doc') ->
  doc' !! key = doc !! key.
Proof.
  intros Hkey. unfold applyMacroFlawPolicy.
  destruct flaws as [|flaw flaws]; [by intros [_ ->]%ret_inv|].
  intros Hpolicy. step_ok Hpolicy as level Hlevel.
  destruct (isString level FLAW_LEVELS.ERROR).
  { step_ok Hpolicy as [] Hlog. step_ok Hpolicy as [] Hreport. discriminate. }
  destruct (isString level FLAW_LEVELS.WARN);
    [|by apply ret_inv in Hpolicy as [_ ->]].
  step_ok Hpolicy as macros Hmacros.
  unfold liftR, setFlawsMacros in Hpolicy.
  destruct (default VUndefined (doc !! "flaws"));
    try discriminate; apply ret_inv in Hpolicy as [_ ->]; try done.
  by rewrite lookup_insert_ne.
Qed.

Lemma renderDocument_keeps (options : object) (document : Document.t)
    (doc doc' : object) (renderedHtml : string) (samples : list LiveSample.t)
    (w w' : World Ext) :
  key <> "flaws" ->
  renderDocument options document doc w = (w', Ok (renderedHtml, samples, doc')) ->
  doc' !! key = doc !! key.
Proof.
  intros Hkey. unfold renderDocument.
  destruct (truthy _); [by intros [_ [= _ _ ->]]%ret_inv|].
  intros Hrender. step_ok Hrender as [] Hreset.
  step_ok Hrender as rendered Htry.
  destruct (collectLiveSamples document (fst rendered) (snd rendered))
    as [flaws built].
  step_ok Hrender as doc1 Hpolicy.
  apply ret_inv in Hrender as [_ [= _ _ ->]].
  by apply (applyMacroFlawPolicy_keeps _ _ _ _ _ _ _ Hkey Hpolicy).
Qed.

Lemma prepareTree_keeps (options : object) (document : Document.t)
    (doc doc' : object) (renderedHtml : string) (t' : tree) (attachments : value)
    (w w' : World Ext) :
  key <> "title" -> key <> "mdn_url" -> key <> "locale" -> key <> "native" ->
  key <> "sidebarHTML" ->
  prepareTree options document doc renderedHtml w = (w', Ok (doc', t', attachments)) ->
  doc' !! key = doc !! key.
Proof.
  intros Htitle Hurl Hlocale Hnative Hsidebar Hprepare.
  unfold prepareTree in Hprepare.
  step_ok Hprepare as t0 Hload.
  step_ok Hprepare as native Hnativename.
  step_ok Hprepare as [sidebarHTML t1] Hstep1.
  step_ok Hprepare as [[fileAttachments doc2] t2] Hstep2.
  step_ok Hprepare as [doc3 t3] Hstep3.
  step_ok Hprepare as [doc4 t4] Hstep4.
  step_ok Hprepare as doc5 Hstep5.
  step_ok Hprepare as [t6 doc6] Hstep6.
  apply ret_inv in Hprepare as [_ [= -> -> ->]].
  apply try_catch_rethrow_ok in Hstep4.
  apply (try_catch_rethrow_ok _ (log console_error)) in Hstep5.
  rewrite (syntaxHighlight_keeps _ _ _ _ _ _ Hstep6).
  rewrite (fixFixableFlaws_keeps _ _ _ _ _ _ Hstep5).
  rewrite (injectFlaws_keeps _ _ _ _ _ _ _ _ Hstep4).
  rewrite (checkImageWidths_keeps _ _ _ _ _ _ _ _ Hstep3).
  rewrite (checkImageReferences_keeps _ _ _ _ _ _ _ _ _ Hstep2).
  by rewrite !lookup_insert_ne.
Qed.

Lemma describe_keeps (options : object) (document : Document.t)
    (doc doc' : object) (t : tree) (bcd : value) (w w' : World Ext) :
  key <> "body" -> key <> "toc" -> key <> "summary" -> key <> "popularity" ->
  key <> "modified" -> key <> "other_translations" -> key <> "source" ->
  key <> "pageTitle" ->
  describe options document doc t w = (w', Ok (doc', bcd)) ->
  doc' !! key = doc !! key.
Proof.
  intros Hbody Htoc Hsummary Hpopularity Hmodified Hother Hsource Hpage Hdescribe.
  unfold describe in Hdescribe.
  step_ok Hdescribe as [[sections sectionFlaws] t'] Hsections.
  step_ok Hdescribe as doc1 Hflaws.
  step_ok Hdescribe as toc Htocs.
  step_ok Hdescribe as summary Hsummaries.
  step_ok Hdescribe as doc2 Hbcdurls.
  step_ok Hdescribe as [bcd' doc3] Hbcd.
  step_ok Hdescribe as translations Htranslations.
  step_ok Hdescribe as doc4 Hsources.
  step_ok Hdescribe as doc5 Hparents.
  step_ok Hdescribe as [pageTitle doc6] Hpages.
  apply ret_inv in Hdescribe as [_ [= -> ->]].
  rewrite lookup_insert_ne by done.
  rewrite (getPageTitle_keeps _ _ _ _ _ Hpages).
  rewrite (addBreadcrumbData_keeps _ _ _ _ _ Hparents).
  rewrite (injectSource_keeps _ _ _ _ _ _ key Hsources) by done.
  assert (doc3 !! key = doc !! key) as Hdoc3.
  { rewrite (extractBCDData_keeps _ _ _ _ _ Hbcd).
    rewrite (normalizeBCDURLs_keeps _ _ _ _ _ Hbcdurls).
    rewrite !lookup_insert_ne by done.
    destruct sectionFlaws as [|sectionFlaw sectionFlaws].
    - apply ret_inv in Hflaws as [_ ->]. by rewrite lookup_insert_ne.
    - rewrite (injectSectionFlaws_keeps _ _ _ _ _ _ Hflaws).
      by rewrite lookup_insert_ne. }
  destruct translations; by rewrite !lookup_insert_ne.
Qed.

Ltac not_early :=
  let Hin := fresh "Hin" in
  intros Hin;
  repeat (apply elem_of_cons in Hin as [Hin|Hin]; [discriminate|]);
  by apply elem_of_nil in Hin.

(** A field that [buildDocument] does not assign after it has made [doc],
    and that the other modules keep, is in the returned document what it
    was made. *)
Lemma buildDocument_keeps (document : Document.t) (documentOptions : object)
    (w w' : World Ext) (out : BuildResult) :
  key ∈ ["isArchive"; "isTranslated"; "isActive"] ->
  buildDocument document documentOptions w = (w', Ok out) ->
  doc out !! key = newDoc document !! key.
Proof.
  intros Hkey Hbuild.
  assert (forall other,
            other ∉ ["isArchive"; "isTranslated"; "isActive"] -> key <> other)
    as Hne by (intros other Hother ->; done).
  unfold buildDocument in Hbuild.
  step_ok Hbuild as [[[options renderedHtml] samples] doc0] Hbefore.
  step_ok Hbuild as [[doc1 t] attachments] Hprepare.
  step_ok Hbuild as [doc2 bcd] Hdescribe.
  apply ret_inv in Hbuild as [_ ->]. cbn [doc].
  apply beforeTree_inv in Hbefore as [-> Hrender].
  rewrite lookup_insert_ne by (apply not_eq_sym, Hne; not_early).
  rewrite (describe_keeps _ _ _ _ _ _ _ _
             ltac:(apply Hne; not_early) ltac:(apply Hne; not_early)
             ltac:(apply Hne; not_early) ltac:(apply Hne; not_early)
             ltac:(apply Hne; not_early) ltac:(apply Hne; not_early)
             ltac:(apply Hne; not_early) ltac:(apply Hne; not_early)
             Hdescribe).
  rewrite (prepareTree_keeps _ _ _ _ _ _ _ _ _
             ltac:(apply Hne; not_early) ltac:(apply Hne; not_early)
             ltac:(apply Hne; not_early) ltac:(apply Hne; not_early)
             ltac:(apply Hne; not_early) Hprepare).
  apply (renderDocument_keeps _ _ _ _ _ _ _ _ ltac:(apply Hne; not_early) Hrender).
Qed.

End Fields.

(** The build modules of the sample keep every field. *)
Lemma sample_keeps_field (key : string) : KeepsField (Ext := unit) key.
Proof. split; cbn; unfold ret; intros; by simplify_eq. Qed.

(** ** The whole build *)

(** C6.  A slug that is empty, starts with a slash, ends with a slash or
    holds a double slash makes [validateSlug] throw; [buildDocument] then
    throws too, and it does so in the part that runs before the tree is
    loaded: the exception and the world it leaves are those of
    [beforeTree], which has neither [cheerio] nor any of the modules that
    work on the tree at hand.  When the steps before the validation go
    through, the exception is the one of [validateSlug]. *)
Theorem bad_slug_fails_before_tree {Ext}
    `{!Content Ext, !Kumascript Ext, !Chalk, !Cheerio, !BuildOptions,
      !BuildModules Ext}
    (document : Document.t) (documentOptions : object) (w : World Ext) :
  let slug := Document.slug (Document.metadata document) in
  slug = "" \/ JSString.startsWith slug "/" = true \/
  JSString.endsWith slug "/" = true \/ JSString.includes slug "//" = true ->
  (forall w0 : World Ext, exists e, validateSlug slug w0 = (w0, Throw e)) /\
  exists w' e,
    beforeTree document documentOptions w = (w', Throw e) /\
    buildDocument document documentOptions w = (w', Throw e) /\
    (urlToFolderPath (Document.url document)
       = Document.folder (Document.fileInfo document) ->
     forall w1 rendered,
       renderDocument (mergeOptions documentOptions) document (newDoc document) w
         = (w1, Ok rendered) ->
       w' = w1 /\ validateSlug slug w1 = (w1, Throw e)).
Proof.
  intros slug Hbad. split.
  { intros w0. by apply validateSlug_throws. }
  assert (exists w' e,
            beforeTree document documentOptions w = (w', Throw e) /\
            (urlToFolderPath (Document.url document)
               = Document.folder (Document.fileInfo document) ->
             forall w1 rendered,
               renderDocument (mergeOptions documentOptions) document
                 (newDoc document) w = (w1, Ok rendered) ->
               w' = w1 /\ validateSlug slug w1 = (w1, Throw e)))
    as (w' & e & Hbefore & Hslug).
  { unfold beforeTree.
    destruct (negb _) eqn:Hfolder.
    { eexists _, _. split; [done|]. intros Hmatch.
      by rewrite Hmatch, String.eqb_refl in Hfolder. }
    unfold bind at 1.
    destruct (renderDocument _ _ _ w) as [w1 [[[renderedHtml samples] doc0]|e]].
    - destruct (validateSlug_throws slug w1 Hbad) as [e He].
      exists w1, e. rewrite (bind_throw _ _ _ _ _ He). split; [done|].
      by intros _ w2 rendered [= <- _].
    - eexists _, _. split; [done|]. by intros _ w2 rendered. }
  exists w', e. split; [done|]. split; [|done].
  unfold buildDocument. by rewrite (bind_throw _ _ _ _ _ Hbefore).
Qed.

Lemma bad_slug_fails_before_tree_witness :
  exists w' e,
    beforeTree (Sample.page "a//b" false false) (Sample.options "ignore")
      Sample.world = (w', Throw e) /\
    buildDocument (Sample.page "a//b" false false) (Sample.options "ignore")
      Sample.world = (w', Throw e) /\
    e = mkError "Slug 'a//b' contains a double /".
Proof.
  destruct (bad_slug_fails_before_tree (Sample.page "a//b" false false)
              (Sample.options "ignore") Sample.world)
    as (_ & w' & e & Hbefore & Hbuild & Hslug).
  { right; right; right. reflexivity. }
  exists w', e. split; [exact Hbefore|]. split; [exact Hbuild|].
  destruct (Hslug eq_refl Sample.world _ eq_refl) as [_ Hthrown].
  by injection Hthrown as <-.
Defined.

(** C7.  When [buildDocument] returns, the [noIndexing] field of the
    document it returns is a boolean, true exactly when ([doc.isArchive]
    holds and [doc.isTranslated] does not) or the slug is "MDN/Kitchensink"
    or the slug starts with "orphaned/" or with "conflicting/"; so for a slug
    that starts with "orphaned/" it is true whatever the flags are.  The two
    flags of [doc] are those of the source document when the other modules
    of the build leave them alone. *)
Theorem noIndexing_decision {Ext}
    `{!Content Ext, !Kumascript Ext, !Chalk, !Cheerio, !BuildOptions,
      !BuildModules Ext}
    (document : Document.t) (documentOptions : object) (w w' : World Ext)
    (out : BuildResult) :
  buildDocument document documentOptions w = (w', Ok out) ->
  let slug := Document.slug (Document.metadata document) in
  let archived := truthy (default VUndefined (doc out !! "isArchive")) in
  let translated := truthy (default VUndefined (doc out !! "isTranslated")) in
  let marked :=
    String.eqb slug "MDN/Kitchensink"
    || JSString.startsWith slug "orphaned/"
    || JSString.startsWith slug "conflicting/" in
  doc out !! "noIndexing" = Some (VBool (archived && negb translated || marked)) /\
  (JSString.startsWith slug "orphaned/" = true ->
   doc out !! "noIndexing" = Some (VBool true)) /\
  (KeepsField "isArchive" -> KeepsField "isTranslated" ->
   doc out !! "noIndexing"
   = Some (VBool (Document.isArchive document
                  && negb (Document.isTranslated document) || marked))).
Proof.
  intros Hbuild slug archived translated marked.
  assert (doc out !! "noIndexing"
          = Some (VBool (archived && negb translated || marked))) as Hdecision.
  { pose proof Hbuild as Hrun. unfold buildDocument in Hrun.
    step_ok Hrun as [[[options renderedHtml] samples] doc0] Hbefore.
    step_ok Hrun as [[doc1 t] attachments] Hprepare.
    step_ok Hrun as [doc2 bcd] Hdescribe.
    injection Hrun as _ <-. subst archived translated marked. cbn [doc].
    rewrite (lookup_insert_ne _ "noIndexing" "isArchive") by done.
    rewrite (lookup_insert_ne _ "noIndexing" "isTranslated") by done.
    rewrite lookup_insert_eq, noIndexing_bool. fold slug.
    by rewrite <- !orb_assoc. }
  split; [done|]. split.
  - intros Horphaned. rewrite Hdecision. subst marked.
    by rewrite Horphaned, !orb_true_r, ?orb_true_l.
  - intros Harchive Htranslated. rewrite Hdecision. subst archived translated.
    rewrite (buildDocument_keeps "isArchive" _ _ _ _ _ ltac:(by left) Hbuild).
    rewrite (buildDocument_keeps "isTranslated" _ _ _ _ _ ltac:(by right; left) Hbuild).
    unfold newDoc.
    rewrite !(lookup_insert_ne _ _ "isArchive") by done.
    rewrite (lookup_insert_ne _ "flaws" "isTranslated") by done.
    rewrite (lookup_insert_ne _ "isActive" "isTranslated") by done.
    by rewrite !lookup_insert_eq.
Qed.

Lemma noIndexing_decision_witness :
  exists w' out,
    buildDocument (Sample.page "orphaned/Web/CSS" false true) ∅ Sample.world
      = (w', Ok out) /\
    doc out !! "noIndexing" = Some (VBool true).
Proof.
  destruct (buildDocument (Sample.page "orphaned/Web/CSS" false true) ∅ Sample.world)
    as [w' [out|e]] eqn:Hbuild; [|vm_compute in Hbuild; discriminate].
  exists w', out. split; [reflexivity|].
  destruct (noIndexing_decision (Sample.page "orphaned/Web/CSS" false true) ∅
              Sample.world w' out Hbuild) as (_ & _ & Hsource).
  exact (Hsource (sample_keeps_field "isArchive") (sample_keeps_field "isTranslated")).
Defined.

(** * The rest of the builder

    Properties of the functions of [build/index.js] beyond those the
    specification states: what they do at the edges, what they keep, and
    what they never do. *)

(** ** Pieces of a path *)

Section PathFacts.

Import JSString.
Implicit Types (s t p : string) (x y : ascii).

#[local] Arguments startsWith : simpl never.
#[local] Arguments includes : simpl never.

Lemma split_char_cons y x s :
  split (String x s) (String y "") =
  if Ascii.eqb y x then "" :: split s (String y "")
  else push_front x (split s (String y "")).
Proof.
  unfold split. simpl.
  by rewrite startsWith_cons_eq, startsWith_nil, andb_true_r.
Qed.

Lemma split_char_nonempty y s : split s (String y "") <> [].
Proof.
  destruct s as [|x s]; [done|]. rewrite split_char_cons.
  destruct (Ascii.eqb y x); [done|]. by destruct (split s (String y "")).
Qed.

Lemma join_split_char y s : join (split s (String y "")) (String y "") = s.
Proof.
  induction s as [|x s IH]; [done|]. rewrite split_char_cons.
  destruct (Ascii.eqb y x) eqn:Hx.
  - apply Ascii.eqb_eq in Hx as <-.
    pose proof (split_char_nonempty y s) as Hne.
    destruct (split s (String y "")) as [|b l] eqn:Hsplit; [done|].
    by rewrite join_cons_cons, IH.
  - by rewrite join_push_front, IH by apply split_char_nonempty.
Qed.

Lemma includes_char_cons y x s :
  includes (String x s) (String y "") = Ascii.eqb y x || includes s (String y "").
Proof. by rewrite includes_eq, startsWith_cons_eq, startsWith_nil, andb_true_r. Qed.

(** A string without the separator is one piece. *)
Lemma split_char_whole y s :
  includes s (String y "") = false -> split s (String y "") = [s].
Proof.
  induction s as [|x s IH]; [done|].
  rewrite includes_char_cons, split_char_cons.
  intros [-> Hrest]%orb_false_elim. by rewrite (IH Hrest).
Qed.

(** The first piece ends at the first separator. *)
Lemma split_char_first y s t :
  includes s (String y "") = false ->
  split (s +:+ String y t) (String y "") = s :: split t (String y "").
Proof.
  induction s as [|x s IH].
  - intros _. by rewrite append_nil_l, split_char_cons, Ascii.eqb_refl.
  - rewrite includes_char_cons, append_cons, split_char_cons.
    intros [-> Hrest]%orb_false_elim. by rewrite (IH Hrest).
Qed.

Lemma rev_onto_last s acc acc' y :
  s <> "" ->
  startsWith (rev_onto s acc) (String y "")
  = startsWith (rev_onto s acc') (String y "").
Proof.
  revert acc acc'. induction s as [|x s IH]; intros acc acc' Hne; [done|].
  cbn [rev_onto]. destruct s as [|x' s].
  - cbn [rev_onto]. by rewrite !startsWith_cons_eq, !startsWith_nil.
  - by apply IH.
Qed.

Lemma endsWith_char_cons y x s :
  endsWith (String x s) (String y "") =
  if is_empty s then Ascii.eqb y x else endsWith s (String y "").
Proof.
  unfold endsWith, rev. cbn [rev_onto]. destruct s as [|x' s].
  - cbn [rev_onto is_empty]. by rewrite startsWith_cons_eq, startsWith_nil, andb_true_r.
  - cbn [is_empty]. by apply rev_onto_last.
Qed.

Lemma Forall_push_front x (l : list string) :
  Forall (fun piece => piece <> "") (push_front x l)
  <-> Forall (fun piece => piece <> "") (tail l).
Proof.
  destruct l as [|piece l]; cbn [push_front tail].
  - split; [constructor|]. intros _. by repeat constructor.
  - rewrite Forall_cons. split; [by intros [_ ?]|by split].
Qed.

(** The pieces of a string are all non-empty when those after the first
    are and the string starts with something else than a separator. *)
Lemma pieces_from_tail s :
  (Forall (fun piece => piece <> "") (tail (split s "/"))
   <-> endsWith s "/" = false /\ includes s "//" = false) ->
  (Forall (fun piece => piece <> "") (split s "/")
   <-> s <> "" /\ startsWith s "/" = false /\
       endsWith s "/" = false /\ includes s "//" = false).
Proof.
  intros Htail. destruct s as [|x s].
  - split; [|by intros [? _]]. by intros [? _]%Forall_cons.
  - rewrite split_char_cons, startsWith_cons_eq, startsWith_nil, andb_true_r.
    rewrite split_char_cons in Htail.
    destruct (Ascii.eqb "/" x) eqn:Hx.
    + split; [|by intros (_ & ? & _)]. by intros [? _]%Forall_cons.
    + rewrite Forall_push_front. rewrite tail_push_front in Htail.
      rewrite Htail. intuition congruence.
Qed.

Lemma pieces_tail s :
  Forall (fun piece => piece <> "") (tail (split s "/"))
  <-> endsWith s "/" = false /\ includes s "//" = false.
Proof.
  induction s as [|x s IH]; [by split; [|constructor]|].
  pose proof (pieces_from_tail s IH) as IHall.
  rewrite split_char_cons, endsWith_char_cons.
  rewrite (includes_eq (String x s) "//"), startsWith_cons_eq.
  destruct (Ascii.eqb "/" x) eqn:Hx.
  - cbn [tail andb]. rewrite IHall, orb_false_iff.
    destruct s as [|x' s]; cbn [is_empty]; [intuition congruence|].
    intuition congruence.
  - rewrite tail_push_front. cbn [andb orb]. rewrite IH.
    destruct s as [|x' s]; cbn [is_empty]; [|done].
    by change (endsWith "" "/") with false.
Qed.

End PathFacts.

(** ** Slugs *)

(** X1.  [validateSlug] accepts exactly the slugs that split at the slashes
    into pieces none of which is empty; it throws on every other slug, and
    it leaves the world as it is either way. *)
Theorem validateSlug_pieces {Ext} (slug : string) (w : World Ext) :
  (validateSlug slug w = (w, Ok tt)
   <-> Forall (fun piece => piece <> "") (JSString.split slug "/")) /\
  (validateSlug slug w = (w, Ok tt) \/ exists e, validateSlug slug w = (w, Throw e)).
Proof.
  rewrite (pieces_from_tail slug (pieces_tail slug)). unfold validateSlug.
  destruct slug as [|x slug]; cbn [JSString.is_empty].
  { split; [|right; by eexists]. split; [done|by intros [? _]]. }
  destruct (JSString.startsWith _ "/") eqn:Hstart.
  { split; [|right; by eexists]. split; [done|by intros (_ & ? & _)]. }
  destruct (JSString.endsWith _ "/") eqn:Hend.
  { split; [|right; by eexists]. split; [done|by intros (_ & _ & ? & _)]. }
  destruct (JSString.includes _ "//") eqn:Hdouble.
  { split; [|right; by eexists]. split; [done|by intros (_ & _ & _ & ?)]. }
  split; [|by left]. done.
Qed.

Lemma validateSlug_pieces_witness :
  validateSlug "Web/CSS/color" Sample.world = (Sample.world, Ok tt).
Proof.
  apply (validateSlug_pieces "Web/CSS/color" Sample.world).
  vm_compute. repeat constructor; discriminate.
Defined.

(** ** The branch of a content root *)

Section Branch.

Context {Ext : Type} `{!Content Ext}.
Implicit Types (root : string) (w : World Ext).

Lemma getCurrentGitBranch_ref w (ref : string) :
  rootToGitBranchMap w !! CONTENT_ROOT = None ->
  GITHUB_REF (ext w) = Some ref -> ref <> "" ->
  getCurrentGitBranch CONTENT_ROOT w
  = (let name := JSString.join (drop 2 (JSString.split ref "/")) "/" in
     (Build_World (console w) (<[CONTENT_ROOT := name]> (rootToGitBranchMap w)) (ext w),
      Ok name)).
Proof.
  intros Hfresh Href Hne. unfold getCurrentGitBranch.
  rewrite Hfresh, String.eqb_refl, Href. by destruct ref.
Qed.

Lemma getCurrentGitBranch_returns root w :
  exists w1 name,
    getCurrentGitBranch root w = (w1, Ok name) /\
    rootToGitBranchMap w1 !! root = Some name /\
    getCurrentGitBranch root w1 = (w1, Ok name) /\
    (forall kept, rootToGitBranchMap w !! root = Some kept -> w1 = w /\ name = kept).
Proof.
  unfold getCurrentGitBranch at 1.
  destruct (rootToGitBranchMap w !! root) as [kept|] eqn:Hkept.
  - exists w, kept. split; [done|]. split; [done|]. split.
    + unfold getCurrentGitBranch. by rewrite Hkept.
    + by intros ? [= <-].
  - match goal with |- context [let '(_, _) := ?found in _] =>
      destruct found as [w1 name] end.
    eexists _, name. split; [done|]. cbn [rootToGitBranchMap].
    split; [apply lookup_insert_eq|]. split; [|done].
    unfold getCurrentGitBranch. cbn [rootToGitBranchMap].
    by rewrite lookup_insert_eq.
Qed.

(** X2.  [getCurrentGitBranch] never throws, whatever [git] does; the name
    it returns is the one it keeps for the root, and asking again gives the
    same name and changes nothing.  A name that is already kept is
    returned as it is, and the world stays as it is. *)
Theorem getCurrentGitBranch_cached root w :
  exists w1 name,
    getCurrentGitBranch root w = (w1, Ok name) /\
    rootToGitBranchMap w1 !! root = Some name /\
    getCurrentGitBranch root w1 = (w1, Ok name) /\
    (forall kept, rootToGitBranchMap w !! root = Some kept -> w1 = w /\ name = kept).
Proof. apply getCurrentGitBranch_returns. Qed.

(** X3.  In a GitHub workflow the branch of the content root is what
    follows the second slash of [GITHUB_REF], slashes of its own included
    ("refs/heads/fix/typo" gives "fix/typo"); a reference with fewer than two
    slashes gives the empty name, not the default one. *)
Theorem getCurrentGitBranch_github_ref w (ref first second : string) :
  rootToGitBranchMap w !! CONTENT_ROOT = None ->
  GITHUB_REF (ext w) = Some ref ->
  JSString.includes first "/" = false ->
  JSString.includes second "/" = false ->
  let named name :=
    (Build_World (console w) (<[CONTENT_ROOT := name]> (rootToGitBranchMap w)) (ext w),
     Ok name) in
  (forall branch,
     ref = first +:+ "/" +:+ second +:+ "/" +:+ branch ->
     getCurrentGitBranch CONTENT_ROOT w = named branch) /\
  (ref = first +:+ "/" +:+ second \/ ref = first /\ ref <> "" ->
   getCurrentGitBranch CONTENT_ROOT w = named "").
Proof.
  intros Hfresh Href Hfirst Hsecond named. split.
  - intros branch ->.
    rewrite (getCurrentGitBranch_ref w _ Hfresh Href) by by destruct first.
    cbv zeta. rewrite !append_cons, !append_nil_l.
    rewrite (split_char_first "/" first) by done.
    rewrite (split_char_first "/" second) by done.
    change (drop 2 (first :: second :: JSString.split branch "/")) with (JSString.split branch "/").
    by rewrite join_split_char.
  - intros [-> | [-> Hne]].
    + rewrite (getCurrentGitBranch_ref w _ Hfresh Href) by by destruct first.
      cbv zeta. rewrite !append_cons, !append_nil_l.
      rewrite (split_char_first "/" first) by done.
      by rewrite (split_char_whole "/" second).
    + rewrite (getCurrentGitBranch_ref w _ Hfresh Href) by done.
      cbv zeta. by rewrite (split_char_whole "/" first).
Qed.

(** X4.  A root that has no name yet gets the default one, "main", without
    [git] being run when it is not the content root; the content root gets
    it, outside a workflow, when [git] fails or prints nothing, and gets
    what [git] prints otherwise. *)
Theorem getCurrentGitBranch_default root w :
  rootToGitBranchMap w !! root = None ->
  let named name w1 :=
    (Build_World (console w1) (<[root := name]> (rootToGitBranchMap w1)) (ext w1),
     Ok name) in
  (root <> CONTENT_ROOT ->
   getCurrentGitBranch root w = named DEFAULT_BRANCH_NAME w) /\
  (root = CONTENT_ROOT ->
   GITHUB_REF (ext w) = None \/ GITHUB_REF (ext w) = Some "" ->
   forall w1 printed,
     execGit ["branch"; "--show-current"] root w = (w1, printed) ->
     getCurrentGitBranch root w
     = named match printed with
             | Ok (String c output) => String c output
             | _ => DEFAULT_BRANCH_NAME
             end w1).
Proof.
  intros Hfresh named. split.
  - intros Hother. unfold getCurrentGitBranch. rewrite Hfresh.
    by rewrite (proj2 (String.eqb_neq root CONTENT_ROOT) Hother).
  - intros -> Href w1 printed Hgit. unfold getCurrentGitBranch.
    rewrite Hfresh, String.eqb_refl.
    destruct Href as [-> | ->]; rewrite Hgit;
      by destruct printed as [[|c output]|e].
Qed.

End Branch.

Lemma getCurrentGitBranch_cached_witness :
  getCurrentGitBranch "/content/files" Sample.world
  = (Build_World [] {[ "/content/files" := "main" ]} tt, Ok "main") /\
  getCurrentGitBranch "/content/files"
    (Build_World [] {[ "/content/files" := "main" ]} tt)
  = (Build_World [] {[ "/content/files" := "main" ]} tt, Ok "main").
Proof.
  destruct (getCurrentGitBranch_cached "/content/files" Sample.world)
    as (w1 & name & Hfirst & _ & Hsecond & _).
  assert ((w1, Ok name)
          = (Build_World [] {[ "/content/files" := "main" ]} tt,
             @Ok string "main")) as [= -> ->]
    by (rewrite <- Hfirst; reflexivity).
  by split.
Defined.

Lemma getCurrentGitBranch_github_ref_witness :
  @getCurrentGitBranch _ Cases.workflow "/content/files"
    (Cases.workflowWorld (Some "refs/heads/fix/typo"))
  = (Build_World [] {[ "/content/files" := "fix/typo" ]} (Some "refs/heads/fix/typo"),
     Ok "fix/typo") /\
  @getCurrentGitBranch _ Cases.workflow "/content/files"
    (Cases.workflowWorld (Some "main"))
  = (Build_World [] {[ "/content/files" := "" ]} (Some "main"), Ok "").
Proof.
  split.
  - apply (@getCurrentGitBranch_github_ref _ Cases.workflow
             (Cases.workflowWorld (Some "refs/heads/fix/typo"))
             "refs/heads/fix/typo" "refs" "heads");
      reflexivity.
  - apply (@getCurrentGitBranch_github_ref _ Cases.workflow
             (Cases.workflowWorld (Some "main")) "main" "main" "");
      try reflexivity.
    right. by split.
Defined.

Lemma getCurrentGitBranch_default_witness :
  getCurrentGitBranch "/translated-content/files" Sample.world
  = (Build_World [] {[ "/translated-content/files" := "main" ]} tt, Ok "main") /\
  @getCurrentGitBranch _ Cases.workflow "/content/files" (Cases.workflowWorld None)
  = (Build_World [] {[ "/content/files" := "main" ]} None, Ok "main").
Proof.
  split.
  - by apply (getCurrentGitBranch_default "/translated-content/files" Sample.world).
  - apply (proj2 (@getCurrentGitBranch_default _ Cases.workflow "/content/files"
                    (Cases.workflowWorld None) eq_refl)
             eq_refl (or_introl eq_refl) (Cases.workflowWorld None)
             (Throw (mkError "spawn git ENOENT")) eq_refl).
Defined.

(** ** Words of a class attribute *)

Section WordFacts.

Import JSString.
Implicit Types (s t c : string) (x y : ascii) (b r : bool).

#[local] Arguments startsWith : simpl never.
#[local] Arguments includes : simpl never.

(** A word that stands at the head of a string is the first piece of its
    split at white space. *)
Lemma word_here_split_space c : forall s r,
  has_space c = false -> c <> "" \/ r = false ->
  word_here s c = true ->
  exists l, split_space_from r s = c :: l.
Proof.
  unfold word_here. induction c as [|y c IH]; intros s r Hc Hr.
  - destruct Hr as [?| ->]; [done|]. rewrite startsWith_nil. cbn [drop String.length andb].
    destruct s as [|x s]; [by eexists|]. intros Hx.
    rewrite split_space_from_cons, Hx. by eexists.
  - apply has_space_cons in Hc as [Hy Hc].
    destruct s as [|x s]; [by rewrite startsWith_nil_l|].
    rewrite startsWith_cons_eq. cbn [String.length drop].
    intros [[Hxy Hstart]%andb_prop Hend]%andb_prop.
    apply Ascii.eqb_eq in Hxy as <-.
    destruct (IH s false Hc (or_intror eq_refl)) as [l Hl].
    { by rewrite Hstart, Hend. }
    rewrite split_space_from_cons, Hy, Hl. by eexists.
Qed.

(** The class test of css-select finds only pieces of the split at white
    space. *)
Lemma has_word_from_split_space c s :
  c <> "" -> has_space c = false ->
  forall b, has_word_from b s c = true ->
  (b = true -> forall r, c ∈ split_space_from r s) /\
  (b = false -> c ∈ tail (split_space_from false s)).
Proof.
  intros Hne Hc. induction s as [|x s IH]; intros b.
  - cbn [has_word_from]. rewrite orb_false_r. intros [-> Hhere]%andb_prop.
    unfold word_here in Hhere. destruct c; [done|].
    by rewrite startsWith_nil_l in Hhere.
  - cbn [has_word_from]. intros [[-> Hhere]%andb_prop | Hlater]%orb_prop.
    + split; [|done]. intros _ r.
      destruct (word_here_split_space c (String x s) r Hc (or_introl Hne) Hhere)
        as [l ->].
      apply list_elem_of_here.
    + specialize (IH _ Hlater). split.
      * intros _ r. rewrite split_space_from_cons. destruct (is_space x).
        -- destruct IH as [IH _]. specialize (IH eq_refl true).
           destruct r; [done|by apply list_elem_of_further].
        -- destruct IH as [_ IH]. specialize (IH eq_refl).
           destruct (split_space_from false s) as [|piece l];
             [by apply elem_of_nil in IH|].
           cbn [push_front]. by apply list_elem_of_further.
      * intros _. rewrite split_space_from_cons. destruct (is_space x).
        -- destruct IH as [IH _]. exact (IH eq_refl true).
        -- destruct IH as [_ IH]. rewrite tail_push_front. exact (IH eq_refl).
Qed.

Lemma has_word_split_space c s :
  c <> "" -> has_space c = false ->
  has_word s c = true -> c ∈ split_space s.
Proof.
  intros Hne Hc [_ Hword]%andb_prop.
  by apply (has_word_from_split_space c s Hne Hc true Hword).
Qed.

Lemma has_word_empty c : c <> "" -> has_word "" c = false.
Proof.
  intros Hne. unfold has_word. cbn [has_word_from]. unfold word_here.
  destruct c; [done|]. by rewrite startsWith_nil_l, !andb_false_r.
Qed.

(** *** Words that stay *)

Lemma word_here_first c s x :
  c <> "" -> has_space c = false -> is_space x = true ->
  word_here (String x s) c = false.
Proof.
  intros Hne Hc Hx. unfold word_here. destruct c as [|y c]; [done|].
  apply has_space_cons in Hc as [Hy _]. rewrite startsWith_cons_eq.
  destruct (Ascii.eqb y x) eqn:Hxy; [|done].
  apply Ascii.eqb_eq in Hxy as <-. congruence.
Qed.

Lemma has_word_from_boundary c s b :
  has_word_from b s c = true -> has_word_from true s c = true.
Proof.
  destruct s as [|x s]; cbn [has_word_from]; destruct b; try done.
  cbn [andb orb]. intros ->. apply orb_true_r.
Qed.

Lemma word_here_app_space c s t y :
  is_space y = true -> word_here s c = true ->
  word_here (s +:+ String y t) c = true.
Proof.
  intros Hy. unfold word_here. revert s. induction c as [|z c IH]; intros s.
  - rewrite !startsWith_nil. cbn [String.length drop andb].
    destruct s as [|x s]; [by rewrite append_nil_l|by rewrite append_cons].
  - destruct s as [|x s]; [by rewrite startsWith_nil_l|].
    rewrite append_cons, !startsWith_cons_eq. cbn [String.length drop].
    intros [[-> Hstart]%andb_prop Hend]%andb_prop. cbn [andb].
    apply IH. by rewrite Hstart, Hend.
Qed.

Lemma has_word_from_app_space c s t y b :
  is_space y = true -> has_word_from b s c = true ->
  has_word_from b (s +:+ String y t) c = true.
Proof.
  intros Hy. revert b. induction s as [|x s IH]; intros b.
  - cbn [has_word_from]. rewrite orb_false_r, append_nil_l.
    intros [-> Hhere]%andb_prop. cbn [has_word_from andb].
    apply orb_true_intro. left.
    by apply (word_here_app_space c "" t y Hy) in Hhere.
  - rewrite append_cons. cbn [has_word_from].
    intros [[-> Hhere]%andb_prop | Hlater]%orb_prop.
    + apply orb_true_intro. left. cbn [andb].
      by apply (word_here_app_space c (String x s) t y Hy) in Hhere.
    + apply orb_true_intro. right. by apply IH.
Qed.

Lemma has_word_from_trimStart c s :
  c <> "" -> has_space c = false ->
  has_word_from true s c = true -> has_word_from true (trimStart s) c = true.
Proof.
  intros Hne Hc. induction s as [|x s IH]; [done|].
  rewrite trimStart_cons. destruct (is_space x) eqn:Hx; [|done].
  cbn [has_word_from andb]. rewrite (word_here_first c s x Hne Hc Hx), Hx.
  exact IH.
Qed.

Lemma has_word_from_blank c s b :
  c <> "" -> has_space c = false -> trimEnd s = "" ->
  has_word_from b s c = false.
Proof.
  intros Hne Hc. revert b. induction s as [|x s IH]; intros b.
  - intros _. cbn [has_word_from]. rewrite orb_false_r. unfold word_here.
    destruct c; [done|]. by rewrite startsWith_nil_l, andb_false_r.
  - rewrite trimEnd_cons.
    destruct (is_space x) eqn:Hx; [|done].
    destruct (trimEnd s) eqn:Hs; [|done]. intros _.
    cbn [has_word_from]. rewrite (word_here_first c s x Hne Hc Hx), Hx.
    by rewrite andb_false_r, (IH true).
Qed.

Lemma word_here_trimEnd c : forall s,
  has_space c = false -> word_here s c = true -> word_here (trimEnd s) c = true.
Proof.
  unfold word_here. induction c as [|y c IH]; intros s Hc.
  - rewrite !startsWith_nil. cbn [String.length drop andb].
    destruct s as [|x s]; [done|]. intros Hx. rewrite trimEnd_cons, Hx.
    cbn [andb]. by destruct (is_empty (trimEnd s)).
  - apply has_space_cons in Hc as [Hy Hc].
    destruct s as [|x s]; [by rewrite startsWith_nil_l|].
    rewrite startsWith_cons_eq. cbn [String.length drop].
    intros [[Hxy Hstart]%andb_prop Hend]%andb_prop.
    apply Ascii.eqb_eq in Hxy as <-.
    rewrite trimEnd_cons, Hy. cbn [andb].
    rewrite startsWith_cons_eq, Ascii.eqb_refl. cbn [String.length drop andb].
    apply IH; [done|]. by rewrite Hstart, Hend.
Qed.

Lemma has_word_from_trimEnd c s b :
  c <> "" -> has_space c = false ->
  has_word_from b s c = true -> has_word_from b (trimEnd s) c = true.
Proof.
  intros Hne Hc. revert b. induction s as [|x s IH]; intros b; [done|].
  intros Hword. destruct (trimEnd (String x s)) as [|x' s'] eqn:Htrim.
  { by rewrite (has_word_from_blank c _ b Hne Hc Htrim) in Hword. }
  rewrite <- Htrim.
  assert (trimEnd (String x s) = String x (trimEnd s)) as Hcons.
  { rewrite trimEnd_cons in *. by destruct (is_space x && is_empty (trimEnd s)). }
  cbn [has_word_from] in Hword.
  apply orb_prop in Hword as [[-> Hhere]%andb_prop | Hlater].
  - apply (word_here_trimEnd c _ Hc) in Hhere. rewrite Hcons in *.
    cbn [has_word_from andb]. by rewrite Hhere.
  - rewrite Hcons. cbn [has_word_from]. rewrite (IH _ Hlater). apply orb_true_r.
Qed.

(** White space around a class attribute hides none of its words. *)
Lemma has_word_trim c s :
  c <> "" -> has_word s c = true -> has_word (trim s) c = true.
Proof.
  unfold has_word, trim. intros Hne [Hc Hword]%andb_prop. rewrite Hc.
  apply negb_true_iff in Hc. cbn [andb].
  by apply has_word_from_trimEnd, has_word_from_trimStart.
Qed.

Lemma has_word_pad c s t :
  has_word s c = true -> has_word (" " +:+ s +:+ " " +:+ t) c = true.
Proof.
  unfold has_word. intros [Hc Hword]%andb_prop. rewrite Hc. cbn [andb].
  rewrite !append_cons, !append_nil_l. cbn [has_word_from].
  change (is_space " ") with true.
  rewrite (has_word_from_app_space c s t " " true eq_refl Hword).
  apply orb_true_r.
Qed.

End WordFacts.


(** ** Classes that are added and taken off *)

Section Classes.

Implicit Types (c s value : string) (attribs : gmap string string).

(** What [addClass] with one name leaves in the class attribute: the name,
    and every word that was there. *)
Lemma addClass_class c attribs :
  c <> "" -> has_space c = false ->
  exists s1,
    addClass c attribs = <["class" := s1]> attribs /\
    JSString.trim s1 = s1 /\
    has_word s1 c = true /\
    (forall s w, attribs !! "class" = Some s -> w <> "" ->
                 has_word s w = true -> has_word s1 w = true).
Proof.
  intros Hne Hc.
  destruct (addClass_word c attribs Hne Hc) as (s1 & Heq & Hthere & Htrim).
  exists s1. split; [done|]. split; [done|].
  split; [by apply includes_has_word|].
  intros s w Hclass Hw Hword.
  assert (addClass c attribs !! "class" = Some s1) as Hs1
    by (rewrite Heq; apply lookup_insert_eq).
  unfold addClass in Hs1. destruct c as [|y c]; [done|]. cbn [JSString.is_empty] in Hs1.
  rewrite Hclass in Hs1. destruct s as [|x s].
  { by rewrite has_word_empty in Hword. }
  rewrite lookup_insert_eq in Hs1. injection Hs1 as <-.
  unfold JSString.split_space.
  rewrite (split_space_token (String y c) false Hc (or_introl Hne)).
  cbn [foldl]. unfold appendClass. apply has_word_trim; [done|].
  match goal with |- context [if ?found then _ else _] => destruct found end.
  - pose proof (has_word_pad w (String x s) "" Hword) as Hpad.
    by rewrite append_nil_r in Hpad.
  - rewrite !append_assoc. by apply has_word_pad.
Qed.

Lemma foldl_filter_elem (classes l : list string) c :
  c ∈ foldl (fun l c => filter (fun x => x <> c) l) l classes
  <-> c ∈ l /\ c ∉ classes.
Proof.
  revert l. induction classes as [|c' classes IH]; intros l; cbn [foldl].
  - split; [|by intros [? _]]. intros Hin. split; [done|]. by intros ?%elem_of_nil.
  - rewrite IH, list_elem_of_filter, not_elem_of_cons. intuition congruence.
Qed.

Lemma existsb_classes (classes l : list string) :
  existsb (fun c => existsb (String.eqb c) l) classes = true
  <-> exists c, c ∈ classes /\ c ∈ l.
Proof.
  rewrite existsb_exists. split.
  - intros (c & Hin & Hl). exists c. split; [by apply list_elem_of_In|].
    by apply existsb_eqb.
  - intros (c & Hin & Hl). exists c. split; [by apply list_elem_of_In|].
    by apply existsb_eqb.
Qed.

(** The words of a trimmed class attribute. *)
Lemma splitNames_words s :
  JSString.trim s = s ->
  Forall (fun c => c <> "" /\ has_space c = false) (splitNames (Some s)).
Proof.
  intros Htrim. destruct s as [|x s]; [constructor|].
  rewrite splitNames_trimmed by done. rewrite <- Htrim.
  apply split_space_trim. by rewrite Htrim.
Qed.

Lemma has_word_splitNames c s :
  c <> "" -> JSString.trim s = s ->
  has_word s c = true -> c ∈ splitNames (Some s).
Proof.
  intros Hne Htrim Hword. destruct s as [|x s].
  - by rewrite has_word_empty in Hword.
  - rewrite splitNames_trimmed by done.
    pose proof Hword as [Hc%negb_true_iff _]%andb_prop.
    by apply has_word_split_space.
Qed.

(** What [removeClass] leaves of a trimmed class attribute: none of the
    names it was given, and every other word that was there. *)
Lemma removeClass_class value attribs s :
  attribs !! "class" = Some s -> JSString.trim s = s ->
  exists s',
    removeClass value attribs !! "class" = Some s' /\
    JSString.trim s' = s' /\
    (forall c, c <> "" -> c ∈ splitNames (Some value) -> has_word s' c = false) /\
    (forall c, c <> "" -> has_word s c = true -> c ∉ splitNames (Some value) ->
               has_word s' c = true).
Proof.
  intros Hclass Htrim. unfold removeClass. rewrite Hclass.
  set (classes := splitNames (Some value)).
  set (elClasses := splitNames (Some s)).
  set (kept := foldl (fun l c => filter (fun x => x <> c) l) elClasses classes).
  pose proof (splitNames_words s Htrim) as Hwords. fold elClasses in Hwords.
  assert (Forall (fun c => c <> "" /\ has_space c = false) kept) as Hkept.
  { rewrite Forall_forall in *. intros c [Hin _]%foldl_filter_elem. by apply Hwords. }
  destruct (existsb _ classes) eqn:Hany.
  - exists (JSString.join kept " "). split; [apply lookup_insert_eq|].
    destruct kept as [|k kept'] eqn:Hk.
    { split; [done|]. split; [intros c Hne _; by apply has_word_empty|].
      intros c Hne Hword Hother.
      assert (c ∈ kept) as Hin.
      { apply foldl_filter_elem. split; [|done]. by apply has_word_splitNames. }
      rewrite Hk in Hin. by apply elem_of_nil in Hin. }
    rewrite <- Hk in *.
    assert (kept <> []) as Hsome by (rewrite Hk; discriminate).
    split; [by apply trim_join_words|]. split.
    + intros c Hne Hin. destruct (has_word (JSString.join kept " ") c) eqn:Hword; [|done].
      pose proof Hword as [Hc%negb_true_iff _]%andb_prop.
      apply has_word_split_space in Hword; [|done..].
      unfold JSString.split_space in Hword.
      rewrite (split_space_join_words kept false Hkept Hsome) in Hword.
      by apply foldl_filter_elem in Hword as [_ Hout].
    + intros c Hne Hword Hother.
      pose proof Hword as [Hc%negb_true_iff _]%andb_prop.
      apply includes_has_word; [done|]. apply includes_join_words.
      apply foldl_filter_elem. split; [|done]. by apply has_word_splitNames.
  - exists s. split; [done|]. split; [done|]. split; [|done].
    intros c Hne Hin. destruct (has_word s c) eqn:Hword; [|done].
    apply has_word_splitNames in Hword; [|done..].
    assert (existsb (fun c => existsb (String.eqb c) elClasses) classes = true)
      as Htrue by (apply existsb_classes; by exists c).
    congruence.
Qed.

Lemma removeClass_untouched value attribs :
  attribs !! "class" = None -> removeClass value attribs = attribs.
Proof.
  intros Hclass. unfold removeClass. rewrite Hclass. cbn [splitNames].
  destruct (existsb _ _) eqn:Hany; [|done].
  by apply existsb_classes in Hany as (c & _ & []%elem_of_nil).
Qed.

End Classes.

(** ** The passes over the tree *)

Section Passes.

Implicit Types (t : tree) (path : list nat) (attribs : gmap string string)
  (sel : selector).

Lemma node_at_rewritten sel f path t :
  match node_at path t with
  | Some (Element name attribs children) =>
      node_at path (update_matching sel f t)
      = Some (Element name (if matches sel name attribs then f attribs else attribs)
                (update_matching sel f children))
  | other => node_at path (update_matching sel f t) = other
  end.
Proof. rewrite node_at_update. by destruct (node_at path t) as [[]|]. Qed.

Lemma update_matching_all P sel f :
  (forall name attribs,
     P name (if matches sel name attribs then f attribs else attribs) = true) ->
  forall t, forallb (every_element P) (update_matching sel f t) = true.
Proof.
  intros HP t. induction t as [|n t IH]; [done|].
  cbn [update_matching map forallb]. rewrite (every_element_rewritten P sel f HP).
  exact IH.
Qed.

Lemma matches_class c name attribs :
  matches [[sel_class c]] name attribs
  = match attribs !! "class" with Some cls => has_word cls c | None => false end.
Proof.
  unfold matches. cbn [existsb forallb matches_simple].
  by rewrite andb_true_r, orb_false_r.
Qed.

Lemma matches_tag_class tag c name attribs :
  matches [[sel_tag tag; sel_class c]] name attribs
  = String.eqb name tag && matches [[sel_class c]] name attribs.
Proof.
  rewrite matches_class. unfold matches. cbn [existsb forallb matches_simple].
  by rewrite andb_true_r, orb_false_r.
Qed.

Lemma matches_class_insert c name attribs s :
  matches [[sel_class c]] name (<["class" := s]> attribs) = has_word s c.
Proof. by rewrite matches_class, lookup_insert_eq. Qed.

(** *** [injectNoTranslate] *)

Lemma noTranslate_once name attribs :
  let once :=
    if matches [[sel_tag "pre"]] name attribs
    then addClass "notranslate" attribs else attribs in
  (String.eqb name "pre" = true -> matches [[sel_class "notranslate"]] name once = true) /\
  (String.eqb name "pre" = false -> once = attribs) /\
  (forall k, k <> "class" -> once !! k = attribs !! k) /\
  (forall c, c <> "" -> matches [[sel_class c]] name attribs = true ->
             matches [[sel_class c]] name once = true).
Proof.
  assert (matches [[sel_tag "pre"]] name attribs = String.eqb name "pre") as ->.
  { unfold matches. cbn [existsb forallb matches_simple].
    by rewrite andb_true_r, orb_false_r. }
  destruct (String.eqb name "pre"); cbv zeta; [|done].
  destruct (addClass_class "notranslate" attribs) as (s1 & Heq & _ & Hthere & Hkept);
    [done..|].
  split; [intros _; by rewrite Heq, matches_class_insert|].
  split; [done|]. split; [intros k Hk; by apply addClass_other|].
  intros c Hne. rewrite Heq, matches_class_insert, matches_class.
  destruct (attribs !! "class") as [s|] eqn:Hclass; [|done].
  by apply Hkept.
Qed.

(** X5.  After [injectNoTranslate] every [pre] element has the class
    "notranslate".  The pass changes nothing else: the tree keeps its
    shape, text and comments stay as they are, only [pre] elements are
    touched, only their class attribute, and every class they had is still
    there.  A second run changes nothing. *)
Theorem pre_not_translated t :
  (forall path attribs children,
     node_at path (injectNoTranslate t) = Some (Element "pre" attribs children) ->
     matches [[sel_class "notranslate"]] "pre" attribs = true) /\
  (forall path,
     match node_at path t with
     | Some (Element name attribs children) =>
         exists attribs',
           node_at path (injectNoTranslate t)
             = Some (Element name attribs' (injectNoTranslate children)) /\
           (name <> "pre" -> attribs' = attribs) /\
           (forall k, k <> "class" -> attribs' !! k = attribs !! k) /\
           (forall c, c <> "" -> matches [[sel_class c]] name attribs = true ->
                      matches [[sel_class c]] name attribs' = true)
     | other => node_at path (injectNoTranslate t) = other
     end) /\
  injectNoTranslate (injectNoTranslate t) = injectNoTranslate t.
Proof.
  unfold injectNoTranslate. split; [|split].
  - intros path attribs children Hat.
    refine (every_element_node_at
             (fun name attribs =>
                implb (String.eqb name "pre")
                  (matches [[sel_class "notranslate"]] name attribs))
             _ path "pre" attribs children _ Hat).
    apply update_matching_all. intros name attribs0.
    destruct (noTranslate_once name attribs0) as (Hpre & _).
    destruct (String.eqb name "pre"); [|done]. by apply Hpre.
  - intros path.
    pose proof (node_at_rewritten [[sel_tag "pre"]] (addClass "notranslate") path t)
      as Hat.
    destruct (node_at path t) as [[data|data|name attribs children]|]; try done.
    destruct (noTranslate_once name attribs) as (_ & Hother & Hattrs & Hclasses).
    eexists. split; [exact Hat|]. split; [|by split].
    intros Hname. apply Hother. by apply String.eqb_neq.
  - apply update_matching_idemp. intros name attribs.
    assert (forall a, matches [[sel_tag "pre"]] name a = String.eqb name "pre") as Htag.
    { intros a. unfold matches. cbn [existsb forallb matches_simple].
      by rewrite andb_true_r, orb_false_r. }
    cbv zeta. rewrite !Htag. destruct (String.eqb name "pre"); [|done].
    by apply addClass_idemp.
Qed.

Lemma pre_not_translated_witness :
  node_at [0] (injectNoTranslate Cases.article)
  = Some (Element "pre" {[ "class" := "brush: js notranslate" ]} [Text "let x;"]) /\
  matches [[sel_class "notranslate"]] "pre" {[ "class" := "brush: js notranslate" ]}
  = true.
Proof.
  split; [by vm_compute|].
  apply (proj1 (pre_not_translated Cases.article) [0] _ [Text "let x;"]).
  by vm_compute.
Defined.

End Passes.

(** *** [injectLoadingLazyAttributes] *)

Lemma lazy_once (name : string) (attribs : gmap string string) :
  let sel := [[sel_tag "img"; sel_not (sel_attr "loading")];
              [sel_tag "iframe"; sel_not (sel_attr "loading")]] in
  let once :=
    if matches sel name attribs then <["loading" := "lazy"]> attribs else attribs in
  matches sel name attribs
  = (String.eqb name "img" || String.eqb name "iframe")
    && bool_decide (attribs !! "loading" = None) /\
  matches sel name once = false /\
  (String.eqb name "img" || String.eqb name "iframe" = true ->
   is_Some (once !! "loading")).
Proof.
  cbv zeta.
  assert (forall a, matches [[sel_tag "img"; sel_not (sel_attr "loading")];
                             [sel_tag "iframe"; sel_not (sel_attr "loading")]] name a
                    = (String.eqb name "img" || String.eqb name "iframe")
                      && bool_decide (a !! "loading" = None)) as Hsel.
  { intros a. unfold matches. cbn [existsb forallb matches_simple].
    rewrite !andb_true_r, orb_false_r.
    destruct (a !! "loading") as [v|].
    - rewrite bool_decide_eq_true_2 by by eexists.
      rewrite bool_decide_eq_false_2 by done. cbn [negb].
      by rewrite !andb_false_r.
    - rewrite bool_decide_eq_false_2 by by intros [? ?].
      rewrite bool_decide_eq_true_2 by done. cbn [negb].
      by rewrite !andb_true_r. }
  rewrite !Hsel. split; [done|].
  destruct (String.eqb name "img" || String.eqb name "iframe"); cbn [andb];
    [|by split].
  destruct (attribs !! "loading") as [v|] eqn:Hloading.
  - rewrite (bool_decide_eq_false_2 (Some v = None)) by done. rewrite Hloading.
    split; [by apply bool_decide_eq_false_2|by eexists].
  - rewrite (bool_decide_eq_true_2 (None = None)) by done. rewrite lookup_insert_eq.
    split; [by apply bool_decide_eq_false_2|by eexists].
Qed.

(** X6.  After [injectLoadingLazyAttributes] every [img] and every
    [iframe] has a [loading] attribute.  One that had the attribute keeps
    the value it had, one that had none gets "lazy", and no other element
    and no other attribute is touched.  A second run changes nothing. *)
Theorem images_load_lazily (t : tree) :
  (forall path name attribs children,
     node_at path (injectLoadingLazyAttributes t)
       = Some (Element name attribs children) ->
     name = "img" \/ name = "iframe" -> is_Some (attribs !! "loading")) /\
  (forall path,
     match node_at path t with
     | Some (Element name attribs children) =>
         exists attribs',
           node_at path (injectLoadingLazyAttributes t)
             = Some (Element name attribs' (injectLoadingLazyAttributes children)) /\
           (is_Some (attribs !! "loading") -> attribs' = attribs) /\
           (name <> "img" -> name <> "iframe" -> attribs' = attribs) /\
           (name = "img" \/ name = "iframe" -> attribs !! "loading" = None ->
            attribs' = <["loading" := "lazy"]> attribs)
     | other => node_at path (injectLoadingLazyAttributes t) = other
     end) /\
  injectLoadingLazyAttributes (injectLoadingLazyAttributes t)
  = injectLoadingLazyAttributes t.
Proof.
  unfold injectLoadingLazyAttributes. split; [|split].
  - intros path name attribs children Hat Hname.
    assert (forallb
              (every_element
                 (fun name attribs =>
                    implb (String.eqb name "img" || String.eqb name "iframe")
                      (bool_decide (is_Some (attribs !! "loading")))))
              (update_matching
                 [[sel_tag "img"; sel_not (sel_attr "loading")];
                  [sel_tag "iframe"; sel_not (sel_attr "loading")]]
                 (fun attribs => <["loading" := "lazy"]> attribs) t) = true) as Hall.
    { apply update_matching_all. intros name0 attribs0.
      destruct (lazy_once name0 attribs0) as (_ & _ & Hloading).
      destruct (String.eqb name0 "img" || String.eqb name0 "iframe"); [|done].
      by apply bool_decide_eq_true_2, Hloading. }
    pose proof (every_element_node_at _ _ path name attribs children Hall Hat) as Hhere.
    cbv beta in Hhere.
    assert (String.eqb name "img" || String.eqb name "iframe" = true) as Htag
      by (destruct Hname as [-> | ->]; done).
    rewrite Htag in Hhere. cbn [implb] in Hhere. by apply bool_decide_eq_true in Hhere.
  - intros path.
    pose proof (node_at_rewritten
                  [[sel_tag "img"; sel_not (sel_attr "loading")];
                   [sel_tag "iframe"; sel_not (sel_attr "loading")]]
                  (fun attribs => <["loading" := "lazy"]> attribs) path t) as Hat.
    destruct (node_at path t) as [[data|data|name attribs children]|]; try done.
    eexists. split; [exact Hat|].
    destruct (lazy_once name attribs) as (-> & _ & _).
    split; [|split].
    + intros [v Hv]. rewrite Hv, bool_decide_eq_false_2 by done.
      by rewrite andb_false_r.
    + intros Himg%String.eqb_neq Hiframe%String.eqb_neq.
      by rewrite Himg, Hiframe.
    + intros Hname ->. by destruct Hname as [-> | ->].
  - apply update_matching_idemp. intros name attribs. cbv zeta.
    by destruct (lazy_once name attribs) as (_ & -> & _).
Qed.

Lemma images_load_lazily_witness :
  node_at [1; 0] (injectLoadingLazyAttributes Cases.article)
  = Some (Element "img" (<["loading" := "lazy"]> {[ "src" := "a.png" ]}) []) /\
  node_at [1; 1] (injectLoadingLazyAttributes Cases.article)
  = Some (Element "img" (Sample.attrs [("src", "b.png"); ("loading", "eager")]) []).
Proof.
  destruct (images_load_lazily Cases.article) as (_ & Hkept & _). split.
  - destruct (Hkept [1; 0]) as (attribs' & -> & _ & _ & Hlazy).
    by rewrite (Hlazy (or_introl eq_refl) eq_refl).
  - destruct (Hkept [1; 1]) as (attribs' & -> & Heager & _).
    by rewrite (Heager (ex_intro _ "eager" eq_refl)).
Defined.

(** *** [injectInPageCallout] *)

Lemma matches_cons (alternative : compound_selector) (sel : selector)
    (name : string) (attribs : gmap string string) :
  matches (alternative :: sel) name attribs
  = forallb (fun s => matches_simple s name attribs) alternative
    || matches sel name attribs.
Proof. done. Qed.

Lemma callout_once (name : string) (attribs : gmap string string) :
  let sel := [[sel_tag "div"; sel_class "in-page-callout"]] in
  let once :=
    if matches sel name attribs
    then removeClass "in-page-callout webdev" (addClass "callout" attribs)
    else attribs in
  matches sel name once = false /\
  (matches sel name attribs = true ->
   matches [[sel_class "callout"]] name once = true /\
   matches [[sel_class "webdev"]] name once = false /\
   (forall c, c <> "" -> c <> "in-page-callout" -> c <> "webdev" ->
              matches [[sel_class c]] name attribs = true ->
              matches [[sel_class c]] name once = true)) /\
  (forall k, k <> "class" -> once !! k = attribs !! k).
Proof.
  cbv zeta.
  destruct (matches [[sel_tag "div"; sel_class "in-page-callout"]] name attribs)
    eqn:Hsel; [|by split].
  destruct (addClass_class "callout" attribs) as (s1 & Heq & Htrim & Hthere & Hkept);
    [done..|].
  destruct (removeClass_class "in-page-callout webdev" (<["class" := s1]> attribs) s1)
    as (s' & Hs' & _ & Hgone & Hstay); [apply lookup_insert_eq|done|].
  assert (splitNames (Some "in-page-callout webdev") = ["in-page-callout"; "webdev"])
    as Hnames by reflexivity.
  rewrite Hnames in Hgone, Hstay. rewrite Heq.
  assert (forall c, c <> "in-page-callout" -> c <> "webdev" ->
                    c ∉ ["in-page-callout"; "webdev"]) as Hother.
  { intros c H1 H2 Hin.
    repeat (apply elem_of_cons in Hin as [Hin|Hin]; [done|]).
    by apply elem_of_nil in Hin. }
  split; [|split].
  - rewrite matches_tag_class, matches_class, Hs'.
    rewrite Hgone; [apply andb_false_r|done|left].
  - intros _. rewrite !matches_class, Hs'. split; [|split].
    + apply Hstay; [done|done|by apply Hother].
    + apply Hgone; [done|right; left].
    + intros c Hne Hc1 Hc2. rewrite !matches_class, Hs'.
      destruct (attribs !! "class") as [s|] eqn:Hclass; [|done].
      intros Hword. apply Hstay; [done| |by apply Hother]. by apply (Hkept s).
  - intros k Hk. by rewrite removeClass_other, lookup_insert_ne.
Qed.

(** X7.  After [injectInPageCallout] no [div] has the class
    "in-page-callout".  A [div] that had it has the class "callout" instead
    and has lost "webdev"; it keeps its other classes and its other
    attributes.  Everything else in the tree is as it was, and a second
    run changes nothing. *)
Theorem in_page_callouts_renamed (t : tree) :
  (forall path name attribs children,
     node_at path (injectInPageCallout t) = Some (Element name attribs children) ->
     matches [[sel_tag "div"; sel_class "in-page-callout"]] name attribs = false) /\
  (forall path,
     match node_at path t with
     | Some (Element name attribs children) =>
         exists attribs',
           node_at path (injectInPageCallout t)
             = Some (Element name attribs' (injectInPageCallout children)) /\
           (forall k, k <> "class" -> attribs' !! k = attribs !! k) /\
           (matches [[sel_tag "div"; sel_class "in-page-callout"]] name attribs = false ->
            attribs' = attribs) /\
           (matches [[sel_tag "div"; sel_class "in-page-callout"]] name attribs = true ->
            matches [[sel_class "callout"]] name attribs' = true /\
            matches [[sel_class "webdev"]] name attribs' = false /\
            forall c, c <> "" -> c <> "in-page-callout" -> c <> "webdev" ->
                      matches [[sel_class c]] name attribs = true ->
                      matches [[sel_class c]] name attribs' = true)
     | other => node_at path (injectInPageCallout t) = other
     end) /\
  injectInPageCallout (injectInPageCallout t) = injectInPageCallout t.
Proof.
  unfold injectInPageCallout. split; [|split].
  - intros path name attribs children Hat.
    apply negb_true_iff.
    refine (every_element_node_at
              (fun name attribs =>
                 negb (matches [[sel_tag "div"; sel_class "in-page-callout"]]
                         name attribs))
              _ path name attribs children _ Hat).
    apply update_matching_all. intros name0 attribs0.
    destruct (callout_once name0 attribs0) as (Hgone & _).
    by apply negb_true_iff.
  - intros path.
    pose proof (node_at_rewritten [[sel_tag "div"; sel_class "in-page-callout"]]
                  (fun attribs =>
                     removeClass "in-page-callout webdev" (addClass "callout" attribs))
                  path t) as Hat.
    destruct (node_at path t) as [[data|data|name attribs children]|]; try done.
    destruct (callout_once name attribs) as (_ & Hrenamed & Hattrs).
    eexists. split; [exact Hat|]. split; [done|]. split; [|done].
    by intros ->.
  - apply update_matching_idemp. intros name attribs. cbv zeta.
    by destruct (callout_once name attribs) as (-> & _).
Qed.

Lemma in_page_callouts_renamed_witness :
  node_at [2] (injectInPageCallout Cases.article)
  = Some (Element "div" {[ "class" := "callout" ]} [Text "Learn"]) /\
  matches [[sel_class "callout"]] "div" {[ "class" := "callout" ]} = true.
Proof.
  destruct (in_page_callouts_renamed Cases.article) as (_ & Hrenamed & _).
  destruct (Hrenamed [2]) as (attribs' & Hat & _ & _ & Hcallout).
  assert (Some (Element "div" attribs' (injectInPageCallout [Text "Learn"]))
          = Some (Element "div" {[ "class" := "callout" ]} [Text "Learn"])) as [= ->]
    by (rewrite <- Hat; by vm_compute).
  split; [by vm_compute|]. exact (proj1 (Hcallout eq_refl)).
Defined.

(** *** [injectNotecardOnWarnings] *)

Lemma notecard_once (name : string) (attribs : gmap string string) :
  let sel := [[sel_tag "div"; sel_class "warning"];
              [sel_tag "div"; sel_class "note"];
              [sel_tag "div"; sel_class "blockIndicator"]] in
  let once := if matches sel name attribs then notecard attribs else attribs in
  matches [[sel_tag "div"; sel_class "blockIndicator"]] name once = false /\
  (matches sel name attribs = true ->
   matches [[sel_class "notecard"]] name once = true /\
   (forall c, c <> "" -> c <> "blockIndicator" ->
              matches [[sel_class c]] name attribs = true ->
              matches [[sel_class c]] name once = true)) /\
  (forall k, k <> "class" -> once !! k = attribs !! k).
Proof.
  cbv zeta.
  destruct (matches _ name attribs) eqn:Hsel.
  - unfold notecard.
    destruct (addClass_class "notecard" attribs)
      as (s1 & Heq & Htrim & Hthere & Hkept); [done..|].
    destruct (removeClass_class "blockIndicator" (<["class" := s1]> attribs) s1)
      as (s' & Hs' & _ & Hgone & Hstay); [apply lookup_insert_eq|done|].
    assert (splitNames (Some "blockIndicator") = ["blockIndicator"])
      as Hnames by reflexivity.
    rewrite Hnames in Hgone, Hstay. rewrite Heq.
    assert (forall c, c <> "blockIndicator" -> c ∉ ["blockIndicator"]) as Hother.
    { intros c Hc Hin. apply elem_of_cons in Hin as [Hin|Hin]; [done|].
      by apply elem_of_nil in Hin. }
    split; [|split].
    + rewrite matches_tag_class, matches_class, Hs'.
      rewrite Hgone; [apply andb_false_r|done|left].
    + intros _. rewrite !matches_class, Hs'. split.
      * apply Hstay; [done|done|by apply Hother].
      * intros c Hne Hc. rewrite !matches_class, Hs'.
        destruct (attribs !! "class") as [s|] eqn:Hclass; [|done].
        intros Hword. apply Hstay; [done| |by apply Hother]. by apply (Hkept s).
    + intros k Hk. by rewrite removeClass_other, lookup_insert_ne.
  - split; [|by split]. rewrite !matches_cons in Hsel.
    apply orb_false_elim in Hsel as [_ [_ Hsel]%orb_false_elim].
    by rewrite matches_cons.
Qed.

(** X8.  After [injectNotecardOnWarnings] no [div] has the class
    "blockIndicator".  A [div] that had one of the classes "warning", "note"
    and "blockIndicator" has the class "notecard", whatever else its class
    attribute holds, and keeps every other class it had, "warning" and "note"
    included; its other attributes and the rest of the tree are as they
    were. *)
Theorem notecards_marked (t : tree) :
  (forall path name attribs children,
     node_at path (injectNotecardOnWarnings t) = Some (Element name attribs children) ->
     matches [[sel_tag "div"; sel_class "blockIndicator"]] name attribs = false) /\
  (forall path,
     match node_at path t with
     | Some (Element name attribs children) =>
         let marked :=
           matches [[sel_tag "div"; sel_class "warning"];
                    [sel_tag "div"; sel_class "note"];
                    [sel_tag "div"; sel_class "blockIndicator"]] name attribs in
         exists attribs',
           node_at path (injectNotecardOnWarnings t)
             = Some (Element name attribs' (injectNotecardOnWarnings children)) /\
           (forall k, k <> "class" -> attribs' !! k = attribs !! k) /\
           (marked = false -> attribs' = attribs) /\
           (marked = true ->
            matches [[sel_class "notecard"]] name attribs' = true /\
            forall c, c <> "" -> c <> "blockIndicator" ->
                      matches [[sel_class c]] name attribs = true ->
                      matches [[sel_class c]] name attribs' = true)
     | other => node_at path (injectNotecardOnWarnings t) = other
     end).
Proof.
  unfold injectNotecardOnWarnings. split.
  - intros path name attribs children Hat.
    apply negb_true_iff.
    refine (every_element_node_at
              (fun name attribs =>
                 negb (matches [[sel_tag "div"; sel_class "blockIndicator"]]
                         name attribs))
              _ path name attribs children _ Hat).
    apply update_matching_all. intros name0 attribs0.
    destruct (notecard_once name0 attribs0) as (Hgone & _).
    by apply negb_true_iff.
  - intros path.
    pose proof (node_at_rewritten
                  [[sel_tag "div"; sel_class "warning"];
                   [sel_tag "div"; sel_class "note"];
                   [sel_tag "div"; sel_class "blockIndicator"]] notecard path t) as Hat.
    destruct (node_at path t) as [[data|data|name attribs children]|]; try done.
    destruct (notecard_once name attribs) as (_ & Hmarked & Hattrs).
    eexists. split; [exact Hat|]. split; [done|]. split; [|done].
    by intros ->.
Qed.

Lemma notecards_marked_witness :
  node_at [3] (injectNotecardOnWarnings Cases.article)
  = Some (Element "div" {[ "class" := "note notecard" ]} [Text "Note"]) /\
  matches [[sel_class "note"]] "div" {[ "class" := "note notecard" ]} = true.
Proof.
  destruct (notecards_marked Cases.article) as (_ & Hmarked).
  destruct (Hmarked [3]) as (attribs' & Hat & _ & _ & Hnote).
  assert (Some (Element "div" attribs' (injectNotecardOnWarnings [Text "Note"]))
          = Some (Element "div" {[ "class" := "note notecard" ]} [Text "Note"]))
    as [= ->] by (rewrite <- Hat; by vm_compute).
  split; [by vm_compute|]. by apply (proj2 (Hnote eq_refl)).
Defined.

(** *** Links to the site-compatibility site *)

Lemma hideSiteCompatLink_once (name : string) (attribs : gmap string string) :
  let sel := [[sel_tag "a"; sel_attr "href"]] in
  let once := if matches sel name attribs then hideSiteCompatLink attribs else attribs in
  let href a := attr_or_empty "href" a in
  String.eqb name "a" && JSString.startsWith (href once) "http"
  && JSString.includes (href once) "fxsitecompat.com" = false /\
  (forall k, k <> "href" -> once !! k = attribs !! k) /\
  (String.eqb name "a" && JSString.startsWith (href attribs) "http"
   && JSString.includes (href attribs) "fxsitecompat.com" = false ->
   once = attribs) /\
  (String.eqb name "a" && JSString.startsWith (href attribs) "http"
   && JSString.includes (href attribs) "fxsitecompat.com" = true ->
   once = <["href" := "https://github.com/mdn/kuma/issues/7647"]> attribs).
Proof.
  cbv zeta.
  assert (matches [[sel_tag "a"; sel_attr "href"]] name attribs
          = String.eqb name "a" && bool_decide (is_Some (attribs !! "href"))) as ->.
  { unfold matches. cbn [existsb forallb matches_simple].
    by rewrite andb_true_r, orb_false_r. }
  unfold hideSiteCompatLink.
  destruct (String.eqb name "a"); cbn [andb]; [|done].
  destruct (attribs !! "href") as [href|] eqn:Hhref.
  - rewrite bool_decide_eq_true_2 by by eexists.
    assert (attr_or_empty "href" attribs = href) as Hattr
      by (unfold attr_or_empty; by rewrite Hhref).
    rewrite !Hattr.
    destruct (JSString.startsWith href "http"
              && JSString.includes href "fxsitecompat.com") eqn:Hbad.
    + assert (attr_or_empty "href"
                (<["href" := "https://github.com/mdn/kuma/issues/7647"]> attribs)
              = "https://github.com/mdn/kuma/issues/7647") as ->
        by (unfold attr_or_empty; by rewrite lookup_insert_eq).
      split; [done|]. split; [|done]. intros k Hk. by rewrite lookup_insert_ne.
    + by rewrite Hattr, Hbad.
  - rewrite bool_decide_eq_false_2 by by intros [? ?].
    assert (attr_or_empty "href" attribs = "") as ->
      by (unfold attr_or_empty; by rewrite Hhref).
    done.
Qed.

(** X9.  After the pass over the links of [buildDocument] no link of the
    tree leads to fxsitecompat.com over http or https: each such link
    points to the issue that explains why.  Every other link, every other
    attribute and the rest of the tree are as they were, and a second run
    changes nothing. *)
Theorem site_compat_links_hidden (t : tree) :
  (forall path attribs children href,
     node_at path (hideSiteCompatLinks t) = Some (Element "a" attribs children) ->
     attribs !! "href" = Some href ->
     JSString.startsWith href "http" = true ->
     JSString.includes href "fxsitecompat.com" = false) /\
  (forall path,
     match node_at path t with
     | Some (Element name attribs children) =>
         let evil :=
           String.eqb name "a"
           && JSString.startsWith (attr_or_empty "href" attribs) "http"
           && JSString.includes (attr_or_empty "href" attribs) "fxsitecompat.com" in
         exists attribs',
           node_at path (hideSiteCompatLinks t)
             = Some (Element name attribs' (hideSiteCompatLinks children)) /\
           (forall k, k <> "href" -> attribs' !! k = attribs !! k) /\
           (evil = false -> attribs' = attribs) /\
           (evil = true ->
            attribs' = <["href" := "https://github.com/mdn/kuma/issues/7647"]> attribs)
     | other => node_at path (hideSiteCompatLinks t) = other
     end) /\
  hideSiteCompatLinks (hideSiteCompatLinks t) = hideSiteCompatLinks t.
Proof.
  unfold hideSiteCompatLinks. split; [|split].
  - intros path attribs children href Hat Hhref Hhttp.
    assert (forallb
              (every_element
                 (fun name attribs =>
                    negb (String.eqb name "a"
                          && JSString.startsWith (attr_or_empty "href" attribs) "http"
                          && JSString.includes (attr_or_empty "href" attribs)
                               "fxsitecompat.com")))
              (update_matching [[sel_tag "a"; sel_attr "href"]] hideSiteCompatLink t)
            = true) as Hall.
    { apply update_matching_all. intros name0 attribs0.
      destruct (hideSiteCompatLink_once name0 attribs0) as (Hgone & _).
      by apply negb_true_iff. }
    pose proof (every_element_node_at _ _ path "a" attribs children Hall Hat) as Hhere.
    cbv beta in Hhere.
    assert (attr_or_empty "href" attribs = href) as Hattr
      by (unfold attr_or_empty; by rewrite Hhref).
    rewrite Hattr, Hhttp in Hhere. by apply negb_true_iff in Hhere.
  - intros path.
    pose proof (node_at_rewritten [[sel_tag "a"; sel_attr "href"]] hideSiteCompatLink
                  path t) as Hat.
    destruct (node_at path t) as [[data|data|name attribs children]|]; try done.
    destruct (hideSiteCompatLink_once name attribs) as (_ & Hattrs & Hgood & Hevil).
    eexists. by split; [exact Hat|].
  - apply update_matching_idemp. intros name attribs. cbv zeta.
    set (once := if matches _ name attribs then _ else _).
    destruct (hideSiteCompatLink_once name attribs) as (Hgone & _).
    fold once in Hgone.
    destruct (hideSiteCompatLink_once name once) as (_ & _ & Hgood & _).
    by apply Hgood.
Qed.

Lemma site_compat_links_hidden_witness :
  node_at [1; 2] (hideSiteCompatLinks Cases.article)
  = Some (Element "a" {[ "href" := "https://github.com/mdn/kuma/issues/7647" ]}
            [Text "site compatibility"]).
Proof.
  destruct (site_compat_links_hidden Cases.article) as (_ & Hhidden & _).
  destruct (Hhidden [1; 2]) as (attribs' & -> & _ & _ & Hevil).
  by rewrite (Hevil eq_refl).
Defined.

(** *** Elements taken out of the tree *)

Lemma remove_matching_all (sel : selector) (t : tree) :
  Forall (fun n => selected sel n = false ->
                   every_element (fun name attribs => negb (matches sel name attribs))
                     (prune_node sel n) = true) t ->
  forallb (every_element (fun name attribs => negb (matches sel name attribs)))
    (remove_matching sel t) = true.
Proof.
  induction 1 as [|n t Hn _ IH]; [done|]. cbn [remove_matching].
  destruct (selected sel n); [done|]. cbn [forallb]. by rewrite Hn, IH.
Qed.

Lemma remove_matching_gone (sel : selector) (t : tree) :
  forallb (every_element (fun name attribs => negb (matches sel name attribs)))
    (remove_matching sel t) = true.
Proof.
  apply remove_matching_all, Forall_forall. intros n _.
  induction n as [data|data|name attribs children IH] using node_induction;
    [done..|].
  intros Hkept. rewrite prune_node_element.
  cbn [every_element selected] in *. rewrite Hkept. cbn [negb andb].
  by apply remove_matching_all.
Qed.

(** What [remove] leaves at a position was somewhere in the tree, as it
    is but for what was taken out below it. *)
Lemma remove_matching_lookup (sel : selector) (t : tree) (i : nat) (n : node) :
  remove_matching sel t !! i = Some n ->
  exists j n', t !! j = Some n' /\ n = prune_node sel n'.
Proof.
  revert i. induction t as [|n0 t IH]; intros i; [done|]. cbn [remove_matching].
  destruct (selected sel n0).
  - intros (j & n' & Hj & Hn)%IH. by exists (S j), n'.
  - destruct i as [|i]; [intros [= <-]; by exists 0, n0|].
    intros (j & n' & Hj & Hn)%IH. by exists (S j), n'.
Qed.

Lemma remove_matching_node_at (sel : selector) (path : list nat) : forall (t : tree) n,
  node_at path (remove_matching sel t) = Some n ->
  exists path' n', node_at path' t = Some n' /\ n = prune_node sel n'.
Proof.
  induction path as [|i path IH]; intros t n; [done|]. cbn [node_at].
  destruct path as [|i' path].
  - intros (j & n' & Hj & Hn)%remove_matching_lookup. by exists [j], n'.
  - destruct (remove_matching sel t !! i) as [m|] eqn:Hm; [|done].
    apply remove_matching_lookup in Hm as (j & m' & Hj & ->).
    destruct m' as [data|data|name attribs children]; try done.
    rewrite prune_node_element.
    intros (path' & n' & Hpath' & Hn)%IH. exists (j :: path'), n'.
    split; [|done]. cbn [node_at]. rewrite Hj.
    by destruct path' as [|? ?].
Qed.

(** X10.  The tree that [buildDocument] loads has no [span] of class
    "alllinks", and after its [div.hidden] elements are removed a tree has
    none.  What a removal leaves is what was in the tree: every element
    that is left was there with the same name and the same attributes, and
    its children are those it had, less the removed ones. *)
Theorem removed_elements_gone {Ext} `{!Cheerio}
    (options : object) (renderedHtml : string) (w w' : World Ext) (t t0 : tree) :
  (loadTree options renderedHtml w = (w', Ok t) ->
   forall path name attribs children,
     node_at path t = Some (Element name attribs children) ->
     matches [[sel_tag "span"; sel_class "alllinks"]] name attribs = false) /\
  (forall path name attribs children,
     node_at path (remove_matching [[sel_tag "div"; sel_class "hidden"]] t0)
       = Some (Element name attribs children) ->
     matches [[sel_tag "div"; sel_class "hidden"]] name attribs = false /\
     exists path' children',
       node_at path' t0 = Some (Element name attribs children') /\
       children = remove_matching [[sel_tag "div"; sel_class "hidden"]] children').
Proof.
  split.
  - unfold loadTree. intros Hload path name attribs children Hat.
    step_ok Hload as level Hlevel. apply ret_inv in Hload as [_ ->].
    apply negb_true_iff.
    refine (every_element_node_at
              (fun name attribs =>
                 negb (matches [[sel_tag "span"; sel_class "alllinks"]] name attribs))
              _ path name attribs children _ Hat).
    apply remove_matching_gone.
  - intros path name attribs children Hat. split.
    + apply negb_true_iff.
      refine (every_element_node_at
                (fun name attribs =>
                   negb (matches [[sel_tag "div"; sel_class "hidden"]] name attribs))
                _ path name attribs children _ Hat).
      apply remove_matching_gone.
    + apply remove_matching_node_at in Hat as (path' & n' & Hat & Hn).
      destruct n' as [data|data|name' attribs' children']; try done.
      rewrite prune_node_element in Hn. injection Hn as -> -> ->.
      by exists path', children'.
Qed.

Lemma removed_elements_gone_witness :
  exists t,
    @loadTree unit Cases.parser (Sample.options "warn") "" Sample.world
      = (Sample.world, Ok t) /\
    node_at [1] t
      = Some (Element "p" ∅
                [Element "img" (Sample.attrs [("src", "a.png")]) [];
                 Element "img" (Sample.attrs [("src", "b.png"); ("loading", "eager")]) [];
                 Element "a"
                   (Sample.attrs [("href", "https://www.fxsitecompat.com/en-CA/docs/1")])
                   [Text "site compatibility"]]) /\
    matches [[sel_tag "span"; sel_class "alllinks"]] "p" ∅ = false.
Proof.
  eexists. split; [vm_compute; reflexivity|]. split; [by vm_compute|].
  refine (proj1 (@removed_elements_gone unit Cases.parser (Sample.options "warn") ""
                   Sample.world Sample.world _ []) _ [1] "p" ∅ _ _);
    [vm_compute; reflexivity|by vm_compute].
Defined.

(** *** The post-processors together *)

Lemma rewritten_keeps (sel : selector) (f : gmap string string -> gmap string string)
    (k name : string) (attribs : gmap string string) :
  (forall a, f a !! k = a !! k) ->
  (if matches sel name attribs then f attribs else attribs) !! k = attribs !! k.
Proof. intros Hf. by destruct (matches sel name attribs). Qed.

(** X11.  The five post-processors keep the shape of the tree: no node is
    added, removed, moved or renamed, text and comments are as they were,
    and of an element only the attributes [class], [rel] and [loading] can
    change, and those only on [pre], [img], [iframe], [a] and [div]. *)
Theorem postProcess_keeps_shape (t : tree) (path : list nat) :
  match node_at path t with
  | Some (Element name attribs children) =>
      exists attribs',
        node_at path (postProcess t)
          = Some (Element name attribs' (postProcess children)) /\
        (forall k, k <> "class" -> k <> "rel" -> k <> "loading" ->
                   attribs' !! k = attribs !! k) /\
        (name ∉ ["pre"; "img"; "iframe"; "a"; "div"] -> attribs' = attribs)
  | other => node_at path (postProcess t) = other
  end.
Proof.
  unfold postProcess, injectNotecardOnWarnings, injectInPageCallout,
    postProcessExternalLinks, injectLoadingLazyAttributes, injectNoTranslate.
  rewrite !node_at_update.
  destruct (node_at path t) as [[data|data|name attribs children]|]; try done.
  cbn [fmap option_fmap option_map update_node].
  eexists. split; [reflexivity|]. split.
  - intros k Hclass Hrel Hloading.
    rewrite (rewritten_keeps _ notecard k)
      by (intros; unfold notecard; by rewrite removeClass_other, addClass_other).
    rewrite (rewritten_keeps _
               (fun a => removeClass "in-page-callout webdev" (addClass "callout" a)) k)
      by (intros; by rewrite removeClass_other, addClass_other).
    rewrite (rewritten_keeps _ externalLink k) by (intros; by apply externalLink_other).
    rewrite (rewritten_keeps _ (fun a => <["loading" := "lazy"]> a) k)
      by (intros; by rewrite lookup_insert_ne).
    by rewrite (rewritten_keeps _ (addClass "notranslate") k)
      by (intros; by apply addClass_other).
  - intros Hname.
    assert (forall tag, tag ∈ ["pre"; "img"; "iframe"; "a"; "div"] ->
                        String.eqb name tag = false) as Htag.
    { intros tag Hin. apply String.eqb_neq. by intros ->. }
    assert (forall sel : selector,
              Forall (fun alternative =>
                        exists tag rest, alternative = sel_tag tag :: rest /\
                                         tag ∈ ["pre"; "img"; "iframe"; "a"; "div"]) sel ->
              forall a, matches sel name a = false) as Hnone.
    { intros sel Hsel a. induction Hsel as [|alternative sel Htagged _ IH]; [done|].
      rewrite matches_cons, IH. destruct Htagged as (tag & rest & -> & Hin).
      cbn [forallb matches_simple]. by rewrite (Htag tag Hin). }
    rewrite !Hnone; [done|..];
      repeat (apply Forall_cons; split; [eexists _, _; split; [reflexivity|];
                repeat first [apply list_elem_of_here | apply list_elem_of_further]|]);
      apply Forall_nil_2.
Qed.

Lemma postProcess_keeps_shape_witness :
  exists attribs',
    node_at [1; 2] (postProcess Cases.article)
      = Some (Element "a" attribs' [Text "site compatibility"]) /\
    attribs' !! "href" = Some "https://www.fxsitecompat.com/en-CA/docs/1".
Proof.
  destruct (postProcess_keeps_shape Cases.article [1; 2])
    as (attribs' & Hat & Hkept & _).
  exists attribs'. split; [exact Hat|]. by rewrite Hkept.
Defined.

(** ** The table of contents *)

Section Contents.

Implicit Types (section entry : value) (sections entries : list value).

Lemma mapR_inr {A B} (f : A -> value + B) (l : list A) (bs : list B) :
  mapR f l = inr bs <-> Forall2 (fun a b => f a = inr b) l bs.
Proof.
  revert bs. induction l as [|a l IH]; intros bs; cbn [mapR].
  - split; [intros [= <-]; constructor|by intros ->%Forall2_nil_inv_l].
  - split.
    + destruct (f a) as [e|b] eqn:Ha; [done|].
      destruct (mapR f l) as [e|bs'] eqn:Hl; [done|].
      intros [= <-]. constructor; [done|]. by apply IH.
    + intros (b & bs' & Ha & Hl & ->)%Forall2_cons_inv_l.
      apply IH in Hl. by rewrite Ha, Hl.
Qed.

Lemma mapR_app {A B} (f : A -> value + B) (l1 l2 : list A) (bs : list B) :
  mapR f (l1 ++ l2) = inr bs ->
  exists bs1 bs2, mapR f l1 = inr bs1 /\ mapR f l2 = inr bs2 /\ bs = bs1 ++ bs2.
Proof.
  intros (bs1 & bs2 & H1 & H2 & ->)%mapR_inr%Forall2_app_inv_l.
  exists bs1, bs2. by rewrite !mapR_inr.
Qed.

(** What [tocEntry] gives for a section: an entry when the section is a
    heading, [null] when it is not. *)
Lemma tocEntry_heading section entry :
  tocEntry section = inr entry ->
  entry = VNull \/
  exists type value id title isH3,
    getProp section "type" = inr type /\
    isString type "prose" || isString type "browser_compatibility" = true /\
    getProp section "value" = inr value /\
    getProp value "id" = inr id /\ truthy id = true /\
    getProp value "title" = inr title /\ truthy title = true /\
    getProp value "isH3" = inr isH3 /\ truthy isH3 = false /\
    entry = VObject (<["text" := title]> (<["id" := id]> ∅)).
Proof.
  unfold tocEntry, andThen.
  destruct (getProp section "type") as [e|type] eqn:Htype; [done|].
  destruct (isString type "prose" || isString type "browser_compatibility")
    eqn:Hheading; cbn [negb]; [|intros [= <-]; by left].
  destruct (getProp section "value") as [e|value] eqn:Hvalue; [done|].
  destruct (getProp value "id") as [e|id] eqn:Hid; [done|].
  destruct (truthy id) eqn:Hsome; cbn [negb]; [|intros [= <-]; by left].
  destruct (getProp value "title") as [e|title] eqn:Htitle; [done|].
  destruct (truthy title) eqn:Hnamed; cbn [negb]; [|intros [= <-]; by left].
  destruct (getProp value "isH3") as [e|isH3] eqn:HisH3; [done|].
  destruct (truthy isH3) eqn:Hh2; [intros [= <-]; by left|].
  intros [= <-]. right. exists type, value, id, title, isH3.
  repeat (split; [done|]). done.
Qed.

Lemma tocEntry_of_heading section type value id title isH3 :
  getProp section "type" = inr type ->
  isString type "prose" || isString type "browser_compatibility" = true ->
  getProp section "value" = inr value ->
  getProp value "id" = inr id -> truthy id = true ->
  getProp value "title" = inr title -> truthy title = true ->
  getProp value "isH3" = inr isH3 -> truthy isH3 = false ->
  tocEntry section = inr (VObject (<["text" := title]> (<["id" := id]> ∅))).
Proof.
  intros Htype Hheading Hvalue Hid Hsome Htitle Hnamed HisH3 Hh2.
  unfold tocEntry, andThen.
  by rewrite Htype, Hheading, Hvalue, Hid, Hsome, Htitle, Hnamed, HisH3, Hh2.
Qed.

Lemma makeTOC_body (doc : object) sections :
  doc !! "body" = Some (VArray sections) ->
  makeTOC doc =
  match mapR tocEntry sections with
  | inl e => inl e
  | inr entries => inr (VArray (filter (fun v => truthy v = true) entries))
  end.
Proof. intros Hbody. unfold makeTOC. by rewrite Hbody. Qed.

(** X12.  The table of contents that [makeTOC] returns has one entry for
    every section of the body that is a heading: a section of type "prose"
    or "browser_compatibility" whose value has an id and a title and is not
    an [h3].  The entry is the pair of the title and the id, the entries
    come in the order of the sections (the table of a body is the table of
    its first part followed by that of the rest), and there is nothing else
    in the table. *)
Theorem makeTOC_entries (doc : object) sections (toc : value) :
  doc !! "body" = Some (VArray sections) ->
  makeTOC doc = inr toc ->
  exists entries,
    toc = VArray entries /\
    length entries <= length sections /\
    (forall entry,
       entry ∈ entries <->
       exists section type value id title isH3,
         section ∈ sections /\
         getProp section "type" = inr type /\
         isString type "prose" || isString type "browser_compatibility" = true /\
         getProp section "value" = inr value /\
         getProp value "id" = inr id /\ truthy id = true /\
         getProp value "title" = inr title /\ truthy title = true /\
         getProp value "isH3" = inr isH3 /\ truthy isH3 = false /\
         entry = VObject (<["text" := title]> (<["id" := id]> ∅))) /\
    (forall first rest,
       sections = first ++ rest ->
       exists entries1 entries2,
         makeTOC {[ "body" := VArray first ]} = inr (VArray entries1) /\
         makeTOC {[ "body" := VArray rest ]} = inr (VArray entries2) /\
         entries = entries1 ++ entries2).
Proof.
  intros Hbody. rewrite (makeTOC_body doc sections Hbody).
  destruct (mapR tocEntry sections) as [e|raw] eqn:Hraw; [done|]. intros [= <-].
  eexists. split; [done|]. split; [|split].
  - apply mapR_inr, Forall2_length in Hraw. rewrite Hraw. apply length_filter.
  - intros entry. rewrite list_elem_of_filter. apply mapR_inr in Hraw. split.
    + intros [Htruthy Hin].
      apply list_elem_of_lookup in Hin as [i Hi].
      destruct (Forall2_lookup_r _ _ _ _ _ Hraw Hi) as (section & Hsection & Hentry).
      apply tocEntry_heading in Hentry as [-> | Hheading]; [done|].
      destruct Hheading as (type & value & id & title & isH3 & Hheading).
      exists section, type, value, id, title, isH3.
      split; [by eapply list_elem_of_lookup_2|done].
    + intros (section & type & value & id & title & isH3 & Hin & Htype & Hheading
              & Hvalue & Hid & Hsome & Htitle & Hnamed & HisH3 & Hh2 & ->).
      split; [done|].
      apply list_elem_of_lookup in Hin as [i Hi].
      destruct (Forall2_lookup_l _ _ _ _ _ Hraw Hi) as (entry & Hentry & Hsection).
      rewrite (tocEntry_of_heading section type value id title isH3) in Hsection
        by done.
      injection Hsection as <-. by eapply list_elem_of_lookup_2.
  - intros first rest ->.
    apply mapR_app in Hraw as (raw1 & raw2 & Hraw1 & Hraw2 & ->).
    eexists _, _.
    rewrite (makeTOC_body _ first), (makeTOC_body _ rest), Hraw1, Hraw2
      by apply lookup_singleton_eq.
    split; [done|]. split; [done|]. apply filter_app.
Qed.

Lemma makeTOC_entries_witness :
  makeTOC
    {[ "body" :=
         VArray [VObject (Sample.obj
                   [("type", VString "prose");
                    ("value", VObject (Sample.obj [("id", VString "syntax");
                                                   ("title", VString "Syntax");
                                                   ("isH3", VBool false)]))]);
                 VObject (Sample.obj
                   [("type", VString "prose");
                    ("value", VObject (Sample.obj [("id", VString "values");
                                                   ("title", VString "Values");
                                                   ("isH3", VBool true)]))]);
                 VObject (Sample.obj
                   [("type", VString "browser_compatibility");
                    ("value", VObject (Sample.obj
                       [("id", VString "browser_compatibility");
                        ("title", VString "Browser compatibility")]))])] ]}
  = inr (VArray [VObject (Sample.obj [("text", VString "Syntax");
                                      ("id", VString "syntax")]);
                 VObject (Sample.obj [("text", VString "Browser compatibility");
                                      ("id", VString "browser_compatibility")])]).
Proof.
  match goal with |- makeTOC ?doc = _ => destruct (makeTOC doc) as [e|toc] eqn:Htoc end;
    [vm_compute in Htoc; discriminate|].
  destruct (makeTOC_entries _ _ toc (lookup_singleton_eq _ _) Htoc)
    as (entries & -> & _ & _ & Hparts).
  destruct (Hparts [_] [_; _] eq_refl) as (entries1 & entries2 & H1 & H2 & ->).
  vm_compute in H1, H2. by injection H1 as <-; injection H2 as <-.
Defined.

(** X13.  [makeTOC] reads the value of a section only when the type of the
    section is "prose" or "browser_compatibility": sections of other types
    give no entry and cannot make it fail, whatever they hold, while a
    section of one of the two types that has no value makes it throw a
    [TypeError]. *)
Theorem makeTOC_reads_headings_only (doc : object) sections :
  doc !! "body" = Some (VArray sections) ->
  (Forall (fun section =>
             exists type, getProp section "type" = inr type /\
                          isString type "prose" = false /\
                          isString type "browser_compatibility" = false) sections ->
   makeTOC doc = inr (VArray [])) /\
  (forall first section rest type,
     sections = first ++ section :: rest ->
     Forall (fun earlier => exists entry, tocEntry earlier = inr entry) first ->
     getProp section "type" = inr type ->
     isString type "prose" || isString type "browser_compatibility" = true ->
     getProp section "value" = inr VUndefined ->
     makeTOC doc
     = inl (mkTypeError "Cannot read properties of undefined (reading 'id')")).
Proof.
  intros Hbody. rewrite (makeTOC_body doc sections Hbody). clear Hbody. split.
  - intros Hother.
    assert (mapR tocEntry sections = inr (replicate (length sections) VNull)) as ->.
    { apply mapR_inr. induction Hother as [|section sections Hsection _ IH];
        [constructor|].
      cbn [length replicate]. constructor; [|done].
      destruct Hsection as (type & Htype & Hprose & Hcompat).
      unfold tocEntry, andThen. by rewrite Htype, Hprose, Hcompat. }
    f_equal. f_equal. induction (length sections) as [|n IH]; [done|].
    cbn [replicate]. by rewrite filter_cons_False.
  - intros first section rest type -> Hfirst Htype Hheading Hvalue.
    induction Hfirst as [|earlier first [entry Hentry] _ IH].
    + cbn [app mapR]. unfold tocEntry at 1, andThen.
      by rewrite Htype, Hheading, Hvalue.
    + change ((earlier :: first) ++ section :: rest)
        with (earlier :: (first ++ section :: rest)).
      cbn [mapR]. rewrite Hentry.
      by destruct (mapR tocEntry (first ++ section :: rest)) as [e|entries];
        [injection IH as ->|].
Qed.

Lemma makeTOC_reads_headings_only_witness :
  makeTOC {[ "body" := VArray [VObject {[ "type" := VString "specifications" ]}] ]}
  = inr (VArray []) /\
  makeTOC {[ "body" := VArray [VObject {[ "type" := VString "prose" ]}] ]}
  = inl (mkTypeError "Cannot read properties of undefined (reading 'id')").
Proof.
  split.
  - apply (makeTOC_reads_headings_only _ _ (lookup_singleton_eq _ _)).
    repeat constructor. by exists (VString "specifications").
  - apply (proj2 (makeTOC_reads_headings_only _ _ (lookup_singleton_eq _ _))
             [] _ [] (VString "prose") eq_refl); done.
Defined.

End Contents.

(** ** What stops a build, and what a build skips *)

Section Failures.

Context {Ext : Type}.
Context `{!Content Ext, !Kumascript Ext, !Chalk, !Cheerio, !BuildOptions,
          !BuildModules Ext}.
Implicit Types (document : Document.t) (documentOptions options doc : object)
  (w : World Ext).

Lemma buildDocument_before_throws document documentOptions w w' (e : value) :
  beforeTree document documentOptions w = (w', Throw e) ->
  buildDocument document documentOptions w = (w', Throw e).
Proof. intros Hbefore. unfold buildDocument. by rewrite (bind_throw _ _ _ _ _ Hbefore). Qed.

Lemma beforeTree_render_throws document documentOptions w w' (e : value) :
  urlToFolderPath (Document.url document)
    = Document.folder (Document.fileInfo document) ->
  renderDocument (mergeOptions documentOptions) document (newDoc document) w
    = (w', Throw e) ->
  beforeTree document documentOptions w = (w', Throw e).
Proof.
  intros Hfolder Hrender. unfold beforeTree.
  rewrite Hfolder, String.eqb_refl. cbn [negb].
  by rewrite (bind_throw _ _ _ _ _ Hrender).
Qed.

Lemma renderDocument_failed options document w w0 w1 (error : value) :
  Document.isArchive document = false ->
  (if truthy (default VUndefined (options !! "clearKumascriptRenderCache"))
   then renderCache_reset else ret tt) w = (w0, Ok tt) ->
  render (Document.url document) w0 = (w1, Throw error) ->
  renderDocument options document (newDoc document) w
  = @renderFailed Ext _ (string * list LiveSample.t * object) document error w1.
Proof.
  intros Harchive Hreset Hrender. unfold renderDocument.
  rewrite newDoc_isArchive, Harchive. cbn [truthy].
  rewrite (bind_ok _ _ _ _ _ Hreset). unfold bind at 1, try_catch.
  rewrite Hrender.
  destruct (renderFailed_throws (A := string * list value) document error w1)
    as (w2 & e & Hfailed).
  rewrite Hfailed. revert Hfailed. unfold renderFailed, bind, liftR.
  destruct (getProp error "name") as [e0|name]; [by intros [= -> ->]|].
  cbv [ret throw].
  destruct (isString name "MacroInvocationError"); [|by intros [= -> ->]].
  repeat match goal with
         | |- context [match ?read with inl _ => _ | inr _ => _ end] =>
             destruct read; [by intros [= -> ->]|]
         end.
  by intros [= -> ->].
Qed.

(** X14.  A document whose URL does not lead to the folder it was read
    from is not built: [buildDocument] throws, naming the slug and the
    folder, before it renders or prints anything. *)
Theorem folder_mismatch_fatal document documentOptions w :
  urlToFolderPath (Document.url document)
    <> Document.folder (Document.fileInfo document) ->
  buildDocument document documentOptions w
  = (w, Throw (mkError
                 ("The document's slug ("
                  +:+ Document.slug (Document.metadata document)
                  +:+ ") doesn't match its disk folder name ("
                  +:+ Document.folder (Document.fileInfo document) +:+ ")"))).
Proof.
  intros Hfolder. apply buildDocument_before_throws. unfold beforeTree.
  by rewrite (proj2 (String.eqb_neq _ _) Hfolder).
Qed.

(** X15.  The macro engine is not run on an archived document: the HTML of
    the document is taken as it is, whatever the level of the macro flaws
    and whether or not the render cache was to be cleared; there are no
    macro flaws and no live samples. *)
Theorem archived_document_not_rendered document documentOptions w :
  Document.isArchive document = true ->
  renderDocument (mergeOptions documentOptions) document (newDoc document) w
    = (w, Ok (Document.rawHTML document, [], newDoc document)) /\
  (forall w' out,
     buildDocument document documentOptions w = (w', Ok out) ->
     liveSamples out = []).
Proof.
  intros Harchive.
  assert (renderDocument (mergeOptions documentOptions) document (newDoc document) w
          = (w, Ok (Document.rawHTML document, [], newDoc document))) as Hrender.
  { unfold renderDocument. by rewrite newDoc_isArchive, Harchive. }
  split; [done|]. intros w' out Hbuild.
  apply buildDocument_inv in Hbuild as (w1 & renderedHtml & doc1 & Hrendered).
  rewrite Hrender in Hrendered. by injection Hrendered as _ _ <- _.
Qed.


(** X17.  When [injectFlaws] throws, [buildDocument] prints a warning that
    names the file and the URL of the document and throws the same error
    on; when [fixFixableFlaws] throws, it prints the error itself on the
    error stream and throws it on.  Nothing else is printed. *)
Theorem flaw_check_failure_logged options document doc (renderedHtml : string)
    w w1 w2 w3 w4 (t0 t1 t2 t3 : tree) (native sidebarHTML fileAttachments : value)
    (doc2 doc3 : object) :
  let metadata := Document.metadata document in
  let doc1 :=
    <["sidebarHTML" := sidebarHTML]>
      (<["native" := native]>
      (<["locale" := VString (Document.locale metadata)]>
      (<["mdn_url" := VString (Document.url document)]>
      (<["title" := VString (Document.title metadata)]> doc)))) in
  let logged w (s : stream) (v : value) :=
    Build_World (console w ++ [(s, v)]) (rootToGitBranchMap w) (ext w) in
  loadTree options renderedHtml w = (w, Ok t0) ->
  nativeName (JSString.toLowerCase (Document.locale metadata)) w = (w, Ok native) ->
  extractSidebar t0 w = (w1, Ok (sidebarHTML, t1)) ->
  checkImageReferences doc1 t1 options document w1 = (w2, Ok (fileAttachments, doc2, t2)) ->
  checkImageWidths doc2 t2 options document w2 = (w3, Ok (doc3, t3)) ->
  (forall e,
     injectFlaws doc3 t3 options document w3 = (w4, Throw e) ->
     prepareTree options document doc renderedHtml w
     = (logged w4 console_warn
          (VString ("Injecting flaws into "
                    +:+ Document.path (Document.fileInfo document)
                    +:+ " (" +:+ Document.url document +:+ ") failed.")),
        Throw e)) /\
  (forall doc4 t4 w5 e,
     injectFlaws doc3 t3 options document w3 = (w4, Ok (doc4, t4)) ->
     fixFixableFlaws doc4 options document w4 = (w5, Throw e) ->
     prepareTree options document doc renderedHtml w
     = (logged w5 console_error e, Throw e)).
Proof.
  intros metadata doc1 logged Hload Hnative Hsidebar Hreferences Hwidths.
  split.
  - intros e Hinject. unfold prepareTree.
    rewrite (bind_ok _ _ _ _ _ Hload), (bind_ok _ _ _ _ _ Hnative).
    rewrite (bind_ok _ _ _ _ _ Hsidebar). fold metadata doc1.
    rewrite (bind_ok _ _ _ _ _ Hreferences), (bind_ok _ _ _ _ _ Hwidths).
    apply bind_throw. unfold try_catch. by rewrite Hinject.
  - intros doc4 t4 w5 e Hinject Hfix. unfold prepareTree.
    rewrite (bind_ok _ _ _ _ _ Hload), (bind_ok _ _ _ _ _ Hnative).
    rewrite (bind_ok _ _ _ _ _ Hsidebar). fold metadata doc1.
    rewrite (bind_ok _ _ _ _ _ Hreferences), (bind_ok _ _ _ _ _ Hwidths).
    rewrite (bind_ok _ _ w3 w4 (doc4, t4)) by (unfold try_catch; by rewrite Hinject).
    apply bind_throw. unfold try_catch. by rewrite Hfix.
Qed.

End Failures.

Lemma folder_mismatch_fatal_witness :
  buildDocument Cases.misplaced ∅ Sample.world
  = (Sample.world,
     Throw (mkError ("The document's slug (Web/HTML) doesn't match "
                     +:+ "its disk folder name (en-us/web/css)"))).
Proof. by apply (folder_mismatch_fatal Cases.misplaced ∅ Sample.world). Defined.

Lemma archived_document_not_rendered_witness :
  exists w' out,
    buildDocument (Sample.page "Web/CSS" true false) (Sample.options "error")
      Sample.world = (w', Ok out) /\
    liveSamples out = [].
Proof.
  destruct (buildDocument (Sample.page "Web/CSS" true false) (Sample.options "error")
              Sample.world) as [w' [out|e]] eqn:Hbuild;
    [|vm_compute in Hbuild; discriminate].
  exists w', out. split; [reflexivity|].
  exact (proj2 (archived_document_not_rendered (Sample.page "Web/CSS" true false)
                  (Sample.options "error") Sample.world eq_refl) w' out Hbuild).
Defined.


Lemma flaw_check_failure_logged_witness :
  @buildDocument unit _ _ _ _ _ (Cases.flawed (Some (mkError "no such image")) None)
    Sample.document (Sample.options "ignore") Sample.world
  = (Build_World
       [(console_warn,
         VString ("Injecting flaws into /content/files/en-us/web/css/index.html"
                  +:+ " (/en-US/Web/CSS) failed."))] ∅ tt,
     Throw (mkError "no such image")).
Proof.
  unfold buildDocument.
  rewrite (bind_ok _ _ Sample.world Sample.world
             (mergeOptions (Sample.options "ignore"),
              "<p data-flaw-src=" +:+ String "034" "x" +:+ String "034" "></p>",
              [{| LiveSample.id := "good_sample";
                  LiveSample.html := "<html>Good_Sample</html>" |};
               {| LiveSample.id := "late"; LiveSample.html := "<html>Late</html>" |}],
              newDoc Sample.document)) by by vm_compute.
  apply bind_throw.
  refine (proj1 (@flaw_check_failure_logged unit _ _
                   (Cases.flawed (Some (mkError "no such image")) None)
                   _ Sample.document (newDoc Sample.document) _
                   Sample.world Sample.world Sample.world Sample.world Sample.world
                   _ _ _ _ (VString "English (US)") (VString "") (VArray [])
                   _ _ _ _ _ _ _) (mkError "no such image") _);
    by vm_compute.
Defined.

(** ** The fields of the document that is returned *)

Lemma lookup_insert_congr (k key : string) (v : value) (d1 d2 : object) :
  d1 !! key = d2 !! key -> <[k := v]> d1 !! key = <[k := v]> d2 !! key.
Proof.
  intros Heq. destruct (decide (k = key)) as [->|Hne].
  - by rewrite !lookup_insert_eq.
  - by rewrite !lookup_insert_ne.
Qed.

Lemma makeTOC_reads_body (doc : object) (sections : value) :
  doc !! "body" = Some sections -> makeTOC doc = makeTOC {[ "body" := sections ]}.
Proof. intros Hbody. unfold makeTOC. by rewrite Hbody, lookup_singleton_eq. Qed.

Section Output.

Context {Ext : Type}.
Context `{!Content Ext, !Kumascript Ext, !Chalk, !Cheerio, !BuildOptions,
          !BuildModules Ext}.
Implicit Types (document : Document.t) (documentOptions options doc : object)
  (w : World Ext) (key : string).

Lemma nativeName_inv (locale : string) w w' (native : value) :
  nativeName locale w = (w', Ok native) ->
  w' = w /\ getProp (default VUndefined (LANGUAGES !! locale)) "native" = inr native.
Proof.
  unfold nativeName, liftR. destruct (getProp _ "native") as [e|v]; [done|].
  by intros [= -> ->].
Qed.

Lemma prepareTree_assigned options document doc doc' (renderedHtml : string)
    (t' : tree) (attachments : value) w w' :
  prepareTree options document doc renderedHtml w = (w', Ok (doc', t', attachments)) ->
  exists native sidebarHTML,
    getProp (default VUndefined
               (LANGUAGES !! JSString.toLowerCase
                               (Document.locale (Document.metadata document))))
      "native" = inr native /\
    forall key, KeepsField key ->
      doc' !! key =
      <["sidebarHTML" := sidebarHTML]>
        (<["native" := native]>
        (<["locale" := VString (Document.locale (Document.metadata document))]>
        (<["mdn_url" := VString (Document.url document)]>
        (<["title" := VString (Document.title (Document.metadata document))]> doc))))
      !! key.
Proof.
  intros Hprepare. unfold prepareTree in Hprepare.
  step_ok Hprepare as t0 Hload.
  step_ok Hprepare as native Hnativename.
  step_ok Hprepare as [sidebarHTML t1] Hstep1.
  step_ok Hprepare as [[fileAttachments doc2] t2] Hstep2.
  step_ok Hprepare as [doc3 t3] Hstep3.
  step_ok Hprepare as [doc4 t4] Hstep4.
  step_ok Hprepare as doc5 Hstep5.
  step_ok Hprepare as [t6 doc6] Hstep6.
  apply ret_inv in Hprepare as [_ [= -> -> ->]].
  apply try_catch_rethrow_ok in Hstep4.
  apply (try_catch_rethrow_ok _ (log console_error)) in Hstep5.
  apply nativeName_inv in Hnativename as [_ Hnative].
  exists native, sidebarHTML. split; [done|]. intros key Hkeeps.
  rewrite (syntaxHighlight_keeps _ _ _ _ _ _ Hstep6).
  rewrite (fixFixableFlaws_keeps _ _ _ _ _ _ Hstep5).
  rewrite (injectFlaws_keeps _ _ _ _ _ _ _ _ Hstep4).
  rewrite (checkImageWidths_keeps _ _ _ _ _ _ _ _ Hstep3).
  by rewrite (checkImageReferences_keeps _ _ _ _ _ _ _ _ _ Hstep2).
Qed.

Lemma describe_assigned options document doc doc' (t : tree) (bcd : value) w w' :
  describe options document doc t w = (w', Ok (doc', bcd)) ->
  exists (sections toc summary : value) (otherTranslations : list value)
         (github_url : string) (pageTitle : value) w1 w2 w3 w4,
    otherTranslationsOf document w1 = (w2, Ok otherTranslations) /\
    getGitHubURL (Document.root (Document.fileInfo document))
      (Document.folder (Document.fileInfo document)) w3 = (w4, Ok github_url) /\
    (KeepsField "body" -> makeTOC {[ "body" := sections ]} = inr toc) /\
    forall key, KeepsField key ->
      doc' !! key =
      <["pageTitle" := pageTitle]>
        (<["source" :=
             VObject (<["folder" := VString (Document.folder (Document.fileInfo document))]>
                     (<["github_url" := VString github_url]>
                     (<["last_commit_url" :=
                          VString (getLastCommitURL
                                     (Document.root (Document.fileInfo document))
                                     (Document.hash (Document.metadata document)))]> ∅)))]>
           (match otherTranslations with
            | [] => fun d => d
            | _ :: _ => <["other_translations" := VArray otherTranslations]>
            end
              (<["modified" :=
                   match Document.modified (Document.metadata document) with
                   | Some (String c rest) => VString (String c rest)
                   | _ => VNull
                   end]>
              (<["popularity" :=
                   VNumber (storedPopularity
                              (Document.popularity (Document.metadata document)))]>
              (<["summary" := summary]>
              (<["toc" := toc]>
              (<["body" := sections]> doc)))))))
      !! key.
Proof.
  intros Hdescribe. unfold describe in Hdescribe.
  step_ok Hdescribe as [[sections sectionFlaws] t'] Hsections.
  step_ok Hdescribe as doc1 Hflaws.
  step_ok Hdescribe as toc Htoc.
  step_ok Hdescribe as summary Hsummary.
  step_ok Hdescribe as doc2 Hbcdurls.
  step_ok Hdescribe as [bcd' doc3] Hbcd.
  step_ok Hdescribe as translations Htranslations.
  step_ok Hdescribe as doc4 Hsource.
  step_ok Hdescribe as doc5 Hparents.
  step_ok Hdescribe as [pageTitle doc6] Hpage.
  apply ret_inv in Hdescribe as [_ [= -> ->]].
  unfold injectSource in Hsource. step_ok Hsource as github_url Hurl.
  apply ret_inv in Hsource as [_ ->].
  assert (forall key, KeepsField key -> doc1 !! key = <["body" := sections]> doc !! key)
    as Hdoc1.
  { intros key Hkeeps. destruct sectionFlaws as [|sectionFlaw sectionFlaws].
    - by apply ret_inv in Hflaws as [_ ->].
    - by rewrite (injectSectionFlaws_keeps _ _ _ _ _ _ Hflaws). }
  eexists sections, toc, summary, translations, github_url, pageTitle, _, _, _, _.
  split; [exact Htranslations|]. split; [exact Hurl|]. split.
  - intros Hbody. unfold liftR in Htoc.
    rewrite (makeTOC_reads_body doc1 sections) in Htoc
      by (by rewrite (Hdoc1 "body" Hbody), lookup_insert_eq).
    destruct (makeTOC _) as [e|toc']; [done|]. by apply ret_inv in Htoc as [_ ->].
  - intros key Hkeeps. apply lookup_insert_congr.
    rewrite (getPageTitle_keeps _ _ _ _ _ Hpage).
    rewrite (addBreadcrumbData_keeps _ _ _ _ _ Hparents).
    apply lookup_insert_congr.
    assert (doc3 !! key
            = <["summary" := summary]> (<["toc" := toc]> (<["body" := sections]> doc))
              !! key) as Hdoc3.
    { rewrite (extractBCDData_keeps _ _ _ _ _ Hbcd).
      rewrite (normalizeBCDURLs_keeps _ _ _ _ _ Hbcdurls).
      do 2 apply lookup_insert_congr. by apply Hdoc1. }
    destruct translations; repeat apply lookup_insert_congr; exact Hdoc3.
Qed.

(** X18.  The document that [buildDocument] returns is the document it
    first makes (the three flags of the source document and the macro flaws
    that the policy keeps) with fourteen fields assigned, in this order:
    the title, the URL and the locale of the source document, the native
    name of the language of that locale, the sidebar, the body, the table
    of contents, the summary, the popularity, the date of modification or
    [null], the other translations if there are any, the source with its
    folder and its GitHub links, the page title and the indexing decision.
    This holds for every field that the other modules of the build leave
    alone; the table of contents is the one of the body when they leave the
    body alone. *)
Theorem output_fields document documentOptions w w' (out : BuildResult) :
  buildDocument document documentOptions w = (w', Ok out) ->
  exists (native sidebarHTML sections toc summary : value)
         (otherTranslations : list value) (github_url : string)
         (pageTitle indexing : value) w1 w2 w3 w4,
    getProp (default VUndefined
               (LANGUAGES !! JSString.toLowerCase
                               (Document.locale (Document.metadata document))))
      "native" = inr native /\
    otherTranslationsOf document w1 = (w2, Ok otherTranslations) /\
    getGitHubURL (Document.root (Document.fileInfo document))
      (Document.folder (Document.fileInfo document)) w3 = (w4, Ok github_url) /\
    (KeepsField "body" -> makeTOC {[ "body" := sections ]} = inr toc) /\
    (forall key, KeepsField key -> key <> "flaws" ->
       doc out !! key
       = assignedFields document native sidebarHTML sections toc summary
           otherTranslations github_url pageTitle indexing (newDoc document) !! key) /\
    (KeepsField "title" ->
     doc out !! "title" = Some (VString (Document.title (Document.metadata document)))) /\
    (KeepsField "modified" ->
     doc out !! "modified"
     = Some match Document.modified (Document.metadata document) with
            | Some (String c rest) => VString (String c rest)
            | _ => VNull
            end) /\
    (KeepsField "other_translations" ->
     doc out !! "other_translations"
     = match otherTranslations with
       | [] => None
       | _ :: _ => Some (VArray otherTranslations)
       end).
Proof.
  intros Hbuild. unfold buildDocument in Hbuild.
  step_ok Hbuild as [[[options renderedHtml] samples] doc0] Hbefore.
  step_ok Hbuild as [[doc1 t] attachments] Hprepare.
  step_ok Hbuild as [doc2 bcd] Hdescribe.
  apply ret_inv in Hbuild as [_ ->]. cbn [doc].
  apply beforeTree_inv in Hbefore as [-> Hrender].
  apply prepareTree_assigned in Hprepare as (native & sidebarHTML & Hnative & Hdoc1).
  apply describe_assigned in Hdescribe
    as (sections & toc & summary & translations & github_url & pageTitle
        & w1 & w2 & w3 & w4 & Htranslations & Hurl & Htoc & Hdoc2).
  assert (forall key, KeepsField key -> key <> "flaws" ->
            <["noIndexing" :=
                noIndexing doc2 (Document.slug (Document.metadata document))]> doc2
            !! key
            = assignedFields document native sidebarHTML sections toc summary
                translations github_url pageTitle
                (noIndexing doc2 (Document.slug (Document.metadata document)))
                (newDoc document) !! key) as Hfields.
  { intros key Hkeeps Hflaws. unfold assignedFields. cbv zeta.
    apply lookup_insert_congr. rewrite (Hdoc2 key Hkeeps).
    do 2 apply lookup_insert_congr.
    assert (<["body" := sections]> doc1 !! key
            = <["body" := sections]>
                (<["sidebarHTML" := sidebarHTML]>
                (<["native" := native]>
                (<["locale" := VString (Document.locale (Document.metadata document))]>
                (<["mdn_url" := VString (Document.url document)]>
                (<["title" := VString (Document.title (Document.metadata document))]>
                   (newDoc document)))))) !! key) as Hbody.
    { apply lookup_insert_congr. rewrite (Hdoc1 key Hkeeps).
      repeat apply lookup_insert_congr.
      by apply (renderDocument_keeps key _ _ _ _ _ _ _ _ Hflaws Hrender). }
    destruct translations;
      [do 4 apply lookup_insert_congr|do 5 apply lookup_insert_congr];
      exact Hbody. }
  eexists native, sidebarHTML, sections, toc, summary, translations, github_url,
    pageTitle, _, w1, w2, w3, w4.
  split; [done|]. split; [done|]. split; [done|]. split; [done|].
  split; [exact Hfields|]. split; [|split].
  - intros Hkeeps. rewrite (Hfields "title" Hkeeps) by done.
    unfold assignedFields. cbv zeta.
    destruct translations; by repeat (rewrite lookup_insert_ne by done).
  - intros Hkeeps. rewrite (Hfields "modified" Hkeeps) by done.
    unfold assignedFields. cbv zeta.
    rewrite !(lookup_insert_ne _ _ "modified") by done.
    destruct translations;
      by rewrite ?(lookup_insert_ne _ "other_translations" "modified") by done.
  - intros Hkeeps. rewrite (Hfields "other_translations" Hkeeps) by done.
    unfold assignedFields. cbv zeta.
    rewrite !(lookup_insert_ne _ _ "other_translations") by done.
    destruct translations; [|by rewrite lookup_insert_eq].
    by repeat (rewrite lookup_insert_ne by done).
Qed.

End Output.

Lemma output_fields_witness :
  exists w' out,
    buildDocument Sample.document ∅ Sample.world = (w', Ok out) /\
    doc out !! "title" = Some (VString "CSS") /\
    doc out !! "modified" = Some (VString "2021-01-01T00:00:00.000Z") /\
    doc out !! "other_translations" = None.
Proof.
  destruct (buildDocument Sample.document ∅ Sample.world)
    as [w' [out|e]] eqn:Hbuild; [|vm_compute in Hbuild; discriminate].
  exists w', out. split; [reflexivity|].
  destruct (output_fields Sample.document ∅ Sample.world w' out Hbuild)
    as (native & sidebarHTML & sections & toc & summary & translations & github_url
        & pageTitle & indexing & w1 & w2 & w3 & w4
        & _ & Htranslations & _ & _ & _ & Htitle & Hmodified & Hother).
  split; [exact (Htitle (sample_keeps_field "title"))|].
  split; [exact (Hmodified (sample_keeps_field "modified"))|].
  rewrite (Hother (sample_keeps_field "other_translations")).
  assert ((w2, Ok translations) = (w1, @Ok (list value) [])) as [= _ ->]
    by (rewrite <- Htranslations; reflexivity).
  reflexivity.
Defined.

(** ** Languages, translations and the source *)

Section Languages.

Context {Ext : Type} `{!Content Ext}.
Implicit Types (document : Document.t) (w : World Ext) (k locale : string)
  (v : value) (raw : list (string * value)) (m : gmap string value).

Lemma lower_unit_idemp (c : ascii) :
  JSString.lower_unit (JSString.lower_unit c) = JSString.lower_unit c.
Proof. by destruct c as [[] [] [] [] [] [] [] []]. Qed.

Lemma toLowerCase_idemp (s : string) :
  JSString.toLowerCase (JSString.toLowerCase s) = JSString.toLowerCase s.
Proof.
  induction s as [|c s IH]; [done|].
  cbn [JSString.toLowerCase]. by rewrite lower_unit_idemp, IH.
Qed.

Lemma languages_lookup raw : forall m k v,
  foldl (fun m entry => <[JSString.toLowerCase (fst entry) := snd entry]> m) m raw
    !! k = Some v ->
  m !! k = Some v \/
  exists locale, (locale, v) ∈ raw /\ JSString.toLowerCase locale = k.
Proof.
  induction raw as [|[locale' v'] raw IH]; intros m k v; cbn [foldl fst snd];
    [by left|].
  intros [Hm | (locale & Hin & Hk)]%IH.
  - destruct (decide (JSString.toLowerCase locale' = k)) as [<-|Hne].
    + rewrite lookup_insert_eq in Hm. injection Hm as ->.
      right. exists locale'. split; [apply list_elem_of_here|done].
    + rewrite lookup_insert_ne in Hm by done. by left.
  - right. exists locale. split; [by apply list_elem_of_further|done].
Qed.

Lemma languages_kept raw : forall m k,
  k ∉ map (fun entry => JSString.toLowerCase (fst entry)) raw ->
  foldl (fun m entry => <[JSString.toLowerCase (fst entry) := snd entry]> m) m raw
    !! k = m !! k.
Proof.
  induction raw as [|[locale' v'] raw IH]; intros m k; cbn [foldl map fst snd];
    [done|].
  intros [Hne Hk]%not_elem_of_cons. by rewrite IH, lookup_insert_ne.
Qed.

Lemma languages_known raw : forall m k,
  is_Some (foldl (fun m entry => <[JSString.toLowerCase (fst entry) := snd entry]> m)
             m raw !! k)
  <-> is_Some (m !! k) \/ k ∈ map (fun entry => JSString.toLowerCase (fst entry)) raw.
Proof.
  induction raw as [|[locale' v'] raw IH]; intros m k; cbn [foldl map fst snd].
  - split; [by left|]. by intros [?|?%elem_of_nil].
  - rewrite IH, lookup_insert_is_Some, elem_of_cons.
    destruct (decide (JSString.toLowerCase locale' = k)); intuition congruence.
Qed.

Lemma languages_unique raw : forall m locale v,
  (locale, v) ∈ raw ->
  NoDup (map (fun entry => JSString.toLowerCase (fst entry)) raw) ->
  foldl (fun m entry => <[JSString.toLowerCase (fst entry) := snd entry]> m) m raw
    !! JSString.toLowerCase locale = Some v.
Proof.
  induction raw as [|[locale' v'] raw IH]; intros m locale v Hin;
    [by apply elem_of_nil in Hin|].
  cbn [foldl map fst snd]. intros [Hfresh Hnodup]%NoDup_cons.
  apply elem_of_cons in Hin as [[= -> ->]|Hin]; [|by apply IH].
  by rewrite languages_kept, lookup_insert_eq.
Qed.

(** X19.  [LANGUAGES] is keyed by lower-cased locale, whatever the case
    used in [languages.json]: what it holds under a key is the data of an
    entry whose locale, lower-cased, is that key, so a key with a capital
    letter finds nothing; every locale of the file is found under its
    lower-cased name, with its own data when no two locales of the file
    differ in case only. *)
Theorem languages_by_lower_case :
  (forall k v,
     LANGUAGES !! k = Some v ->
     JSString.toLowerCase k = k /\
     exists locale, (locale, v) ∈ LANGUAGES_RAW /\ JSString.toLowerCase locale = k) /\
  (forall k, JSString.toLowerCase k <> k -> LANGUAGES !! k = None) /\
  (forall locale v,
     (locale, v) ∈ LANGUAGES_RAW ->
     is_Some (LANGUAGES !! JSString.toLowerCase locale) /\
     (NoDup (map (fun entry => JSString.toLowerCase (fst entry)) LANGUAGES_RAW) ->
      LANGUAGES !! JSString.toLowerCase locale = Some v)).
Proof.
  assert (forall k v,
            LANGUAGES !! k = Some v ->
            JSString.toLowerCase k = k /\
            exists locale, (locale, v) ∈ LANGUAGES_RAW /\ JSString.toLowerCase locale = k)
    as Hkeys.
  { intros k v [Hempty | (locale & Hin & <-)]%languages_lookup; [done|].
    split; [apply toLowerCase_idemp|by exists locale]. }
  split; [done|]. split.
  - intros k Hk. destruct (LANGUAGES !! k) as [v|] eqn:Hv; [|done].
    by destruct (Hkeys k v Hv).
  - intros locale v Hin. split; [|by apply languages_unique].
    apply languages_known. right.
    apply (list_elem_of_fmap_2 (fun entry => JSString.toLowerCase (fst entry))) in Hin.
    exact Hin.
Qed.

(** X20.  [otherTranslationsOf] gives the translations that the content
    store has recorded when there are any, without looking anything up.
    When there are none and the document is a translation, the English
    document it translates is looked up, and if it is found the list is the
    one entry for "en-US" with the title of that document and the native
    name of "en-us"; otherwise the list is empty. *)
Theorem other_translations_listed document w :
  let metadata := Document.metadata document in
  (forall first rest,
     Document.translations document = Some (first :: rest) ->
     otherTranslationsOf document w = (w, Ok (first :: rest))) /\
  (Document.translations document = None \/ Document.translations document = Some [] ->
   (Document.translation_of metadata = None \/ Document.translation_of metadata = Some "" ->
    otherTranslationsOf document w = (w, Ok [])) /\
   (forall slug w1 found,
      Document.translation_of metadata = Some slug -> slug <> "" ->
      findByURL ("/en-US/docs/" +:+ slug) w = (w1, found) ->
      otherTranslationsOf document w
      = match found with
        | Ok None => (w1, Ok [])
        | Ok (Some source) =>
            match getProp (default VUndefined (LANGUAGES !! "en-us")) "native" with
            | inr native =>
                (w1, Ok [VObject
                           (<["locale" := VString "en-US"]>
                           (<["title" :=
                                VString (Document.title (Document.metadata source))]>
                           (<["native" := native]> ∅)))])
            | inl e => (w1, Throw e)
            end
        | Throw e => (w1, Throw e)
        end)).
Proof.
  intros metadata. split.
  - intros first rest Hrecorded. unfold otherTranslationsOf. by rewrite Hrecorded.
  - intros Hnone. split.
    + intros Hsource. unfold otherTranslationsOf. fold metadata.
      by destruct Hnone as [-> | ->], Hsource as [-> | ->].
    + intros slug w1 found Hslug Hne Hfound.
      assert (otherTranslationsOf document w
              = bind (findByURL ("/en-US/docs/" +:+ slug))
                  (fun translationOf =>
                     match translationOf with
                     | Some source =>
                         let! native := nativeName "en-us" in
                         ret ([] ++
                              [VObject
                                 (<["locale" := VString "en-US"]>
                                 (<["title" :=
                                      VString (Document.title (Document.metadata source))]>
                                 (<["native" := native]> ∅)))])
                     | None => ret []
                     end) w) as ->.
      { unfold otherTranslationsOf. fold metadata. rewrite Hslug.
        destruct slug; [done|]. by destruct Hnone as [-> | ->]. }
      unfold bind at 1. rewrite Hfound. destruct found as [[source|]|e]; [|done..].
      unfold bind, nativeName, liftR.
      by destruct (getProp _ "native").
Qed.

(** X21.  [injectSource] never throws.  It stores the folder of the
    document and two links under the repository of its root: the file on
    the branch that [getCurrentGitBranch] gives for the root, and the
    commit of the hash; for a root that has no repository both links are
    under "https://github.com/undefined".  Once it has run, the branch is
    kept: running it again changes nothing in the world. *)
Theorem source_links (doc : object) document (metadata : Document.Metadata) w :
  let folder := Document.folder (Document.fileInfo document) in
  let root := Document.root (Document.fileInfo document) in
  let base :=
    "https://github.com/" +:+ default "undefined" (REPOSITORY_URLS !! root) in
  exists w1 branch,
    getCurrentGitBranch root w = (w1, Ok branch) /\
    injectSource doc document metadata w
    = (w1,
       Ok (<["source" :=
               VObject
                 (<["folder" := VString folder]>
                 (<["github_url" :=
                      VString (base +:+ "/blob/" +:+ branch +:+ "/files/"
                               +:+ folder +:+ "/index.html")]>
                 (<["last_commit_url" :=
                      VString (base +:+ "/commit/" +:+ Document.hash metadata)]> ∅)))]>
             doc)) /\
    forall doc', fst (injectSource doc' document metadata w1) = w1.
Proof.
  intros folder root base.
  destruct (getCurrentGitBranch_returns root w) as (w1 & branch & Hfirst & _ & Hagain & _).
  exists w1, branch. split; [done|].
  unfold injectSource, getGitHubURL, getLastCommitURL, repositoryURL.
  fold folder root. split.
  - by rewrite (bind_ok _ _ _ _ _ (bind_ok _ _ _ _ _ Hfirst)).
  - intros doc'. by rewrite (bind_ok _ _ _ _ _ (bind_ok _ _ _ _ _ Hagain)).
Qed.

End Languages.

Lemma languages_by_lower_case_witness :
  @LANGUAGES unit Cases.store !! "de"
  = Some (VObject (Sample.obj [("English", VString "German");
                               ("native", VString "Deutsch")])) /\
  @LANGUAGES unit Cases.store !! "en-US" = None.
Proof.
  destruct (@languages_by_lower_case unit Cases.store) as (_ & Hcapital & Hlisted).
  split.
  - refine (proj2 (Hlisted "de" _ _) _).
    + right; left.
    + vm_compute. apply NoDup_cons_2; [|apply NoDup_singleton].
      intros Hin. apply elem_of_cons in Hin as [Hin|Hin]; [discriminate|].
      by apply elem_of_nil in Hin.
  - by apply Hcapital.
Defined.

Lemma other_translations_listed_witness :
  @otherTranslationsOf unit Cases.store Cases.klingon Sample.world
  = (Sample.world,
     Ok [VObject (Sample.obj [("locale", VString "en-US");
                              ("title", VString "CSS");
                              ("native", VString "English (US)")])]).
Proof.
  refine (eq_trans
            (proj2 (proj2 (@other_translations_listed unit Cases.store Cases.klingon
                             Sample.world) (or_intror eq_refl))
               "Web/CSS" Sample.world (Ok (Some Sample.document)) eq_refl _ eq_refl) _);
    [done|by vm_compute].
Defined.

Section Locale.

Context {Ext : Type}.
Context `{!Content Ext, !Kumascript Ext, !Chalk, !Cheerio, !BuildOptions,
          !BuildModules Ext}.


End Locale.


(** ** The URL of a live sample *)

Section Separator.

Import JSString.
Implicit Types (s t p sep : string) (x y : ascii).

#[local] Arguments startsWith : simpl never.
#[local] Arguments includes : simpl never.

Lemma length_append s t : String.length (s +:+ t) = String.length s + String.length t.
Proof. induction s as [|x s IH]; [done|]. rewrite append_cons. cbn. by rewrite IH. Qed.

Lemma startsWith_app_short p : forall s t,
  String.length p <= String.length s ->
  startsWith (s +:+ t) p = startsWith s p.
Proof.
  induction p as [|y p IH]; intros s t Hlen; [by rewrite !startsWith_nil|].
  destruct s as [|x s]; [cbn in Hlen; lia|].
  rewrite append_cons, !startsWith_cons_eq. rewrite IH; [done|]. cbn in Hlen. lia.
Qed.

Lemma split_from_cons sep x s :
  split_from sep 0 (String x s) =
  if startsWith (String x s) sep
  then "" :: split_from sep (Nat.pred (String.length sep)) s
  else push_front x (split_from sep 0 s).
Proof. done. Qed.

Lemma split_from_skip sep t : forall s,
  split_from sep (String.length t) (t +:+ s) = split_from sep 0 s.
Proof.
  induction t as [|x t IH]; intros s; [by rewrite append_nil_l|].
  rewrite append_cons. cbn [String.length split_from]. apply IH.
Qed.

(** A string that does not hold the separator is one piece. *)
Lemma split_whole sep s : includes s sep = false -> split s sep = [s].
Proof.
  unfold split. induction s as [|x s IH]; [done|].
  rewrite includes_eq. intros [Hhere Hlater]%orb_false_elim.
  by rewrite split_from_cons, Hhere, (IH Hlater).
Qed.

(** The first piece ends where the separator first occurs. *)
Lemma split_first sep sep' (last : ascii) s t :
  sep = sep' +:+ String last "" ->
  includes (s +:+ sep') sep = false ->
  split (s +:+ sep +:+ t) sep = s :: split t sep.
Proof.
  intros Hsep. unfold split. induction s as [|x s IH].
  - intros _. rewrite append_nil_l. destruct sep as [|y rest].
    { destruct sep'; [by rewrite append_nil_l in Hsep|by rewrite append_cons in Hsep]. }
    rewrite append_cons, split_from_cons, <- append_cons, startsWith_refl_app.
    f_equal. cbn [String.length Nat.pred]. apply split_from_skip.
  - rewrite !append_cons, includes_eq.
    intros [Hhere Hlater]%orb_false_elim. rewrite split_from_cons.
    assert (startsWith (String x (s +:+ sep +:+ t)) sep = false) as ->.
    { rewrite <- Hhere. rewrite Hsep at 1.
      rewrite <- !append_cons, append_assoc, <- (append_assoc _ sep').
      apply startsWith_app_short. rewrite Hsep, !length_append. cbn. lia. }
    by rewrite (IH Hlater).
Qed.

End Separator.

Section Lookups.

Context {Ext : Type}.
Context `{!Content Ext, !Kumascript Ext}.
Implicit Types (document : Document.t) (w : World Ext).

Lemma findLiveSample_broken document (documentURL sampleID : string)
    (ids : list SampleIdObject.t) (i : nat) (sample : SampleIdObject.t)
    w w1 (rendered : result (string * list value)) :
  ids !! i = Some sample ->
  JSString.toLowerCase (SampleIdObject.id sample) = sampleID ->
  (forall j earlier, j < i -> ids !! j = Some earlier ->
     JSString.toLowerCase (SampleIdObject.id earlier) <> sampleID) ->
  render (Document.url document) w = (w1, rendered) ->
  findLiveSample document documentURL (Some sampleID) ids w
  = match rendered with
    | Ok (renderedHtml, _) =>
        let page :=
          buildLiveSamplePage (Document.url document)
            (Document.title (Document.metadata document)) renderedHtml sample in
        match LiveSamplePage.flaw page with
        | Some flaw => (w1, Throw (mkError (toString flaw)))
        | None => (w1, Ok (LiveSamplePage.html page))
        end
    | Throw e => (w1, Throw e)
    end.
Proof.
  intros Hi Hid Hfirst Hrender. revert i Hi Hfirst.
  induction ids as [|head ids IH]; intros i Hi Hfirst; [done|].
  cbn [findLiveSample]. destruct i as [|i].
  - injection Hi as ->. rewrite bool_decide_eq_true_2 by by rewrite Hid.
    unfold bind. rewrite Hrender.
    destruct rendered as [[renderedHtml flaws]|e]; [|done]. cbn [fst].
    by destruct (LiveSamplePage.flaw _).
  - rewrite bool_decide_eq_false_2.
    + apply (IH i); [done|]. intros j earlier Hj Hearlier.
      apply (Hfirst (S j)); [lia|done].
    + intros [= Hhead]. by apply (Hfirst 0 head); [lia| |].
Qed.

(** X23.  [buildLiveSamplePageFromURL] takes the URL apart at the first
    "/_samples_/": for the URL made of a document URL, the separator and a
    sample id it looks the document up under that URL and the sample under
    that id, provided the separator does not occur earlier and the id does
    not hold it.  A URL that does not hold the separator is looked up
    whole, and for the document it finds no sample is found: the error
    names the sample "undefined". *)
Theorem live_sample_url_parts (documentURL sampleID url : string) w :
  (JSString.includes (documentURL +:+ "/_samples_") "/_samples_/" = false ->
   JSString.includes sampleID "/_samples_/" = false ->
   buildLiveSamplePageFromURL (documentURL +:+ "/_samples_/" +:+ sampleID) w
   = bind (findByURL documentURL)
       (fun found =>
          match found with
          | None => throw (mkError ("No document found for " +:+ documentURL))
          | Some document =>
              findLiveSample document documentURL (Some sampleID)
                (getLiveSampleIDs (Document.slug (Document.metadata document))
                   (Document.rawHTML document))
          end) w) /\
  (JSString.includes url "/_samples_/" = false ->
   buildLiveSamplePageFromURL url w
   = bind (findByURL url)
       (fun found =>
          match found with
          | None => throw (mkError ("No document found for " +:+ url))
          | Some document =>
              throw (mkError ("No live-sample " +:+ dquote +:+ "undefined" +:+ dquote
                              +:+ " found within " +:+ url))
          end) w).
Proof.
  split.
  - intros Hfirst Hid. unfold buildLiveSamplePageFromURL.
    rewrite (split_first "/_samples_/" "/_samples_" "/" documentURL sampleID eq_refl Hfirst).
    by rewrite (split_whole _ sampleID Hid).
  - intros Hnone. unfold buildLiveSamplePageFromURL.
    rewrite (split_whole _ url Hnone). cbn [lookup list_lookup default].
    unfold id, bind. destruct (findByURL url w) as [w1 [[document|]|e]]; [|done..].
    by apply findLiveSample_missing.
Qed.

(** X24.  A lookup fails with an [Error] that tells why: no document is
    found under the document URL; the sample is declared but breaks when
    it is built, and then the message is the flaw, even if a sample further
    down has the same id; or the macro engine throws while it renders the
    document, and then what it throws is thrown on. *)
Theorem live_sample_lookup_fails (url documentURL : string) w w1 :
  JSString.split url "/_samples_/" !! 0 = Some documentURL ->
  (findByURL documentURL w = (w1, Ok None) ->
   buildLiveSamplePageFromURL url w
   = (w1, Throw (mkError ("No document found for " +:+ documentURL)))) /\
  (forall document (sampleID : string) i sample w2,
     JSString.split url "/_samples_/" !! 1 = Some sampleID ->
     findByURL documentURL w = (w1, Ok (Some document)) ->
     getLiveSampleIDs (Document.slug (Document.metadata document))
       (Document.rawHTML document) !! i = Some sample ->
     JSString.toLowerCase (SampleIdObject.id sample) = sampleID ->
     (forall j earlier,
        j < i ->
        getLiveSampleIDs (Document.slug (Document.metadata document))
          (Document.rawHTML document) !! j = Some earlier ->
        JSString.toLowerCase (SampleIdObject.id earlier) <> sampleID) ->
     (forall renderedHtml flaws flaw,
        render (Document.url document) w1 = (w2, Ok (renderedHtml, flaws)) ->
        LiveSamplePage.flaw
          (buildLiveSamplePage (Document.url document)
             (Document.title (Document.metadata document)) renderedHtml sample)
        = Some flaw ->
        buildLiveSamplePageFromURL url w = (w2, Throw (mkError (toString flaw)))) /\
     (forall e,
        render (Document.url document) w1 = (w2, Throw e) ->
        buildLiveSamplePageFromURL url w = (w2, Throw e))).
Proof.
  intros Hurl. split.
  - intros Hfound. unfold buildLiveSamplePageFromURL. rewrite Hurl. cbn [default].
    by rewrite (bind_ok _ _ _ _ _ Hfound).
  - intros document sampleID i sample w2 Hid Hfound Hi Hlower Hfirst.
    assert (buildLiveSamplePageFromURL url w
            = findLiveSample document documentURL (Some sampleID)
                (getLiveSampleIDs (Document.slug (Document.metadata document))
                   (Document.rawHTML document)) w1) as ->.
    { unfold buildLiveSamplePageFromURL. rewrite Hurl, Hid. cbn [default].
      by rewrite (bind_ok _ _ _ _ _ Hfound). }
    split.
    + intros renderedHtml flaws flaw Hrender Hflaw.
      rewrite (findLiveSample_broken document documentURL sampleID _ i sample
                 w1 w2 _ Hi Hlower Hfirst Hrender).
      cbv zeta. by rewrite Hflaw.
    + intros e Hrender.
      by rewrite (findLiveSample_broken document documentURL sampleID _ i sample
                    w1 w2 _ Hi Hlower Hfirst Hrender).
Qed.

End Lookups.

Lemma live_sample_url_parts_witness :
  buildLiveSamplePageFromURL "/en-US/Web/CSS/_samples_/late" Sample.world
  = (Sample.world, Ok "<html>Late</html>") /\
  buildLiveSamplePageFromURL "/en-US/Web/CSS" Sample.world
  = (Sample.world,
     Throw (mkError ("No live-sample " +:+ dquote +:+ "undefined" +:+ dquote
                     +:+ " found within /en-US/Web/CSS"))).
Proof.
  split.
  - refine (eq_trans
              (proj1 (live_sample_url_parts "/en-US/Web/CSS" "late" "" Sample.world)
                 _ _) _); by vm_compute.
  - refine (eq_trans
              (proj2 (live_sample_url_parts "" "" "/en-US/Web/CSS" Sample.world) _) _);
      by vm_compute.
Defined.

Lemma live_sample_lookup_fails_witness :
  buildLiveSamplePageFromURL "/en-US/Web/HTML/_samples_/good_sample" Sample.world
  = (Sample.world, Throw (mkError "No document found for /en-US/Web/HTML")) /\
  buildLiveSamplePageFromURL "/en-US/Web/CSS/_samples_/broken" Sample.world
  = (Sample.world, Throw (mkError "MacroLiveSampleError")).
Proof.
  split.
  - refine (proj1 (live_sample_lookup_fails "/en-US/Web/HTML/_samples_/good_sample"
                     "/en-US/Web/HTML" Sample.world Sample.world _) _);
      by vm_compute.
  - refine (proj1 (proj2 (live_sample_lookup_fails "/en-US/Web/CSS/_samples_/broken"
                            "/en-US/Web/CSS" Sample.world Sample.world _)
                     Sample.document "broken" 1 Sample.brokenId Sample.world
                     _ _ _ _ _)
              ("<p data-flaw-src=" +:+ String "034" "x" +:+ String "034" "></p>")
              [Sample.deprecated] Sample.brokenSample _ _);
      try by vm_compute.
    intros j earlier Hj Hearlier. destruct j as [|j]; [|lia].
    injection Hearlier as <-. by vm_compute.
Defined.

(** ** The contributors file *)

Lemma append_empty (s t : string) : s +:+ t = "" -> s = "" /\ t = "".
Proof. destruct s; [by rewrite append_nil_l|by rewrite append_cons]. Qed.

(** X25.  [renderContributorsTxt] gives the empty text exactly when it is
    given no list of names and no GitHub URL (or an empty one); an empty
    list of names is still a list and gets its heading.  With both, the
    part for GitHub comes first and the text is the two parts one after
    the other. *)
Theorem renderContributorsTxt_parts (wikiContributorNames : option (list string))
    (githubURL : option string) :
  (renderContributorsTxt wikiContributorNames githubURL = ""
   <-> wikiContributorNames = None /\ (githubURL = None \/ githubURL = Some "")) /\
  renderContributorsTxt wikiContributorNames githubURL
  = renderContributorsTxt None githubURL
    +:+ renderContributorsTxt wikiContributorNames None.
Proof.
  split.
  - unfold renderContributorsTxt. split.
    + destruct wikiContributorNames as [names|].
      { intros [_ Hnames]%append_empty. by rewrite append_cons in Hnames. }
      destruct githubURL as [[|c rest]|]; [by split; [|right]| |by split; [|left]].
      intros Htxt. by rewrite append_cons in Htxt.
    + by intros [-> [-> | ->]].
  - unfold renderContributorsTxt.
    destruct wikiContributorNames as [names|]; [|by rewrite append_nil_r].
    by rewrite append_nil_l.
Qed.

Lemma renderContributorsTxt_parts_witness :
  renderContributorsTxt (Some []) None
  = "# Original Wiki contributors" +:+ newline +:+ newline /\
  renderContributorsTxt (Some ["fred"; "ginger"])
    (Some "https://github.com/mdn/content/commits/main/files/en-us/web/css/index.html")
  = "# Contributors by commit history" +:+ newline
    +:+ "https://github.com/mdn/content/commits/main/files/en-us/web/css/index.html"
    +:+ newline +:+ newline
    +:+ "# Original Wiki contributors" +:+ newline
    +:+ "fred" +:+ newline +:+ "ginger" +:+ newline.
Proof.
  split; [by vm_compute|].
  rewrite (proj2 (renderContributorsTxt_parts _ _)). by vm_compute.
Defined.

(** ** Every sample is accounted for *)

Section Accounting.

Context {Ext : Type}.
Context `{!Content Ext, !Kumascript Ext, !Chalk, !Cheerio, !BuildOptions,
          !BuildModules Ext}.
Implicit Types (document : Document.t) (flaws : list value).

Lemma samples_partition document (renderedHtml : string) (ids : list SampleIdObject.t) :
  length (omap (sampleFlaw document renderedHtml) ids)
  + length (omap (builtSample document renderedHtml) ids) = length ids.
Proof.
  induction ids as [|sample ids IH]; [done|]. cbn [omap list_omap length].
  unfold sampleFlaw at 1, builtSample at 1.
  destruct (LiveSamplePage.flaw _); cbn [length]; lia.
Qed.

(** X26.  The loop over the declared samples drops none and counts none
    twice: each declared sample gives either one live sample or one flaw,
    so the flaws and the live samples after the loop are as many as the
    flaws before it and the declared samples together; and [buildDocument]
    never returns more live samples than the document declares. *)
Theorem every_sample_accounted document (documentOptions : object)
    (w w' : World Ext) (out : BuildResult) :
  let ids := getLiveSampleIDs (Document.slug (Document.metadata document))
               (Document.rawHTML document) in
  (forall (renderedHtml : string) flaws,
     length (fst (collectLiveSamples document renderedHtml flaws))
     + length (snd (collectLiveSamples document renderedHtml flaws))
     = length flaws + length ids) /\
  (buildDocument document documentOptions w = (w', Ok out) ->
   length (liveSamples out) <= length ids).
Proof.
  intros ids. split.
  - intros renderedHtml flaws. rewrite collectLiveSamples_spec. cbn [fst snd].
    rewrite length_app. pose proof (samples_partition document renderedHtml ids).
    fold ids. lia.
  - intros Hbuild.
    apply buildDocument_inv in Hbuild as (w1 & renderedHtml & doc1 & Hrender).
    destruct (Document.isArchive document) eqn:Harchive.
    + unfold renderDocument in Hrender.
      rewrite newDoc_isArchive, Harchive in Hrender. cbn [truthy] in Hrender.
      apply ret_inv in Hrender as [_ [= _ Hsamples _]]. rewrite Hsamples.
      cbn [length]. lia.
    + apply renderDocument_inv in Hrender as (w2 & w3 & flaws & _ & -> & _); [|done].
      rewrite collectLiveSamples_spec. cbn [snd].
      pose proof (samples_partition document renderedHtml ids). fold ids. lia.
Qed.

End Accounting.

Lemma every_sample_accounted_witness :
  exists w' out,
    buildDocument Sample.document ∅ Sample.world = (w', Ok out) /\
    length (liveSamples out) <= 3.
Proof.
  destruct (buildDocument Sample.document ∅ Sample.world)
    as [w' [out|e]] eqn:Hbuild; [|vm_compute in Hbuild; discriminate].
  exists w', out. split; [reflexivity|].
  exact (proj2 (every_sample_accounted Sample.document ∅ Sample.world w' out) Hbuild).
Defined.

(** ** Macro flaws for the front end *)

Section Replacing.

Import JSString.
Implicit Types (s t p r pat acc : string) (x y : ascii).

#[local] Arguments startsWith : simpl never.
#[local] Arguments includes : simpl never.

Lemma getSubstitution_plain (matched before after : string) r :
  includes r "$" = false -> getSubstitution matched before after r = r.
Proof.
  induction r as [|c r IH]; [done|]. rewrite includes_char_cons.
  intros [Hc Hr]%orb_false_elim. cbn [getSubstitution]. destruct r as [|d r]; [done|].
  rewrite Ascii.eqb_sym in Hc. rewrite Hc. cbn [negb]. by rewrite (IH Hr).
Qed.

Lemma replace_from_eq acc s pat r :
  replace_from acc s pat r =
  if startsWith s pat
  then Some (acc +:+ getSubstitution pat acc (drop (String.length pat) s) r
             +:+ drop (String.length pat) s)
  else match s with
       | "" => None
       | String c s' => replace_from (acc +:+ String c "") s' pat r
       end.
Proof. by destruct s. Qed.

Lemma drop_app_length t s : drop (String.length t) (t +:+ s) = s.
Proof.
  induction t as [|x t IH]; [by rewrite append_nil_l|].
  by rewrite append_cons.
Qed.

Lemma replace_from_missing pat r s : forall acc,
  includes s pat = false -> replace_from acc s pat r = None.
Proof.
  induction s as [|x s IH]; intros acc; rewrite includes_eq, replace_from_eq;
    intros [-> Hlater]%orb_false_elim; [done|].
  by apply IH.
Qed.

Lemma replace_from_first pat pat' (last : ascii) r (after : string) :
  pat = pat' +:+ String last "" ->
  forall before acc,
    includes (before +:+ pat') pat = false ->
    replace_from acc (before +:+ pat +:+ after) pat r
    = Some ((acc +:+ before)
            +:+ getSubstitution pat (acc +:+ before) after r +:+ after).
Proof.
  intros Hpat. induction before as [|x before IH]; intros acc.
  - intros _. rewrite append_nil_l, append_nil_r, replace_from_eq.
    by rewrite startsWith_refl_app, drop_app_length.
  - rewrite !append_cons, includes_eq.
    intros [Hhere Hlater]%orb_false_elim. rewrite replace_from_eq.
    assert (startsWith (String x (before +:+ pat +:+ after)) pat = false) as ->.
    { rewrite <- Hhere. rewrite Hpat at 1.
      rewrite <- !append_cons, append_assoc, <- (append_assoc _ pat').
      apply startsWith_app_short. rewrite Hpat, !length_append. cbn. lia. }
    rewrite (IH _ Hlater).
    by rewrite !append_assoc, !append_cons, !append_nil_l.
Qed.

(** [replace] with a string pattern: a text that does not hold the pattern
    is left as it is, and otherwise the first occurrence of the pattern
    gives way to the replacement, taken literally when it has no dollar
    sign. *)
Lemma replace_first pat pat' (last : ascii) r (before after : string) :
  pat = pat' +:+ String last "" ->
  includes (before +:+ pat') pat = false ->
  replace (before +:+ pat +:+ after) pat r
  = before +:+ getSubstitution pat before after r +:+ after.
Proof.
  intros Hpat Hfirst. unfold replace.
  rewrite (replace_from_first pat pat' last r after Hpat before "" Hfirst).
  by rewrite !append_nil_l.
Qed.

Lemma replace_missing pat r s : includes s pat = false -> replace s pat r = s.
Proof. intros Hnone. unfold replace. by rewrite replace_from_missing. Qed.

End Replacing.

Section Annotated.

Context {Ext : Type}.
Context `{!Content Ext, !Kumascript Ext}.
Implicit Types (document : Document.t) (flaw : value) (props : gmap string value).

(** What [beefUp] computes for a flaw. *)
Lemma beefUp_computed document (i : nat) flaw (beefed : value) :
  beefUp document i flaw = inr beefed ->
  exists props (fixable : bool) (suggestion explanation : value),
    flaw = VObject props /\
    beefed
    = VObject (props ∪
               <["id" := VString ("macro" +:+ pretty i)]>
               (<["fixable" := VBool fixable]>
               (<["suggestion" := suggestion]>
               (<["explanation" := explanation]> ∅)))) /\
    getProp (default VUndefined (props !! "error")) "message" = inr explanation /\
    let name := default VUndefined (props !! "name") in
    let filepath := default VUndefined (props !! "filepath") in
    let here :=
      negb (truthy filepath)
      || isString filepath (Document.path (Document.fileInfo document)) in
    (isString name "MacroDeprecatedError" = true ->
     fixable = true /\ suggestion = VString "") /\
    (isString name "MacroDeprecatedError" = false ->
     isString name "MacroRedirectedLinkError" && here = false ->
     fixable = false /\ suggestion = VNull) /\
    (isString name "MacroDeprecatedError" = false ->
     isString name "MacroRedirectedLinkError" && here = true ->
     fixable = true /\
     exists (source : string) redirectInfo current suggested,
       props !! "macroSource" = Some (VString source) /\
       getProp (default VUndefined (props !! "redirectInfo")) "current" = inr current /\
       getProp (default VUndefined (props !! "redirectInfo")) "suggested" = inr suggested /\
       redirectInfo = default VUndefined (props !! "redirectInfo") /\
       suggestion
       = VString (JSString.replace source (ToString toString current)
                    (ToString toString suggested))).
Proof.
  intros Hbeef.
  destruct (beefUp_keeps document i flaw beefed Hbeef) as (props & _ & -> & _ & _).
  revert Hbeef. unfold beefUp, andThen. cbn [getProp].
  destruct (isString (default VUndefined (props !! "name")) "MacroDeprecatedError")
    eqn:Hdeprecated.
  { destruct (getProp (default VUndefined (props !! "error")) "message")
      as [e|explanation] eqn:Hmessage; [done|].
    intros [= <-]. exists props, true, (VString ""), explanation.
    split; [done|]. split; [done|]. split; [done|]. cbv zeta.
    rewrite Hdeprecated. by split; [|split]. }
  destruct (isString (default VUndefined (props !! "name")) "MacroRedirectedLinkError")
    eqn:Hredirected; cbn [andb].
  2: { destruct (getProp (default VUndefined (props !! "error")) "message")
         as [e|explanation] eqn:Hmessage; [done|].
       intros [= <-]. exists props, false, VNull, explanation.
       split; [done|]. split; [done|]. split; [done|]. cbv zeta.
       rewrite Hdeprecated, Hredirected. cbn [andb]. by split; [|split]. }
  destruct (negb (truthy (default VUndefined (props !! "filepath"))) || isString _ _)
    eqn:Hhere.
  2: { destruct (getProp (default VUndefined (props !! "error")) "message")
         as [e|explanation] eqn:Hmessage; [done|].
       intros [= <-]. exists props, false, VNull, explanation.
       split; [done|]. split; [done|]. split; [done|]. cbv zeta.
       rewrite Hdeprecated, Hredirected, Hhere. cbn [andb]. by split; [|split]. }
  destruct (getProp (default VUndefined (props !! "macroSource")) "replace")
    as [e|method] eqn:Hmethod; [done|].
  destruct (getProp (default VUndefined (props !! "redirectInfo")) "current")
    as [e|current] eqn:Hcurrent; [done|].
  destruct (getProp (default VUndefined (props !! "redirectInfo")) "suggested")
    as [e|suggested] eqn:Hsuggested; [done|].
  destruct (props !! "macroSource") as [[| | | |source| |]|] eqn:Hsource;
    cbn [default]; try done.
  destruct (getProp (default VUndefined (props !! "error")) "message")
    as [e|explanation] eqn:Hmessage; [done|].
  intros [= <-]. eexists props, true, _, explanation.
  split; [done|]. split; [done|]. split; [done|]. cbv zeta.
  rewrite Hdeprecated, Hredirected, Hhere. cbn [andb].
  split; [done|]. split; [done|].
  intros _ _. split; [done|].
  by eexists source, _, current, suggested.
Qed.

(** X27.  Under the "warn" level every macro flaw is stored with what the
    front end needs, the properties of the flaw itself coming first: its
    number in the list as "macro0", "macro1", ...; the message of its error
    as the explanation; and whether it can be fixed, with the fix.  A
    deprecated macro can be fixed and the fix is to remove it; a redirected
    link can be fixed when the flaw is of this file (or of no file), and
    the fix is the source of the macro with the current target replaced by
    the suggested one; no other flaw can be fixed. *)
Theorem macro_flaws_annotated document (flaws macros : list value) :
  beefUpAll document 0 flaws = inr macros ->
  forall j flaw,
    flaws !! j = Some flaw ->
    exists props (fixable : bool) (suggestion explanation : value),
      flaw = VObject props /\
      macros !! j
      = Some (VObject (props ∪
                       <["id" := VString ("macro" +:+ pretty j)]>
                       (<["fixable" := VBool fixable]>
                       (<["suggestion" := suggestion]>
                       (<["explanation" := explanation]> ∅))))) /\
      getProp (default VUndefined (props !! "error")) "message" = inr explanation /\
      let name := default VUndefined (props !! "name") in
      let filepath := default VUndefined (props !! "filepath") in
      let here :=
        negb (truthy filepath)
        || isString filepath (Document.path (Document.fileInfo document)) in
      (isString name "MacroDeprecatedError" = true ->
       fixable = true /\ suggestion = VString "") /\
      (isString name "MacroDeprecatedError" = false ->
       isString name "MacroRedirectedLinkError" && here = false ->
       fixable = false /\ suggestion = VNull) /\
      (isString name "MacroDeprecatedError" = false ->
       isString name "MacroRedirectedLinkError" && here = true ->
       fixable = true /\
       exists (source : string) redirectInfo current suggested,
         props !! "macroSource" = Some (VString source) /\
         getProp (default VUndefined (props !! "redirectInfo")) "current" = inr current /\
         getProp (default VUndefined (props !! "redirectInfo")) "suggested"
           = inr suggested /\
         redirectInfo = default VUndefined (props !! "redirectInfo") /\
         suggestion
         = VString (JSString.replace source (ToString toString current)
                      (ToString toString suggested))).
Proof.
  intros Hall j flaw Hj.
  destruct (beefUpAll_lookup document 0 flaws macros Hall) as [_ Hlookup].
  destruct (Hlookup j flaw Hj) as (beefed & Hat & Hbeef).
  apply beefUp_computed in Hbeef
    as (props & fixable & suggestion & explanation & -> & -> & Hrest).
  exists props, fixable, suggestion, explanation. by rewrite Hat.
Qed.

(** X28.  The fix suggested for a redirected link changes the first
    occurrence of the current target in the source of the macro, and only
    that one; a source that does not hold the current target is suggested
    as it is.  The suggested target is put in literally when it has no
    dollar sign; "$&" in it stands for the current target. *)
Theorem redirect_suggestion document (i : nat) props
    (source current suggested : string) (info : gmap string value) :
  props !! "name" = Some (VString "MacroRedirectedLinkError") ->
  props !! "filepath" = None ->
  props !! "macroSource" = Some (VString source) ->
  props !! "redirectInfo" = Some (VObject info) ->
  info !! "current" = Some (VString current) ->
  info !! "suggested" = Some (VString suggested) ->
  is_Some (props !! "error") ->
  props !! "error" <> Some VNull -> props !! "error" <> Some VUndefined ->
  props !! "suggestion" = None ->
  exists beefed,
    beefUp document i (VObject props) = inr (VObject beefed) /\
    beefed !! "suggestion"
      = Some (VString (JSString.replace source current suggested)) /\
    (JSString.includes source current = false ->
     JSString.replace source current suggested = source) /\
    (forall before after current' last,
       source = before +:+ current +:+ after ->
       current = current' +:+ String last "" ->
       JSString.includes (before +:+ current') current = false ->
       (JSString.includes suggested "$" = false ->
        JSString.replace source current suggested = before +:+ suggested +:+ after) /\
       (suggested = "$&" ->
        JSString.replace source current suggested = source)).
Proof.
  intros Hname Hfilepath Hsource Hinfo Hcurrent Hsuggested [inner Hinner] Hnull Hundefined
    Hown.
  assert (exists explanation, getProp inner "message" = inr explanation)
    as [explanation Hmessage].
  { destruct inner as [| |b|x|s|items|fields];
      [by destruct Hundefined|by destruct Hnull|by eexists..]. }
  eexists. split; [|split; [|split]].
  - unfold beefUp, andThen. cbn [getProp].
    rewrite Hname, Hfilepath, Hsource, Hinfo, Hinner. cbn [default]. unfold id.
    cbn [getProp]. rewrite Hcurrent, Hsuggested, Hmessage. cbn [default]. unfold id.
    change (isString (VString "MacroRedirectedLinkError") "MacroDeprecatedError")
      with false.
    change (isString (VString "MacroRedirectedLinkError") "MacroRedirectedLinkError")
      with true.
    cbn [truthy negb orb fst snd ToString]. reflexivity.
  - rewrite lookup_union_r by done.
    rewrite (lookup_insert_ne _ "id" "suggestion") by done.
    rewrite (lookup_insert_ne _ "fixable" "suggestion") by done.
    by rewrite lookup_insert_eq.
  - apply replace_missing.
  - intros before after current' last -> Hlast Hfirst. split.
    + intros Hplain. rewrite (replace_first current current' last) by done.
      by rewrite getSubstitution_plain.
    + intros ->. rewrite (replace_first current current' last) by done.
      cbn [JSString.getSubstitution]. by rewrite append_nil_r.
Qed.

End Annotated.

Lemma macro_flaws_annotated_witness :
  exists macros,
    beefUpAll Sample.document 0 [Sample.deprecated; Sample.brokenSample] = inr macros /\
    macros !! 1
    = Some (VObject (Sample.obj
              [("name", VString "MacroLiveSampleError");
               ("error", VObject (Sample.obj [("message", VString "no such code block")]));
               ("macroSource", VString "{{EmbedLiveSample('Broken')}}");
               ("id", VString "macro1");
               ("fixable", VBool false);
               ("suggestion", VNull);
               ("explanation", VString "no such code block")])).
Proof.
  destruct (beefUpAll Sample.document 0 [Sample.deprecated; Sample.brokenSample])
    as [e|macros] eqn:Hall; [vm_compute in Hall; discriminate|].
  exists macros. split; [reflexivity|].
  destruct (macro_flaws_annotated Sample.document _ macros Hall 1 Sample.brokenSample
              eq_refl)
    as (props & fixable & suggestion & explanation & [= <-] & -> & Hmessage & _
        & Hother & _).
  destruct (Hother eq_refl eq_refl) as [-> ->].
  assert (inr explanation = @inr value value (VString "no such code block"))
    as [= ->] by (rewrite <- Hmessage; by vm_compute).
  by vm_compute.
Defined.

Lemma redirect_suggestion_witness :
  exists beefed,
    beefUp Sample.document 0 Cases.redirected = inr (VObject beefed) /\
    beefed !! "suggestion"
    = Some (VString "{{CSSxRef('flex_flow')}} and {{CSSxRef('flex-flow')}}").
Proof.
  destruct (redirect_suggestion Sample.document 0
              (Sample.obj
                 [("name", VString "MacroRedirectedLinkError");
                  ("macroSource",
                   VString "{{CSSxRef('flex-flow')}} and {{CSSxRef('flex-flow')}}");
                  ("redirectInfo",
                   VObject (Sample.obj [("current", VString "flex-flow");
                                        ("suggested", VString "flex_flow")]));
                  ("error", VObject (Sample.obj [("message", VString "redirected")]))])
              "{{CSSxRef('flex-flow')}} and {{CSSxRef('flex-flow')}}"
              "flex-flow" "flex_flow"
              (Sample.obj [("current", VString "flex-flow");
                           ("suggested", VString "flex_flow")]))
    as (beefed & Hbeef & Hsuggestion & _ & Hfirst); try by vm_compute.
  { eexists. by vm_compute. }
  exists beefed. split; [exact Hbeef|]. rewrite Hsuggestion.
  destruct (Hfirst "{{CSSxRef('" "')}} and {{CSSxRef('flex-flow')}}" "flex-flo" "w"%char)
    as [Hplain _]; [by vm_compute..|].
  rewrite Hplain by by vm_compute. by vm_compute.
Defined.
